(** * bgpd control socket: a model of usr.sbin/bgpd/control.c

    The file embeds the control-socket code of bgpd (control.c) as Rocq
    functions over an explicit state and proves properties of the
    dispatcher, the relay towards control clients, connection close and
    accept.

    control.c includes bgpd.h, session.h and log.h and calls into
    session.c and libutil (imsg).  Their constants and functions are
    collected in the class [Headers]; every definition below is
    parametric in it. *)

From Stdlib Require Import String ZArith List Bool Lia.
Import ListNotations.
Local Open Scope Z_scope.

(** ** Message types

    [enum imsg_type] (bgpd.h).  The constructors are the enumerators
    control.c names; [IMSG_OTHER] stands for every other value of the
    header's type field. *)
Inductive imsg_type : Type :=
| IMSG_NONE
| IMSG_CTL_END
| IMSG_CTL_RELOAD
| IMSG_CTL_FIB_COUPLE
| IMSG_CTL_FIB_DECOUPLE
| IMSG_CTL_NEIGHBOR_UP
| IMSG_CTL_NEIGHBOR_DOWN
| IMSG_CTL_NEIGHBOR_CLEAR
| IMSG_CTL_NEIGHBOR_RREFRESH
| IMSG_CTL_NEIGHBOR_DESTROY
| IMSG_CTL_KROUTE
| IMSG_CTL_KROUTE_ADDR
| IMSG_CTL_RESULT
| IMSG_CTL_SHOW_NEIGHBOR
| IMSG_CTL_SHOW_NEXTHOP
| IMSG_CTL_SHOW_INTERFACE
| IMSG_CTL_SHOW_RIB
| IMSG_CTL_SHOW_RIB_PREFIX
| IMSG_CTL_SHOW_RIB_MEM
| IMSG_CTL_SHOW_NETWORK
| IMSG_CTL_SHOW_FLOWSPEC
| IMSG_CTL_SHOW_TERSE
| IMSG_CTL_SHOW_TIMER
| IMSG_CTL_SHOW_FIB_TABLES
| IMSG_CTL_SHOW_RTR
| IMSG_CTL_SHOW_SET
| IMSG_CTL_LOG_VERBOSE
| IMSG_CTL_TERMINATE
| IMSG_NETWORK_ADD
| IMSG_NETWORK_ASPATH
| IMSG_NETWORK_ATTR
| IMSG_NETWORK_REMOVE
| IMSG_NETWORK_FLUSH
| IMSG_NETWORK_DONE
| IMSG_FLOWSPEC_ADD
| IMSG_FLOWSPEC_REMOVE
| IMSG_FLOWSPEC_DONE
| IMSG_FLOWSPEC_FLUSH
| IMSG_FILTER_SET
| IMSG_XON
| IMSG_XOFF
| IMSG_OTHER (n : N).

(** Result codes carried by an IMSG_CTL_RESULT reply. *)
Inductive ctl_results : Type :=
| CTL_RES_OK
| CTL_RES_NOSUCHPEER
| CTL_RES_DENIED
| CTL_RES_NOCAP
| CTL_RES_PARSE_ERROR
| CTL_RES_BADPEER
| CTL_RES_BADSTATE.

(** ** Peers

    [struct peer] is declared in session.h.  The record keeps the
    fields control.c reads or writes; the session state and the reconf
    action keep the one enumerator control.c names and a catch-all. *)
Inductive session_state : Type :=
| STATE_IDLE
| STATE_OTHER (k : nat).

Inductive reconf_action_t : Type :=
| RECONF_DELETE
| RECONF_OTHER (k : nat).

Inductive session_events : Type := EVNT_START.

Inductive suberr_cease : Type :=
| ERR_CEASE_ADMIN_DOWN
| ERR_CEASE_ADMIN_RESET.

Definition session_state_is_idle (s : session_state) : bool :=
  match s with STATE_IDLE => true | STATE_OTHER _ => false end.

(** The statistics the RDE sends for a peer ([struct rde_peer_stats]). *)
Record rde_peer_stats : Type := mk_rde_peer_stats {
  r_prefix_cnt : Z;
  r_prefix_out_cnt : Z;
  r_prefix_rcvd_update : Z;
  r_prefix_rcvd_withdraw : Z;
  r_prefix_rcvd_eor : Z;
  r_prefix_sent_update : Z;
  r_prefix_sent_withdraw : Z;
  r_prefix_sent_eor : Z;
  r_pending_update : Z;
  r_pending_withdraw : Z
}.

(** [p->stats]: the ten counters the relay overwrites, and the counters
    the session engine keeps itself ([msg_counters]), which control.c
    never touches. *)
Record peer_stats : Type := mk_peer_stats {
  prefix_cnt : Z;
  prefix_out_cnt : Z;
  prefix_rcvd_update : Z;
  prefix_rcvd_withdraw : Z;
  prefix_rcvd_eor : Z;
  prefix_sent_update : Z;
  prefix_sent_withdraw : Z;
  prefix_sent_eor : Z;
  pending_update : Z;
  pending_withdraw : Z;
  msg_counters : list Z
}.

Record peer_config : Type := mk_peer_config {
  id : Z;
  descr : string;
  down : bool;
  reason : string
}.

Record peer : Type := mk_peer {
  conf : peer_config;
  stats : peer_stats;
  state : session_state;
  template : bool;            (* p->template != NULL *)
  reconf_action : reconf_action_t;
  IdleHoldTime : Z;
  errcnt : Z;
  timers : list (nat * Z)     (* running timers: type and time left *)
}.

(** ** Payloads

    [struct ctl_neighbor]: the selector of a neighbor command.  control.c
    reads [descr], [reason] and [show_timers]; [n_id] is the other
    half of the "descriptor/id match" the matcher of session.c makes. *)
Record ctl_neighbor : Type := mk_ctl_neighbor {
  n_id : Z;
  n_descr : string;
  n_reason : string;
  show_timers : bool
}.

(** [struct ctl_show_rib_request]: control.c reads the embedded
    selector and the address family of the prefix. *)
Record ctl_show_rib_request : Type := mk_ctl_show_rib_request {
  rib_neighbor : ctl_neighbor;
  prefix_aid : Z;
  rib_flags : Z
}.

Record ctl_timer : Type := mk_ctl_timer {
  ct_type : nat;
  ct_val : Z
}.

(** The payload of a message, by the struct it holds. *)
Inductive payload : Type :=
| PNone
| PNeighbor (n : ctl_neighbor)
| PRibReq (r : ctl_show_rib_request)
| PStats (s : rde_peer_stats)
| PPeer (p : peer)
| PTimer (ct : ctl_timer)
| PResult (code : ctl_results)
| PVerbose (v : Z)
| PRaw (bytes : list Z).

(** A decoded message as imsg_get returns it. *)
Record imsg_hdr : Type := mk_imsg_hdr {
  type : imsg_type;
  len : Z;
  peerid : Z;
  pid : Z
}.

Record imsg : Type := mk_imsg {
  hdr : imsg_hdr;
  data : payload
}.

(** A message queued by imsg_compose: type, peerid, pid and payload
    (the length argument is the size of the payload object). *)
Record ctl_msg : Type := mk_ctl_msg {
  m_type : imsg_type;
  m_peerid : Z;
  m_pid : Z;
  m_data : payload
}.

(** ** The interface of the headers and of session.c *)

(** Modelled from the spec: the constants below are defined in bgpd.h,
    session.h and imsg.h and the functions in session.c, outside this
    file; they are parameters of the model.  The functions are taken as
    functions of the peer they are given; what they do outside that
    peer is not modelled.  One fact is assumed of the constants,
    [marks_ordered]: section 4.8 of the specification says the resume
    signal is sent "once the backlog drops below a separate, lower
    watermark". *)
Class Headers : Type := {
  IMSG_HEADER_SIZE : Z;
  sizeof_ctl_neighbor : Z;
  sizeof_ctl_show_rib_request : Z;
  sizeof_rde_peer_stats : Z;
  sizeof_verbose : Z;
  PEER_DESCR_LEN : nat;
  REASON_LEN : nat;
  CTL_MSG_HIGH_MARK : Z;
  CTL_MSG_LOW_MARK : Z;
  AID_UNSPEC : Z;
  Timer_IdleHold : nat;
  Timer_Max : nat;
  INTERVAL_IDLE_HOLD_INITIAL : Z;
  SESSION_CLEAR_DELAY : Z;
  peer_matched : peer -> option ctl_neighbor -> bool;
  bgp_fsm : peer -> session_events -> peer;
  session_stop : peer -> suberr_cease -> peer;
  session_neighbor_rrefresh : peer -> peer * Z;
  timer_running : peer -> nat -> option Z;
  timer_set : peer -> nat -> Z -> peer;
  marks_ordered : CTL_MSG_LOW_MARK < CTL_MSG_HIGH_MARK
}.

(** ** Connections and the surrounding state *)

(** [struct ctl_conn]: [ibuf.fd], [ibuf.pid], the write queue [ibuf.w]
    (its [queued] count is the length of the list) and the flags. *)
Record ctl_conn : Type := mk_ctl_conn {
  ibuf_fd : Z;
  ibuf_pid : Z;
  ibuf_w : list ctl_msg;
  restricted : bool;
  throttled : bool;
  terminate : bool
}.

Definition queued (c : ctl_conn) : Z := Z.of_nat (length (ibuf_w c)).

(** The globals of control.c ([ctl_conns], [pauseaccept]) and what the
    code hands to the outside: the messages queued towards the RDE and
    the parent, the descriptors closed, the log.  [rde_fail] is the
    outcome of the coming calls of imsg_ctl_rde, in order: [true] for a
    call that returns -1; once the list is used up every call
    succeeds. *)
Record world : Type := mk_world {
  ctl_conns : list ctl_conn;
  pauseaccept : Z;
  rde_ctl : list ctl_msg;
  rde_fail : list bool;
  parent_ctl : list ctl_msg;
  closed_fds : list Z;
  syslog : list string;
  verbosity : Z
}.

(** Field updates. *)
Definition set_pid (c : ctl_conn) (p : Z) : ctl_conn :=
  mk_ctl_conn (ibuf_fd c) p (ibuf_w c) (restricted c) (throttled c)
    (terminate c).

Definition set_w (c : ctl_conn) (q : list ctl_msg) : ctl_conn :=
  mk_ctl_conn (ibuf_fd c) (ibuf_pid c) q (restricted c) (throttled c)
    (terminate c).

Definition set_throttled (c : ctl_conn) (b : bool) : ctl_conn :=
  mk_ctl_conn (ibuf_fd c) (ibuf_pid c) (ibuf_w c) (restricted c) b
    (terminate c).

Definition set_terminate (c : ctl_conn) (b : bool) : ctl_conn :=
  mk_ctl_conn (ibuf_fd c) (ibuf_pid c) (ibuf_w c) (restricted c)
    (throttled c) b.

Definition set_conns (e : world) (l : list ctl_conn) : world :=
  mk_world l (pauseaccept e) (rde_ctl e) (rde_fail e) (parent_ctl e)
    (closed_fds e) (syslog e) (verbosity e).

Definition set_pauseaccept (e : world) (t : Z) : world :=
  mk_world (ctl_conns e) t (rde_ctl e) (rde_fail e) (parent_ctl e)
    (closed_fds e) (syslog e) (verbosity e).

Definition set_rde (e : world) (q : list ctl_msg) (f : list bool) : world :=
  mk_world (ctl_conns e) (pauseaccept e) q f (parent_ctl e)
    (closed_fds e) (syslog e) (verbosity e).

Definition set_parent (e : world) (q : list ctl_msg) : world :=
  mk_world (ctl_conns e) (pauseaccept e) (rde_ctl e) (rde_fail e) q
    (closed_fds e) (syslog e) (verbosity e).

Definition close_fd (e : world) (fd : Z) : world :=
  mk_world (ctl_conns e) (pauseaccept e) (rde_ctl e) (rde_fail e)
    (parent_ctl e) (closed_fds e ++ [fd]) (syslog e) (verbosity e).

Definition log_warn (e : world) (s : string) : world :=
  mk_world (ctl_conns e) (pauseaccept e) (rde_ctl e) (rde_fail e)
    (parent_ctl e) (closed_fds e) (syslog e ++ [s]) (verbosity e).

Definition log_setverbose (e : world) (v : Z) : world :=
  mk_world (ctl_conns e) (pauseaccept e) (rde_ctl e) (rde_fail e)
    (parent_ctl e) (closed_fds e) (syslog e) v.

Definition set_conf_down (p : peer) (b : bool) : peer :=
  mk_peer (mk_peer_config (id (conf p)) (descr (conf p)) b (reason (conf p)))
    (stats p) (state p) (template p) (reconf_action p) (IdleHoldTime p)
    (errcnt p) (timers p).

Definition set_conf_reason (p : peer) (r : string) : peer :=
  mk_peer (mk_peer_config (id (conf p)) (descr (conf p)) (down (conf p)) r)
    (stats p) (state p) (template p) (reconf_action p) (IdleHoldTime p)
    (errcnt p) (timers p).

Definition set_IdleHoldTime (p : peer) (t : Z) : peer :=
  mk_peer (conf p) (stats p) (state p) (template p) (reconf_action p) t
    (errcnt p) (timers p).

Definition set_errcnt (p : peer) (n : Z) : peer :=
  mk_peer (conf p) (stats p) (state p) (template p) (reconf_action p)
    (IdleHoldTime p) n (timers p).

Definition set_reconf_action (p : peer) (a : reconf_action_t) : peer :=
  mk_peer (conf p) (stats p) (state p) (template p) a (IdleHoldTime p)
    (errcnt p) (timers p).

Definition set_stats (p : peer) (s : peer_stats) : peer :=
  mk_peer (conf p) s (state p) (template p) (reconf_action p)
    (IdleHoldTime p) (errcnt p) (timers p).

(** ** libutil and session.c primitives *)

(** imsg_compose on a connection's buffer: the message joins the tail
    of the write queue.  An allocation failure inside libutil is not
    modelled: control_result ignores the return value. *)
Definition imsg_compose (c : ctl_conn) (t : imsg_type) (peerid pid : Z)
    (d : payload) : ctl_conn :=
  set_w c (ibuf_w c ++ [mk_ctl_msg t peerid pid d]).

(** imsg_ctl_rde (session.c): hand a message to the RDE over the
    control channel.  The call either queues the message and returns a
    value other than -1, or queues nothing and returns -1. *)
Definition imsg_ctl_rde (e : world) (t : imsg_type) (peerid pid : Z)
    (d : payload) : world * Z :=
  match rde_fail e with
  | true :: rest => (set_rde e (rde_ctl e) rest, -1)
  | false :: rest =>
      (set_rde e (rde_ctl e ++ [mk_ctl_msg t peerid pid d]) rest, 1)
  | [] => (set_rde e (rde_ctl e ++ [mk_ctl_msg t peerid pid d]) [], 1)
  end.

(** imsg_ctl_parent (session.c): hand a message to the parent process.
    control.c never looks at its return value. *)
Definition imsg_ctl_parent (e : world) (t : imsg_type) (peerid pid : Z)
    (d : payload) : world :=
  set_parent e (parent_ctl e ++ [mk_ctl_msg t peerid pid d]).

(** strlcpy(dst, src, size): at most size - 1 characters are copied. *)
Definition strlcpy (src : string) (size : nat) : string :=
  substring 0 (size - 1) src.

(** ** control.c *)

(** control_result *)
Definition control_result (c : ctl_conn) (code : ctl_results) : ctl_conn :=
  imsg_compose c IMSG_CTL_RESULT 0 (ibuf_pid c) (PResult code).

(** control_connbyfd: the first connection with this descriptor. *)
Fixpoint control_connbyfd (fd : Z) (l : list ctl_conn) : option ctl_conn :=
  match l with
  | [] => None
  | c :: rest =>
      if ibuf_fd c =? fd then Some c else control_connbyfd fd rest
  end.

(** control_connbypid: the first connection with this pid. *)
Fixpoint control_connbypid (p : Z) (l : list ctl_conn) : option ctl_conn :=
  match l with
  | [] => None
  | c :: rest =>
      if ibuf_pid c =? p then Some c else control_connbypid p rest
  end.

(** The functions of control.c work on a pointer into the list.  A
    write through the pointer found by descriptor or by pid is a
    replacement of the first entry with that key; TAILQ_REMOVE of it is
    the removal of that entry. *)
Fixpoint conn_store (key : ctl_conn -> bool) (c' : ctl_conn)
    (l : list ctl_conn) : list ctl_conn :=
  match l with
  | [] => []
  | c :: rest => if key c then c' :: rest else c :: conn_store key c' rest
  end.

Fixpoint conn_remove (key : ctl_conn -> bool) (l : list ctl_conn)
    : list ctl_conn :=
  match l with
  | [] => []
  | c :: rest => if key c then rest else c :: conn_remove key rest
  end.

Definition by_fd (fd : Z) (c : ctl_conn) : bool := ibuf_fd c =? fd.
Definition by_pid (p : Z) (c : ctl_conn) : bool := ibuf_pid c =? p.

(** control_close.  [key] selects the list entry [c] points to; [c]
    holds the current fields of the connection.  msgbuf_clear drops the
    write queue, which goes away with the entry. *)
Definition control_close (e : world) (key : ctl_conn -> bool) (c : ctl_conn)
    : world * Z :=
  let e1 :=
    if terminate c && negb (ibuf_pid c =? 0)
    then fst (imsg_ctl_rde e IMSG_CTL_TERMINATE 0 (ibuf_pid c) PNone)
    else e in
  let e2 := set_conns e1 (conn_remove key (ctl_conns e1)) in
  let e3 := close_fd e2 (ibuf_fd c) in
  (set_pauseaccept e3 0, 1).

(** control_fill_pfds *)
Record pollfd : Type := mk_pollfd {
  pfd_fd : Z;
  events : Z;
  revents : Z
}.

Definition POLLIN : Z := 1.
Definition POLLOUT : Z := 4.

(** The loop writes entry i of the caller's array for the i-th
    connection: its fd and events; revents is left alone.  [size] is
    not looked at by the code.  An array shorter than the list of
    connections is written past its end in C; the list model stops at
    the end of the array while the counter goes on. *)
Fixpoint fill_pfds_from (pfd : list pollfd) (conns : list ctl_conn)
    {struct conns} : list pollfd :=
  match conns with
  | [] => pfd
  | c :: rest =>
      match pfd with
      | [] => []
      | p :: ps =>
          let ev := POLLIN in
          let ev := if 0 <? queued c then Z.lor ev POLLOUT else ev in
          mk_pollfd (ibuf_fd c) ev (revents p) :: fill_pfds_from ps rest
      end
  end.

Definition control_fill_pfds (pfd : list pollfd) (size : Z)
    (conns : list ctl_conn) : list pollfd * Z :=
  (fill_pfds_from pfd conns, Z.of_nat (length conns)).

(** control_accept.  The environment supplies the outcome of accept4,
    whether calloc succeeds, the value of getmonotime, and the pid
    imsg_init (libutil) stores in the fresh buffer. *)
Inductive errno_t : Type :=
| ENFILE
| EMFILE
| EWOULDBLOCK
| EINTR
| ECONNABORTED
| EOTHER (n : nat).

Inductive accept_outcome : Type :=
| Accepted (connfd : Z)
| AcceptFailed (e : errno_t).

Definition control_accept (e : world) (restricted : bool)
    (acc : accept_outcome) (calloc_ok : bool) (getmonotime : Z)
    (init_pid : Z) : world * Z :=
  match acc with
  | AcceptFailed err =>
      match err with
      | ENFILE | EMFILE => (set_pauseaccept e getmonotime, 0)
      | EWOULDBLOCK | EINTR | ECONNABORTED => (e, 0)
      | EOTHER _ => (log_warn e "control_accept: accept", 0)
      end
  | Accepted connfd =>
      if calloc_ok
      then (set_conns e
              (ctl_conns e ++
               [mk_ctl_conn connfd init_pid [] restricted false false]), 1)
      else (close_fd (log_warn e "control_accept") connfd, 0)
  end.

Section Control.

Context {H : Headers}.

(** *** Payload views

    imsg_get delivers [len - IMSG_HEADER_SIZE] payload bytes, so a frame
    whose length passes an equality test on the size holds exactly one
    struct of that size.  The three views below are used behind such a
    test; they read the struct, and on a payload of another shape they
    give the all-zero struct. *)
Definition zero_neighbor : ctl_neighbor := mk_ctl_neighbor 0 "" "" false.

Definition neighbor_of (d : payload) : ctl_neighbor :=
  match d with PNeighbor n => n | _ => zero_neighbor end.

Definition ribreq_of (d : payload) : ctl_show_rib_request :=
  match d with
  | PRibReq r => r
  | _ => mk_ctl_show_rib_request zero_neighbor 0 0
  end.

Definition verbose_of (d : payload) : Z :=
  match d with PVerbose v => v | _ => 0 end.

(** memcpy(&stats, imsg->data, sizeof(stats)) in control_imsg_relay.
    The copy takes sizeof(stats) bytes from the payload whatever its
    length, and the test before it refuses longer payloads only.  A
    payload of fewer bytes is read past its end (imsg->data is NULL
    when there is no payload at all): C gives that read no meaning and
    the view gives no result.  A payload of the full size is the
    struct; the view gives no result either where the payload is not
    one. *)
Definition stats_of (m : imsg) : option rde_peer_stats :=
  if len (hdr m) <? IMSG_HEADER_SIZE + sizeof_rde_peer_stats
  then None
  else match data m with PStats s => Some s | _ => None end.

(** neighbor->descr[PEER_DESCR_LEN - 1] = 0 *)
Definition terminate_descr (n : ctl_neighbor) : ctl_neighbor :=
  mk_ctl_neighbor (n_id n) (substring 0 (PEER_DESCR_LEN - 1) (n_descr n))
    (n_reason n) (show_timers n).

Definition RB_EMPTY (peers : list peer) : bool :=
  match peers with [] => true | _ :: _ => false end.

(** *** The restricted-mode filter (first switch of the loop body) *)
Definition restricted_allowed (t : imsg_type) : bool :=
  match t with
  | IMSG_CTL_SHOW_NEIGHBOR
  | IMSG_CTL_SHOW_NEXTHOP
  | IMSG_CTL_SHOW_INTERFACE
  | IMSG_CTL_SHOW_RIB_MEM
  | IMSG_CTL_SHOW_TERSE
  | IMSG_CTL_SHOW_TIMER
  | IMSG_CTL_SHOW_NETWORK
  | IMSG_CTL_SHOW_FLOWSPEC
  | IMSG_CTL_SHOW_RIB
  | IMSG_CTL_SHOW_RIB_PREFIX
  | IMSG_CTL_SHOW_SET
  | IMSG_CTL_SHOW_RTR => true
  | _ => false
  end.

Definition set_type (m : imsg) (t : imsg_type) : imsg :=
  mk_imsg (mk_imsg_hdr t (len (hdr m)) (peerid (hdr m)) (pid (hdr m)))
    (data m).

Definition restricted_filter (c : ctl_conn) (m : imsg) : ctl_conn * imsg :=
  if restricted c
  then if restricted_allowed (type (hdr m))
       then (c, m)
       else (control_result c CTL_RES_DENIED, set_type m IMSG_NONE)
  else (c, m).

(** *** IMSG_CTL_SHOW_TERSE *)
Definition show_terse (c : ctl_conn) (peers : list peer) : ctl_conn :=
  imsg_compose
    (fold_left
       (fun c p => imsg_compose c IMSG_CTL_SHOW_NEIGHBOR 0 0 (PPeer p))
       peers c)
    IMSG_CTL_END 0 0 PNone.

(** *** IMSG_CTL_SHOW_NEIGHBOR *)

(** [!neighbor || !neighbor->show_timers] is the negation of this. *)
Definition wants_timers (neighbor : option ctl_neighbor) : bool :=
  match neighbor with None => false | Some n => show_timers n end.

(** The peer snapshot followed by one message for each running timer,
    for i from 1 below Timer_Max. *)
Definition show_neighbor_timers (c : ctl_conn) (p : peer) : ctl_conn :=
  fold_left
    (fun c i =>
       match timer_running p i with
       | None => c
       | Some d =>
           imsg_compose c IMSG_CTL_SHOW_TIMER 0 0 (PTimer (mk_ctl_timer i d))
       end)
    (seq 1 (Timer_Max - 1))
    (imsg_compose c IMSG_CTL_SHOW_NEIGHBOR 0 0 (PPeer p)).

Fixpoint show_neighbor_loop (neighbor : option ctl_neighbor) (hpid : Z)
    (peers : list peer) (c : ctl_conn) (e : world) (matched : bool)
    : ctl_conn * world * bool :=
  match peers with
  | [] => (c, e, matched)
  | p :: rest =>
      if negb (peer_matched p neighbor)
      then show_neighbor_loop neighbor hpid rest c e matched
      else if negb (wants_timers neighbor)
      then show_neighbor_loop neighbor hpid rest c
             (fst (imsg_ctl_rde e IMSG_CTL_SHOW_NEIGHBOR (id (conf p)) hpid
                     PNone))
             true
      else show_neighbor_loop neighbor hpid rest (show_neighbor_timers c p)
             e true
  end.

Definition show_neighbor (c : ctl_conn) (peers : list peer) (e : world)
    (m : imsg) : ctl_conn * world :=
  let c0 := set_pid c (pid (hdr m)) in
  let neighbor :=
    if len (hdr m) =? IMSG_HEADER_SIZE + sizeof_ctl_neighbor
    then Some (terminate_descr (neighbor_of (data m)))
    else None in
  let '(c1, e1, matched) :=
    show_neighbor_loop neighbor (pid (hdr m)) peers c0 e false in
  if negb matched && RB_EMPTY peers
  then (control_result c1 CTL_RES_NOSUCHPEER, e1)
  else if negb (wants_timers neighbor)
  then (c1, fst (imsg_ctl_rde e1 IMSG_CTL_END 0 (pid (hdr m)) PNone))
  else (imsg_compose c1 IMSG_CTL_END 0 0 PNone, e1).

(** *** IMSG_CTL_NEIGHBOR_UP / DOWN / CLEAR / RREFRESH / DESTROY

    The outer case is entered for these five types only, so the inner switch
    never reaches its default (fatal). *)
Inductive neighbor_cmd : Type :=
| CMD_UP
| CMD_DOWN
| CMD_CLEAR
| CMD_RREFRESH
| CMD_DESTROY.

Definition neighbor_cmd_of (t : imsg_type) : option neighbor_cmd :=
  match t with
  | IMSG_CTL_NEIGHBOR_UP => Some CMD_UP
  | IMSG_CTL_NEIGHBOR_DOWN => Some CMD_DOWN
  | IMSG_CTL_NEIGHBOR_CLEAR => Some CMD_CLEAR
  | IMSG_CTL_NEIGHBOR_RREFRESH => Some CMD_RREFRESH
  | IMSG_CTL_NEIGHBOR_DESTROY => Some CMD_DESTROY
  | _ => None
  end.

(** The inner switch, for one matched peer. *)
Definition control_neighbor (cmd : neighbor_cmd) (neighbor : ctl_neighbor)
    (c : ctl_conn) (p : peer) : ctl_conn * peer :=
  match cmd with
  | CMD_UP =>
      let p1 := bgp_fsm p EVNT_START in
      let p2 := set_conf_down p1 false in
      let p3 := set_conf_reason p2 "" in
      let p4 := set_IdleHoldTime p3 INTERVAL_IDLE_HOLD_INITIAL in
      let p5 := set_errcnt p4 0 in
      (control_result c CTL_RES_OK, p5)
  | CMD_DOWN =>
      let p1 := set_conf_down p true in
      let p2 := set_conf_reason p1 (strlcpy (n_reason neighbor) REASON_LEN) in
      let p3 := session_stop p2 ERR_CEASE_ADMIN_DOWN in
      (control_result c CTL_RES_OK, p3)
  | CMD_CLEAR =>
      let p1 := set_conf_reason p (strlcpy (n_reason neighbor) REASON_LEN) in
      let p2 := set_IdleHoldTime p1 INTERVAL_IDLE_HOLD_INITIAL in
      let p3 := set_errcnt p2 0 in
      let p4 :=
        if negb (down (conf p3))
        then timer_set (session_stop p3 ERR_CEASE_ADMIN_RESET)
               Timer_IdleHold SESSION_CLEAR_DELAY
        else session_stop p3 ERR_CEASE_ADMIN_DOWN in
      (control_result c CTL_RES_OK, p4)
  | CMD_RREFRESH =>
      let (p1, r) := session_neighbor_rrefresh p in
      if negb (r =? 0)
      then (control_result c CTL_RES_NOCAP, p1)
      else (control_result c CTL_RES_OK, p1)
  | CMD_DESTROY =>
      if negb (template p)
      then (control_result c CTL_RES_BADPEER, p)
      else if negb (session_state_is_idle (state p))
      then (control_result c CTL_RES_BADSTATE, p)
      else (control_result c CTL_RES_OK, set_reconf_action p RECONF_DELETE)
  end.

(** RB_FOREACH over the peers; the peers are updated in place. *)
Fixpoint neighbor_loop (cmd : neighbor_cmd) (neighbor : ctl_neighbor)
    (peers : list peer) (c : ctl_conn) (matched : bool)
    : ctl_conn * list peer * bool :=
  match peers with
  | [] => (c, [], matched)
  | p :: rest =>
      if negb (peer_matched p (Some neighbor))
      then
        let '(c', rest', m') := neighbor_loop cmd neighbor rest c matched in
        (c', p :: rest', m')
      else
        let (c1, p1) := control_neighbor cmd neighbor c p in
        let '(c', rest', m') := neighbor_loop cmd neighbor rest c1 true in
        (c', p1 :: rest', m')
  end.

Definition neighbor_command (cmd : neighbor_cmd) (c : ctl_conn)
    (peers : list peer) (e : world) (m : imsg)
    : ctl_conn * list peer * world :=
  if negb (len (hdr m) =? IMSG_HEADER_SIZE + sizeof_ctl_neighbor)
  then (c, peers, log_warn e "got IMSG_CTL_NEIGHBOR_ with wrong length")
  else
    let neighbor := terminate_descr (neighbor_of (data m)) in
    let '(c1, peers1, matched) := neighbor_loop cmd neighbor peers c false in
    if negb matched
    then (control_result c1 CTL_RES_NOSUCHPEER, peers1, e)
    else (c1, peers1, e).

(** *** IMSG_CTL_SHOW_RIB / IMSG_CTL_SHOW_RIB_PREFIX *)
Definition is_rib_prefix (t : imsg_type) : bool :=
  match t with IMSG_CTL_SHOW_RIB_PREFIX => true | _ => false end.

(** The write of the terminating NUL goes into the payload itself, so
    the request is forwarded with the terminated description. *)
Definition store_rib_neighbor (d : payload) (n : ctl_neighbor) : payload :=
  match d with
  | PRibReq r =>
      PRibReq (mk_ctl_show_rib_request n (prefix_aid r) (rib_flags r))
  | _ => d
  end.

Definition show_rib (c : ctl_conn) (peers : list peer) (e : world)
    (m : imsg) : ctl_conn * world :=
  if negb (len (hdr m) =? IMSG_HEADER_SIZE + sizeof_ctl_show_rib_request)
  then (c, log_warn e "got IMSG_CTL_SHOW_RIB with wrong length")
  else
    let ribreq := ribreq_of (data m) in
    let neighbor := terminate_descr (rib_neighbor ribreq) in
    (* check if at least one neighbor exists: after the loop p is NULL
       iff no peer matched *)
    let p_is_null :=
      negb (existsb (fun p => peer_matched p (Some neighbor)) peers) in
    if p_is_null && RB_EMPTY peers
    then (control_result c CTL_RES_NOSUCHPEER, e)
    else if is_rib_prefix (type (hdr m)) && (prefix_aid ribreq =? AID_UNSPEC)
    then (control_result c CTL_RES_PARSE_ERROR, e)
    else
      let c1 := set_terminate (set_pid c (pid (hdr m))) true in
      (c1, fst (imsg_ctl_rde e (type (hdr m)) 0 (pid (hdr m))
                  (store_rib_neighbor (data m) neighbor))).

(** *** The second switch of the loop body *)
Record dstate : Type := mk_dstate {
  d_conn : ctl_conn;
  d_peers : list peer;
  d_env : world
}.

Definition control_handle (st : dstate) (m : imsg) : dstate :=
  let c := d_conn st in
  let peers := d_peers st in
  let e := d_env st in
  let h := hdr m in
  match type h with
  | IMSG_NONE => st
  | IMSG_CTL_FIB_COUPLE
  | IMSG_CTL_FIB_DECOUPLE =>
      mk_dstate c peers (imsg_ctl_parent e (type h) (peerid h) 0 PNone)
  | IMSG_CTL_SHOW_TERSE =>
      mk_dstate (show_terse c peers) peers e
  | IMSG_CTL_SHOW_NEIGHBOR =>
      let (c1, e1) := show_neighbor c peers e m in
      mk_dstate c1 peers e1
  | IMSG_CTL_NEIGHBOR_UP
  | IMSG_CTL_NEIGHBOR_DOWN
  | IMSG_CTL_NEIGHBOR_CLEAR
  | IMSG_CTL_NEIGHBOR_RREFRESH
  | IMSG_CTL_NEIGHBOR_DESTROY =>
      match neighbor_cmd_of (type h) with
      | Some cmd =>
          let '(c1, peers1, e1) := neighbor_command cmd c peers e m in
          mk_dstate c1 peers1 e1
      | None => st
      end
  | IMSG_CTL_RELOAD
  | IMSG_CTL_SHOW_INTERFACE
  | IMSG_CTL_SHOW_FIB_TABLES
  | IMSG_CTL_SHOW_RTR =>
      mk_dstate (set_pid c (pid h)) peers
        (imsg_ctl_parent e (type h) 0 (pid h) (data m))
  | IMSG_CTL_KROUTE
  | IMSG_CTL_KROUTE_ADDR
  | IMSG_CTL_SHOW_NEXTHOP =>
      mk_dstate (set_pid c (pid h)) peers
        (imsg_ctl_parent e (type h) (peerid h) (pid h) (data m))
  | IMSG_CTL_SHOW_RIB
  | IMSG_CTL_SHOW_RIB_PREFIX =>
      let (c1, e1) := show_rib c peers e m in
      mk_dstate c1 peers e1
  | IMSG_CTL_SHOW_NETWORK
  | IMSG_CTL_SHOW_FLOWSPEC =>
      mk_dstate (set_pid (set_terminate c true) (pid h)) peers
        (fst (imsg_ctl_rde e (type h) 0 (pid h) (data m)))
  | IMSG_CTL_SHOW_RIB_MEM
  | IMSG_CTL_SHOW_SET =>
      mk_dstate (set_pid c (pid h)) peers
        (fst (imsg_ctl_rde e (type h) 0 (pid h) (data m)))
  | IMSG_NETWORK_ADD
  | IMSG_NETWORK_ASPATH
  | IMSG_NETWORK_ATTR
  | IMSG_NETWORK_REMOVE
  | IMSG_NETWORK_FLUSH
  | IMSG_NETWORK_DONE
  | IMSG_FLOWSPEC_ADD
  | IMSG_FLOWSPEC_REMOVE
  | IMSG_FLOWSPEC_DONE
  | IMSG_FLOWSPEC_FLUSH
  | IMSG_FILTER_SET =>
      mk_dstate c peers (fst (imsg_ctl_rde e (type h) 0 0 (data m)))
  | IMSG_CTL_LOG_VERBOSE =>
      if negb (len h =? IMSG_HEADER_SIZE + sizeof_verbose)
      then st
      else
        let e1 := imsg_ctl_parent e (type h) 0 (pid h) (data m) in
        let e2 := fst (imsg_ctl_rde e1 (type h) 0 (pid h) (data m)) in
        mk_dstate c peers (log_setverbose e2 (verbose_of (data m)))
  | _ => st
  end.

(** One pass of the body of the for loop, for one decoded message. *)
Definition control_dispatch_imsg (st : dstate) (m : imsg) : dstate :=
  let (c1, m1) := restricted_filter (d_conn st) m in
  control_handle (mk_dstate c1 (d_peers st) (d_env st)) m1.

(** *** control_dispatch_msg

    The environment supplies the outcome of msgbuf_write, the results
    of the successive recv calls, and what imsg_get then finds in the
    read buffer: a list of complete messages, ended by 0 (no further
    complete message) or by -1 (a corrupt header). *)
Inductive msgbuf_write_outcome : Type :=
| MsgbufWritten (n : nat)   (* > 0: the first n queued messages left *)
| MsgbufAgain               (* <= 0 with errno EAGAIN *)
| MsgbufFailed.             (* <= 0 with another errno *)

Inductive recv_outcome : Type :=
| Recv (n : Z)
| RecvFailed (e : errno_t).

Record io_script : Type := mk_io_script {
  wr : msgbuf_write_outcome;
  recvs : list recv_outcome;
  frames : list imsg;
  frames_corrupt : bool
}.

(** imsg_read_nofd: recv is retried while it fails with EINTR.  The
    result is the byte count (0 at end of file), or -1 with the errno.
    A script that runs out stands for a closed peer. *)
Fixpoint imsg_read_nofd (script : list recv_outcome) : Z * option errno_t :=
  match script with
  | [] => (0, None)
  | Recv n :: _ => (n, None)
  | RecvFailed EINTR :: rest => imsg_read_nofd rest
  | RecvFailed e :: _ => (-1, Some e)
  end.

(** EAGAIN and EWOULDBLOCK are the same errno. *)
Definition is_EAGAIN (e : option errno_t) : bool :=
  match e with Some EWOULDBLOCK => true | _ => false end.

(** The POLLOUT block.  [None]: the write failed and the connection is
    to be closed. *)
Definition dispatch_pollout (e : world) (c : ctl_conn) (revents : Z)
    (w : msgbuf_write_outcome) : option (world * ctl_conn) :=
  if Z.land revents POLLOUT =? 0
  then Some (e, c)
  else
    match w with
    | MsgbufFailed => None
    | _ =>
        let c1 :=
          match w with
          | MsgbufWritten n => set_w c (skipn n (ibuf_w c))
          | _ => c
          end in
        if throttled c1 && (queued c1 <? CTL_MSG_LOW_MARK)
        then
          let (e1, r) := imsg_ctl_rde e IMSG_XON 0 (ibuf_pid c1) PNone in
          if negb (r =? -1)
          then Some (e1, set_throttled c1 false)
          else Some (e1, c1)
        else Some (e, c1)
    end.

Definition dispatch_loop (st : dstate) (fs : list imsg) : dstate :=
  fold_left control_dispatch_imsg fs st.

(** Store the fields of [c] back into the list entry. *)
Definition commit (e : world) (key : ctl_conn -> bool) (c : ctl_conn)
    : world :=
  set_conns e (conn_store key c (ctl_conns e)).

Definition control_dispatch_msg (e : world) (pfd : pollfd)
    (peers : list peer) (io : io_script) : world * list peer * Z :=
  match control_connbyfd (pfd_fd pfd) (ctl_conns e) with
  | None => (log_warn e "control_dispatch_msg: fd not found", peers, 0)
  | Some c =>
      let key := by_fd (pfd_fd pfd) in
      match dispatch_pollout e c (revents pfd) (wr io) with
      | None =>
          let (e', r) := control_close e key c in (e', peers, r)
      | Some (e1, c1) =>
          if Z.land (revents pfd) POLLIN =? 0
          then (commit e1 key c1, peers, 0)
          else
            let (n, err) := imsg_read_nofd (recvs io) in
            if ((n =? -1) && negb (is_EAGAIN err)) || (n =? 0)
            then
              let (e', r) := control_close e1 key c1 in (e', peers, r)
            else
              let st := dispatch_loop (mk_dstate c1 peers e1) (frames io) in
              if frames_corrupt io
              then
                let (e', r) := control_close (d_env st) key (d_conn st) in
                (e', d_peers st, r)
              else (commit (d_env st) key (d_conn st), d_peers st, 0)
      end
  end.

(** *** control_imsg_relay

    [p] is the peer the caller resolved from the reply's peerid, or
    NULL; the peer comes back with its statistics updated.  The result
    is [None] where the copy of the statistics has no defined
    behaviour ([stats_of]); nothing has been changed or logged by
    then. *)
Definition merge_stats (p : peer) (s : rde_peer_stats) : peer :=
  set_stats p
    (mk_peer_stats (r_prefix_cnt s) (r_prefix_out_cnt s)
       (r_prefix_rcvd_update s) (r_prefix_rcvd_withdraw s)
       (r_prefix_rcvd_eor s) (r_prefix_sent_update s)
       (r_prefix_sent_withdraw s) (r_prefix_sent_eor s)
       (r_pending_update s) (r_pending_withdraw s)
       (msg_counters (stats p))).

Definition is_show_neighbor (t : imsg_type) : bool :=
  match t with IMSG_CTL_SHOW_NEIGHBOR => true | _ => false end.

Definition is_end_or_result (t : imsg_type) : bool :=
  match t with IMSG_CTL_END | IMSG_CTL_RESULT => true | _ => false end.

Definition control_imsg_relay (e : world) (m : imsg) (p : option peer)
    : option (world * option peer * Z) :=
  let h := hdr m in
  match control_connbypid (pid h) (ctl_conns e) with
  | None => Some (e, p, 0)
  | Some c =>
      let key := by_pid (pid h) in
      if is_show_neighbor (type h)
      then
        if len h >? IMSG_HEADER_SIZE + sizeof_rde_peer_stats
        then Some (log_warn e "wrong imsg len", p, 0)
        else
          match p with
          | None => Some (log_warn e "no such peer", None, 0)
          | Some p0 =>
              match stats_of m with
              | None => None
              | Some stats =>
                  let p1 := merge_stats p0 stats in
                  Some
                    (commit e key
                       (imsg_compose c (type h) 0 (pid h) (PPeer p1)),
                     Some p1, 1)
              end
          end
      else
        let c1 := if is_end_or_result (type h)
                  then set_terminate c false else c in
        let (e2, c2) :=
          if negb (throttled c1) && (queued c1 >? CTL_MSG_HIGH_MARK)
          then
            let (e1, r) := imsg_ctl_rde e IMSG_XOFF 0 (pid h) PNone in
            if negb (r =? -1)
            then (e1, set_throttled c1 true)
            else (e1, c1)
          else (e, c1) in
        Some
          (commit e2 key (imsg_compose c2 (type h) 0 (pid h) (data m)), p, 1)
  end.

End Control.

(** ** Notions used in the statements *)

(** The read-only types a restricted connection may send. *)
Definition readonly_allowlist : list imsg_type :=
  [ IMSG_CTL_SHOW_NEIGHBOR; IMSG_CTL_SHOW_NEXTHOP; IMSG_CTL_SHOW_INTERFACE;
    IMSG_CTL_SHOW_RIB_MEM; IMSG_CTL_SHOW_TERSE; IMSG_CTL_SHOW_TIMER;
    IMSG_CTL_SHOW_NETWORK; IMSG_CTL_SHOW_FLOWSPEC; IMSG_CTL_SHOW_RIB;
    IMSG_CTL_SHOW_RIB_PREFIX; IMSG_CTL_SHOW_SET; IMSG_CTL_SHOW_RTR ].

(** The reply control_result queues on a connection whose pid is [p]. *)
Definition result_msg (p : Z) (code : ctl_results) : ctl_msg :=
  mk_ctl_msg IMSG_CTL_RESULT 0 p (PResult code).

(** The outcome of destroy for one matched peer, as the specification
    words it: bad-peer unless template-derived, bad-state unless idle,
    else OK. *)
Definition destroy_result (p : peer) : ctl_results :=
  if negb (template p) then CTL_RES_BADPEER
  else match state p with
       | STATE_IDLE => CTL_RES_OK
       | STATE_OTHER _ => CTL_RES_BADSTATE
       end.

(** The peer after destroy: flagged for removal iff the result is OK. *)
Definition destroy_mark (p : peer) : peer :=
  match destroy_result p with
  | CTL_RES_OK => set_reconf_action p RECONF_DELETE
  | _ => p
  end.

(** A per-peer result of a neighbor command: a result message whose
    code is not no-such-peer. *)
Definition per_peer_result (m : ctl_msg) : Prop :=
  exists code,
    m = result_msg (m_pid m) code /\
    (code = CTL_RES_OK \/ code = CTL_RES_NOCAP \/
     code = CTL_RES_BADPEER \/ code = CTL_RES_BADSTATE).

(** Whether the next call of imsg_ctl_rde hands its message over. *)
Definition send_ok (e : world) : bool :=
  match rde_fail e with
  | true :: _ => false
  | _ => true
  end.

(** The flow-control signals. *)
Definition flow_signal (t : imsg_type) : bool :=
  match t with IMSG_XON | IMSG_XOFF => true | _ => false end.

(** The condition under which the relay attempts an XOFF. *)
Definition xoff_due {H : Headers} (c : ctl_conn) : bool :=
  negb (throttled c) && (queued c >? CTL_MSG_HIGH_MARK).

(** The connection after msgbuf_write, and the condition under which
    the POLLOUT block of the dispatcher attempts an XON. *)
Definition after_write (c : ctl_conn) (w : msgbuf_write_outcome) : ctl_conn :=
  match w with
  | MsgbufWritten n => set_w c (skipn n (ibuf_w c))
  | _ => c
  end.

Definition write_failed (w : msgbuf_write_outcome) : bool :=
  match w with MsgbufFailed => true | _ => false end.

Definition xon_due {H : Headers} (c : ctl_conn) (revents : Z)
    (w : msgbuf_write_outcome) : bool :=
  negb (Z.land revents POLLOUT =? 0) && negb (write_failed w) &&
  throttled c && (queued (after_write c w) <? CTL_MSG_LOW_MARK).

(** A step that leaves the list of connections alone and hands the RDE
    only messages that are no flow-control signal. *)
Definition no_signal (m : ctl_msg) : Prop := flow_signal (m_type m) = false.

Definition rde_quiet (e e' : world) : Prop :=
  ctl_conns e' = ctl_conns e /\
  exists l, rde_ctl e' = rde_ctl e ++ l /\ Forall no_signal l.

(** A step on a connection that keeps its descriptor and its throttled
    flag. *)
Definition same_flow (c c' : ctl_conn) : Prop :=
  throttled c' = throttled c /\ ibuf_fd c' = ibuf_fd c.

(** ** A concrete instance *)

(** Modelled from the spec: peer_matched is a function of session.c.
    Section 4.6 of the specification describes the selection as "a
    descriptor/id match against the peer collection", where "an
    empty/absent selector matches all peers". *)
Definition peer_matched_spec (p : peer) (n : option ctl_neighbor) : bool :=
  match n with
  | None => true
  | Some n =>
      if negb (n_id n =? 0) then id (conf p) =? n_id n
      else match n_descr n with
           | EmptyString => true
           | d => String.eqb (descr (conf p)) d
           end
  end.

Definition set_state (p : peer) (s : session_state) : peer :=
  mk_peer (conf p) (stats p) s (template p) (reconf_action p)
    (IdleHoldTime p) (errcnt p) (timers p).

Definition set_timers (p : peer) (t : list (nat * Z)) : peer :=
  mk_peer (conf p) (stats p) (state p) (template p) (reconf_action p)
    (IdleHoldTime p) (errcnt p) t.

Fixpoint timer_lookup (t : list (nat * Z)) (i : nat) : option Z :=
  match t with
  | [] => None
  | (j, d) :: rest => if Nat.eqb i j then Some d else timer_lookup rest i
  end.

(** One choice of the constants of bgpd.h and session.h and a small
    session engine, for running the model on concrete inputs: a start
    event moves an idle peer on, a stop returns it to idle, a refresh is
    only possible outside idle. *)
Definition session_h : Headers :=
  {| IMSG_HEADER_SIZE := 16;
     sizeof_ctl_neighbor := 224;
     sizeof_ctl_show_rib_request := 512;
     sizeof_rde_peer_stats := 80;
     sizeof_verbose := 4;
     PEER_DESCR_LEN := 64%nat;
     REASON_LEN := 128%nat;
     CTL_MSG_HIGH_MARK := 500;
     CTL_MSG_LOW_MARK := 100;
     AID_UNSPEC := 0;
     Timer_IdleHold := 4%nat;
     Timer_Max := 12%nat;
     INTERVAL_IDLE_HOLD_INITIAL := 30;
     SESSION_CLEAR_DELAY := 5;
     peer_matched := peer_matched_spec;
     bgp_fsm := fun p _ =>
       if session_state_is_idle (state p)
       then set_state p (STATE_OTHER 1) else p;
     session_stop := fun p _ => set_state p STATE_IDLE;
     session_neighbor_rrefresh := fun p =>
       (p, if session_state_is_idle (state p) then 1 else 0);
     timer_running := fun p i => timer_lookup (timers p) i;
     timer_set := fun p i v => set_timers p ((i, v) :: timers p);
     marks_ordered := eq_refl |}.

(** Sample peers, connections and messages. *)
Definition no_stats : peer_stats := mk_peer_stats 0 0 0 0 0 0 0 0 0 0 [].

Definition peer_static : peer :=
  mk_peer (mk_peer_config 1 "upstream" false "") no_stats (STATE_OTHER 6)
    false (RECONF_OTHER 0) 30 0 [(1%nat, 20)].

Definition peer_cloned_idle : peer :=
  mk_peer (mk_peer_config 2 "cloned-a" false "") no_stats STATE_IDLE
    true (RECONF_OTHER 0) 30 0 [].

Definition peer_cloned_up : peer :=
  mk_peer (mk_peer_config 3 "cloned-b" false "") no_stats (STATE_OTHER 6)
    true (RECONF_OTHER 0) 30 0 [].

Definition sample_peers : list peer :=
  [peer_static; peer_cloned_idle; peer_cloned_up].

Definition conn_open : ctl_conn := mk_ctl_conn 7 0 [] false false false.
Definition conn_restricted : ctl_conn := mk_ctl_conn 8 0 [] true false false.

Definition world_idle (l : list ctl_conn) : world :=
  mk_world l 0 [] [] [] [] [] 0.

Definition select_all : ctl_neighbor := mk_ctl_neighbor 0 "" "" false.
Definition select_absent : ctl_neighbor :=
  mk_ctl_neighbor 0 "nobody" "" false.

Definition neighbor_msg (t : imsg_type) (n : ctl_neighbor) : imsg :=
  mk_imsg (mk_imsg_hdr t (16 + 224) 0 4242) (PNeighbor n).

Definition rib_msg (t : imsg_type) (n : ctl_neighbor) (aid : Z) : imsg :=
  mk_imsg (mk_imsg_hdr t (16 + 512) 0 4242)
    (PRibReq (mk_ctl_show_rib_request n aid 0)).

Definition st_sample : dstate :=
  mk_dstate conn_open sample_peers (world_idle [conn_open]).

Definition st_no_peers : dstate :=
  mk_dstate conn_open [] (world_idle [conn_open]).

(** A connection with a bulk reply in flight. *)
Definition conn_bulk : ctl_conn :=
  mk_ctl_conn 9 4242 [mk_ctl_msg IMSG_CTL_SHOW_RIB 0 4242 (PRaw [1; 2; 3])]
    false false true.

(** A connection with a backlog above the high mark, a throttled
    connection with one message left to write, and replies of the RDE
    for their pid. *)
Definition conn_backlog : ctl_conn :=
  mk_ctl_conn 9 4242
    (repeat (mk_ctl_msg IMSG_CTL_SHOW_RIB 0 4242 (PRaw [0])) 501)
    false false true.

Definition conn_throttled : ctl_conn :=
  mk_ctl_conn 9 4242 [mk_ctl_msg IMSG_CTL_SHOW_RIB 0 4242 (PRaw [0])]
    false true true.

Definition reply_rib : imsg :=
  mk_imsg (mk_imsg_hdr IMSG_CTL_SHOW_RIB (16 + 1) 0 4242) (PRaw [0]).

Definition sample_stats : rde_peer_stats :=
  mk_rde_peer_stats 10 9 8 7 6 5 4 3 2 1.

Definition reply_neighbor : imsg :=
  mk_imsg (mk_imsg_hdr IMSG_CTL_SHOW_NEIGHBOR (16 + 80) 1 4242)
    (PStats sample_stats).

Definition reply_neighbor_long : imsg :=
  mk_imsg (mk_imsg_hdr IMSG_CTL_SHOW_NEIGHBOR (16 + 81) 1 4242)
    (PRaw (repeat 0 81)).

Definition pfd_writable : pollfd := mk_pollfd 9 (Z.lor POLLIN POLLOUT) POLLOUT.

Definition io_drained : io_script :=
  mk_io_script (MsgbufWritten 1) [] [] false.

Definition st_restricted : dstate :=
  mk_dstate conn_restricted sample_peers (world_idle [conn_restricted]).

(** ** Socket set-up: control_check, control_init, control_listen

    The process state these functions touch: the file creation mask,
    the system calls made so far, and the log.  The environment
    supplies what socket, connect, unlink, bind, chmod and listen
    return. *)
Inductive sys_call : Type :=
| SysClose (fd : Z)
| SysConnect (fd : Z) (path : string)
| SysUnlink (path : string)
| SysUmask (mask : Z)
| SysBind (fd : Z) (path : string)
| SysChmod (path : string) (mode : Z)
| SysListen (fd : Z) (backlog : Z).

Record proc : Type := mk_proc {
  umask_cur : Z;
  calls : list sys_call;
  plog : list string
}.

Definition sys (pr : proc) (c : sys_call) : proc :=
  mk_proc (umask_cur pr) (calls pr ++ [c]) (plog pr).

Definition plog_warn (pr : proc) (s : string) : proc :=
  mk_proc (umask_cur pr) (calls pr) (plog pr ++ [s]).



Definition CONTROL_BACKLOG : Z := 5.

(** control_check *)
Definition control_check (pr : proc) (path : string) (socket : option Z)
    (connect_ok : bool) : proc * Z :=
  match socket with
  | None => (plog_warn pr "control_check: socket", -1)
  | Some fd =>
      let pr1 := sys pr (SysConnect fd path) in
      if connect_ok
      then (sys (plog_warn pr1 "control socket already in use") (SysClose fd),
            -1)
      else (sys pr1 (SysClose fd), 0)
  end.




(** control_listen and control_shutdown *)
Definition control_listen (pr : proc) (fd : Z) (listen_ok : bool)
    : proc * Z :=
  if negb (fd =? -1)
  then
    let pr1 := sys pr (SysListen fd CONTROL_BACKLOG) in
    if negb listen_ok
    then (plog_warn pr1 "control_listen: listen", -1)
    else (pr1, 0)
  else (pr, 0).

Definition control_shutdown (pr : proc) (fd : Z) : proc :=
  sys pr (SysClose fd).

(** ** Further notions used in the statements *)


Definition is_umask (c : sys_call) : bool :=
  match c with SysUmask _ => true | _ => false end.


(** The messages a neighbor-show request with timer detail queues for
    one peer after the snapshot: one per running timer, by type. *)
Definition timer_msgs {H : Headers} (p : peer) : list ctl_msg :=
  flat_map
    (fun i =>
       match timer_running p i with
       | None => []
       | Some d =>
           [mk_ctl_msg IMSG_CTL_SHOW_TIMER 0 0 (PTimer (mk_ctl_timer i d))]
       end)
    (seq 1 (Timer_Max - 1)).

(** What a restricted connection may cause to be handed to a backend:
    a message of an allowlisted type or the end marker. *)
Definition readonly_msg (m : ctl_msg) : Prop :=
  restricted_allowed (m_type m) = true \/ m_type m = IMSG_CTL_END.

(** The condition under which the dispatcher closes the connection it
    serves. *)
Definition read_closes (io : io_script) : bool :=
  let (n, err) := imsg_read_nofd (recvs io) in
  ((n =? -1) && negb (is_EAGAIN err)) || (n =? 0).

Definition dispatch_closes (revents : Z) (io : io_script) : bool :=
  (negb (Z.land revents POLLOUT =? 0) && write_failed (wr io)) ||
  (negb (Z.land revents POLLIN =? 0) &&
   (read_closes io || frames_corrupt io)).

(** The types whose handler records the sender's pid and passes the
    payload on to one backend without further checks. *)
Definition stamps_pid (t : imsg_type) : bool :=
  match t with
  | IMSG_CTL_RELOAD | IMSG_CTL_SHOW_INTERFACE | IMSG_CTL_SHOW_FIB_TABLES
  | IMSG_CTL_SHOW_RTR | IMSG_CTL_KROUTE | IMSG_CTL_KROUTE_ADDR
  | IMSG_CTL_SHOW_NEXTHOP | IMSG_CTL_SHOW_NETWORK | IMSG_CTL_SHOW_FLOWSPEC
  | IMSG_CTL_SHOW_RIB_MEM | IMSG_CTL_SHOW_SET => true
  | _ => false
  end.

(** Among them, the types whose handler calls imsg_ctl_parent; the
    handler of the others calls imsg_ctl_rde. *)
Definition parent_request (t : imsg_type) : bool :=
  match t with
  | IMSG_CTL_RELOAD | IMSG_CTL_SHOW_INTERFACE | IMSG_CTL_SHOW_FIB_TABLES
  | IMSG_CTL_SHOW_RTR | IMSG_CTL_KROUTE | IMSG_CTL_KROUTE_ADDR
  | IMSG_CTL_SHOW_NEXTHOP => true
  | _ => false
  end.

(** The network, flowspec and filter-set updates. *)
Definition rib_update (t : imsg_type) : bool :=
  match t with
  | IMSG_NETWORK_ADD | IMSG_NETWORK_ASPATH | IMSG_NETWORK_ATTR
  | IMSG_NETWORK_REMOVE | IMSG_NETWORK_FLUSH | IMSG_NETWORK_DONE
  | IMSG_FLOWSPEC_ADD | IMSG_FLOWSPEC_REMOVE | IMSG_FLOWSPEC_DONE
  | IMSG_FLOWSPEC_FLUSH | IMSG_FILTER_SET => true
  | _ => false
  end.

(** The types the second switch has no case for among those control.c
    names: they fall to the default. *)
Definition internal_type (t : imsg_type) : bool :=
  match t with
  | IMSG_CTL_END | IMSG_CTL_RESULT | IMSG_CTL_SHOW_TIMER
  | IMSG_CTL_TERMINATE | IMSG_XON | IMSG_XOFF | IMSG_OTHER _ => true
  | _ => false
  end.

(** A step that only appends to the queues towards the backends and
    to the log, and leaves the list of connections, pauseaccept and the
    closed descriptors alone. *)
Definition env_extends (e e' : world) : Prop :=
  ctl_conns e' = ctl_conns e /\ pauseaccept e' = pauseaccept e /\
  closed_fds e' = closed_fds e /\
  (exists l, rde_ctl e' = rde_ctl e ++ l) /\
  (exists l, parent_ctl e' = parent_ctl e ++ l) /\
  (exists l, syslog e' = syslog e ++ l).

(** A step on a connection that only appends to its write queue and
    keeps its descriptor, its privilege and its throttled flag. *)
Definition conn_extends (c c' : ctl_conn) : Prop :=
  ibuf_fd c' = ibuf_fd c /\ restricted c' = restricted c /\
  throttled c' = throttled c /\
  exists l, ibuf_w c' = ibuf_w c ++ l.

(** A step that changes nothing a read-only client must not change:
    the log verbosity stays, and the backends are handed only read-only
    messages. *)
Definition readonly_step (e e' : world) : Prop :=
  verbosity e' = verbosity e /\
  (exists l, rde_ctl e' = rde_ctl e ++ l /\ Forall readonly_msg l) /\
  (exists l, parent_ctl e' = parent_ctl e ++ l /\ Forall readonly_msg l).

(** The selector a neighbor-show request carries: the payload if the
    length is that of a selector, none otherwise. *)
Definition show_selector {H : Headers} (m : imsg) : option ctl_neighbor :=
  if len (hdr m) =? IMSG_HEADER_SIZE + sizeof_ctl_neighbor
  then Some (terminate_descr (neighbor_of (data m)))
  else None.

(** A neighbor command, a rib request or a log-verbosity request whose
    length is not the one its handler expects. *)
Definition wrong_length {H : Headers} (m : imsg) : bool :=
  match type (hdr m) with
  | IMSG_CTL_NEIGHBOR_UP | IMSG_CTL_NEIGHBOR_DOWN | IMSG_CTL_NEIGHBOR_CLEAR
  | IMSG_CTL_NEIGHBOR_RREFRESH | IMSG_CTL_NEIGHBOR_DESTROY =>
      negb (len (hdr m) =? IMSG_HEADER_SIZE + sizeof_ctl_neighbor)
  | IMSG_CTL_SHOW_RIB | IMSG_CTL_SHOW_RIB_PREFIX =>
      negb (len (hdr m) =? IMSG_HEADER_SIZE + sizeof_ctl_show_rib_request)
  | IMSG_CTL_LOG_VERBOSE =>
      negb (len (hdr m) =? IMSG_HEADER_SIZE + sizeof_verbose)
  | _ => false
  end.




Definition pfd_array : list pollfd :=
  [mk_pollfd (-1) 0 0; mk_pollfd (-1) 0 7; mk_pollfd 99 1 0].

Definition world_two : world := world_idle [conn_open; conn_bulk].

Definition pfd_readable (fd : Z) : pollfd := mk_pollfd fd POLLIN POLLIN.

Definition io_frames (fs : list imsg) : io_script :=
  mk_io_script MsgbufAgain [RecvFailed EINTR; Recv 64] fs false.

Definition io_eof : io_script := mk_io_script MsgbufAgain [Recv 0] [] false.

Definition select_timers : ctl_neighbor := mk_ctl_neighbor 1 "" "" true.

Definition rib_mem_request : imsg :=
  mk_imsg (mk_imsg_hdr IMSG_CTL_SHOW_RIB_MEM 16 0 777) PNone.

Definition rib_mem_reply : imsg :=
  mk_imsg (mk_imsg_hdr IMSG_CTL_SHOW_RIB_MEM 17 0 777) (PRaw [1]).

Definition end_reply : imsg :=
  mk_imsg (mk_imsg_hdr IMSG_CTL_END 16 0 4242) PNone.

Definition network_request : imsg :=
  mk_imsg (mk_imsg_hdr IMSG_CTL_SHOW_NETWORK 16 0 777) PNone.

Definition short_neighbor_cmd : imsg :=
  mk_imsg (mk_imsg_hdr IMSG_CTL_NEIGHBOR_DOWN 17 0 777) (PRaw [1]).

Definition reload_request : imsg :=
  mk_imsg (mk_imsg_hdr IMSG_CTL_RELOAD 16 5 777) PNone.

Definition kroute_request : imsg :=
  mk_imsg (mk_imsg_hdr IMSG_CTL_KROUTE 20 5 777) (PRaw [2; 0; 0; 0]).

Definition network_update : imsg :=
  mk_imsg (mk_imsg_hdr IMSG_NETWORK_ADD 20 5 777) (PRaw [10; 0; 0; 8]).

(** A neighbor-show reply of the RDE with no payload. *)
Definition reply_neighbor_short : imsg :=
  mk_imsg (mk_imsg_hdr IMSG_CTL_SHOW_NEIGHBOR 16 1 4242) PNone.

(** * Properties *)

Section Properties.

Context {H : Headers}.

(** ** Basic facts about the queues *)

Lemma control_result_w (c : ctl_conn) (code : ctl_results) :
  ibuf_w (control_result c code) = ibuf_w c ++ [result_msg (ibuf_pid c) code].
Proof. reflexivity. Qed.

Lemma imsg_ctl_rde_queue (e : world) (t : imsg_type) (peerid p : Z)
    (d : payload) :
  rde_ctl (fst (imsg_ctl_rde e t peerid p d)) =
  rde_ctl e ++ (if send_ok e then [mk_ctl_msg t peerid p d] else []).
Proof.
  unfold imsg_ctl_rde, send_ok.
  destruct (rde_fail e) as [|[|] rest]; simpl; auto using app_nil_r.
Qed.

Lemma imsg_ctl_rde_ret (e : world) (t : imsg_type) (peerid p : Z)
    (d : payload) :
  negb (snd (imsg_ctl_rde e t peerid p d) =? -1) = send_ok e.
Proof.
  unfold imsg_ctl_rde, send_ok.
  destruct (rde_fail e) as [|[|] rest]; reflexivity.
Qed.

Lemma imsg_ctl_rde_frame (e : world) (t : imsg_type) (peerid p : Z)
    (d : payload) :
  let e' := fst (imsg_ctl_rde e t peerid p d) in
  ctl_conns e' = ctl_conns e /\ pauseaccept e' = pauseaccept e /\
  parent_ctl e' = parent_ctl e /\ closed_fds e' = closed_fds e /\
  syslog e' = syslog e /\ verbosity e' = verbosity e.
Proof.
  unfold imsg_ctl_rde.
  destruct (rde_fail e) as [|[|] rest]; simpl; repeat split.
Qed.

(** ** The restricted-mode filter *)

Lemma restricted_allowed_iff (t : imsg_type) :
  restricted_allowed t = true <-> In t readonly_allowlist.
Proof.
  unfold readonly_allowlist; split.
  - destruct t; simpl; intro E; try discriminate E; tauto.
  - destruct t; simpl; try reflexivity; intro HIn; exfalso;
      intuition discriminate.
Qed.

(** C2.  On a restricted connection a message whose type is outside the
    read-only allowlist has its type rewritten to IMSG_NONE by the
    filter, which appends exactly one "denied" result, carrying the
    pid recorded on the connection, to the connection's write queue;
    after the whole pass of the loop body the queue holds that one
    message more and nothing else of the connection has changed, and
    the peers and the surrounding state (the queues towards the RDE and
    the parent among them) are as they were. *)
Theorem restricted_denied (st : dstate) (m : imsg) :
  restricted (d_conn st) = true ->
  ~ In (type (hdr m)) readonly_allowlist ->
  let st' := control_dispatch_imsg st m in
  type (hdr (snd (restricted_filter (d_conn st) m))) = IMSG_NONE /\
  ibuf_w (fst (restricted_filter (d_conn st) m)) =
    ibuf_w (d_conn st) ++
    [mk_ctl_msg IMSG_CTL_RESULT 0 (ibuf_pid (d_conn st))
       (PResult CTL_RES_DENIED)] /\
  ibuf_w (d_conn st') =
    ibuf_w (d_conn st) ++
    [mk_ctl_msg IMSG_CTL_RESULT 0 (ibuf_pid (d_conn st))
       (PResult CTL_RES_DENIED)] /\
  ibuf_fd (d_conn st') = ibuf_fd (d_conn st) /\
  ibuf_pid (d_conn st') = ibuf_pid (d_conn st) /\
  restricted (d_conn st') = restricted (d_conn st) /\
  throttled (d_conn st') = throttled (d_conn st) /\
  terminate (d_conn st') = terminate (d_conn st) /\
  d_peers st' = d_peers st /\
  rde_ctl (d_env st') = rde_ctl (d_env st) /\
  parent_ctl (d_env st') = parent_ctl (d_env st) /\
  d_env st' = d_env st.
Proof.
  intros Hr Hout st'. subst st'.
  assert (Hf : restricted_allowed (type (hdr m)) = false).
  { destruct (restricted_allowed (type (hdr m))) eqn:E; [|reflexivity].
    apply restricted_allowed_iff in E. contradiction. }
  unfold control_dispatch_imsg, restricted_filter.
  rewrite Hr, Hf. simpl. repeat split. exact Hr.
Qed.

(** ** Accept *)

(** C8.  A failed accept with EINTR, EWOULDBLOCK or ECONNABORTED
    returns 0 and leaves the whole state as it was; with ENFILE or
    EMFILE it returns 0, creates no connection and stores the clock
    reading in pauseaccept; closing any connection puts pauseaccept
    back to 0. *)
Theorem accept_pause_policy (e : world) (restr calloc_ok : bool)
    (now init_pid : Z) :
  control_accept e restr (AcceptFailed EINTR) calloc_ok now init_pid =
    (e, 0) /\
  control_accept e restr (AcceptFailed EWOULDBLOCK) calloc_ok now init_pid =
    (e, 0) /\
  control_accept e restr (AcceptFailed ECONNABORTED) calloc_ok now init_pid =
    (e, 0) /\
  control_accept e restr (AcceptFailed ENFILE) calloc_ok now init_pid =
    (set_pauseaccept e now, 0) /\
  control_accept e restr (AcceptFailed EMFILE) calloc_ok now init_pid =
    (set_pauseaccept e now, 0) /\
  ctl_conns (set_pauseaccept e now) = ctl_conns e /\
  pauseaccept (set_pauseaccept e now) = now /\
  (forall key c, pauseaccept (fst (control_close e key c)) = 0).
Proof.
  repeat split.
Qed.

(** ** The relay: neighbor replies that are dropped *)

(** C9.  A neighbor-show reply whose length exceeds the header plus
    the statistics struct, or that comes with no peer, is dropped: the
    relay returns 0, the peer argument comes back as it was, no
    connection (hence no write queue) changes, and nothing goes to the
    RDE or the parent. *)
Theorem relay_neighbor_dropped (e : world) (m : imsg) (p : option peer) :
  type (hdr m) = IMSG_CTL_SHOW_NEIGHBOR ->
  len (hdr m) > IMSG_HEADER_SIZE + sizeof_rde_peer_stats \/ p = None ->
  exists e',
    control_imsg_relay e m p = Some (e', p, 0) /\
    ctl_conns e' = ctl_conns e /\
    rde_ctl e' = rde_ctl e /\ parent_ctl e' = parent_ctl e.
Proof.
  intros Ht Hdrop. unfold control_imsg_relay. rewrite Ht. simpl.
  destruct (control_connbypid (pid (hdr m)) (ctl_conns e)) as [c|];
    [|exists e; repeat split].
  destruct (len (hdr m) >? IMSG_HEADER_SIZE + sizeof_rde_peer_stats) eqn:E.
  - eexists. repeat split.
  - destruct Hdrop as [Hlen | ->]; [|eexists; repeat split].
    rewrite Z.gtb_ltb in E. apply Z.ltb_ge in E. lia.
Qed.

(** ** Neighbor commands *)

Lemma unrestricted_dispatch (st : dstate) (m : imsg) :
  restricted (d_conn st) = false ->
  control_dispatch_imsg st m = control_handle st m.
Proof.
  intro Hr. unfold control_dispatch_imsg, restricted_filter. rewrite Hr.
  destruct st; reflexivity.
Qed.

Lemma allowed_dispatch (st : dstate) (m : imsg) :
  restricted_allowed (type (hdr m)) = true ->
  control_dispatch_imsg st m = control_handle st m.
Proof.
  intro Ha. unfold control_dispatch_imsg, restricted_filter. rewrite Ha.
  destruct (restricted (d_conn st)); destruct st; reflexivity.
Qed.

Lemma destroy_result_cases (p : peer) :
  (template p = false -> destroy_result p = CTL_RES_BADPEER) /\
  (template p = true -> state p <> STATE_IDLE ->
   destroy_result p = CTL_RES_BADSTATE) /\
  (template p = true -> state p = STATE_IDLE ->
   destroy_result p = CTL_RES_OK /\
   reconf_action (destroy_mark p) = RECONF_DELETE) /\
  (destroy_result p <> CTL_RES_OK -> destroy_mark p = p).
Proof.
  unfold destroy_mark, destroy_result.
  destruct (template p), (state p); simpl; repeat split;
    intros; try congruence; try reflexivity.
Qed.

Lemma control_neighbor_destroy (n : ctl_neighbor) (c : ctl_conn) (p : peer) :
  control_neighbor CMD_DESTROY n c p =
  (control_result c (destroy_result p), destroy_mark p).
Proof.
  unfold control_neighbor, destroy_mark, destroy_result.
  destruct (template p), (state p); reflexivity.
Qed.

(** Every command answers a matched peer with one result other than
    no-such-peer. *)
Lemma control_neighbor_reply (cmd : neighbor_cmd) (n : ctl_neighbor)
    (c : ctl_conn) (p : peer) :
  exists code,
    fst (control_neighbor cmd n c p) = control_result c code /\
    (code = CTL_RES_OK \/ code = CTL_RES_NOCAP \/
     code = CTL_RES_BADPEER \/ code = CTL_RES_BADSTATE).
Proof.
  destruct cmd; simpl.
  - exists CTL_RES_OK; auto.
  - exists CTL_RES_OK; auto.
  - exists CTL_RES_OK; auto.
  - destruct (session_neighbor_rrefresh p) as [p1 r].
    destruct (negb (r =? 0)); [exists CTL_RES_NOCAP | exists CTL_RES_OK];
      auto.
  - destruct (negb (template p)); [exists CTL_RES_BADPEER; auto|].
    destruct (negb (session_state_is_idle (state p)));
      [exists CTL_RES_BADSTATE | exists CTL_RES_OK]; auto.
Qed.

Lemma set_w_control_result (c : ctl_conn) (q : list ctl_msg)
    (code : ctl_results) :
  control_result (set_w c q) code =
  set_w c (q ++ [result_msg (ibuf_pid c) code]).
Proof. reflexivity. Qed.

Lemma set_w_same (c : ctl_conn) : set_w c (ibuf_w c) = c.
Proof. destruct c; reflexivity. Qed.

(** The loop over the peers: the connection only gains replies, one
    for each matched peer; no peer leaves the collection. *)
Lemma neighbor_loop_replies (cmd : neighbor_cmd) (n : ctl_neighbor)
    (peers : list peer) :
  forall (c : ctl_conn) (q : list ctl_msg) (matched : bool),
  exists replies,
    fst (fst (neighbor_loop cmd n peers (set_w c q) matched)) =
      set_w c (q ++ replies) /\
    length replies =
      length (filter (fun p => peer_matched p (Some n)) peers) /\
    Forall per_peer_result replies /\
    snd (neighbor_loop cmd n peers (set_w c q) matched) =
      matched || existsb (fun p => peer_matched p (Some n)) peers /\
    length (snd (fst (neighbor_loop cmd n peers (set_w c q) matched))) =
      length peers.
Proof.
  induction peers as [|p rest IH]; intros c q matched; simpl.
  - exists []. rewrite app_nil_r, orb_false_r. repeat split. constructor.
  - destruct (peer_matched p (Some n)) eqn:Hm; simpl.
    + destruct (control_neighbor_reply cmd n (set_w c q) p)
        as (code & Hc & Hcode).
      destruct (control_neighbor cmd n (set_w c q) p) as [c1 p1] eqn:Ecn.
      simpl in Hc. subst c1. rewrite set_w_control_result.
      destruct (IH c (q ++ [result_msg (ibuf_pid c) code]) true)
        as (replies & Hw & Hlen & Hall & Hmat & Hps).
      destruct (neighbor_loop cmd n rest
                  (set_w c (q ++ [result_msg (ibuf_pid c) code])) true)
        as [[c' rest'] m'] eqn:El.
      simpl in *. exists (result_msg (ibuf_pid c) code :: replies).
      rewrite Hw, <- app_assoc. simpl. repeat split; auto.
      * constructor; [|assumption]. exists code. split; [reflexivity|auto].
      * rewrite Hmat. rewrite orb_true_r. reflexivity.
    + destruct (IH c q matched) as (replies & Hw & Hlen & Hall & Hmat & Hps).
      destruct (neighbor_loop cmd n rest (set_w c q) matched)
        as [[c' rest'] m'] eqn:El.
      simpl in *. exists replies. repeat split; auto.
Qed.

(** Destroy: the replies and the peers after the loop, in full. *)
Lemma neighbor_loop_destroy (n : ctl_neighbor) (peers : list peer) :
  forall (c : ctl_conn) (q : list ctl_msg) (matched : bool),
  neighbor_loop CMD_DESTROY n peers (set_w c q) matched =
  (set_w c
     (q ++ map (fun p => result_msg (ibuf_pid c) (destroy_result p))
             (filter (fun p => peer_matched p (Some n)) peers)),
   map (fun p => if peer_matched p (Some n) then destroy_mark p else p)
     peers,
   matched || existsb (fun p => peer_matched p (Some n)) peers).
Proof.
  induction peers as [|p rest IH]; intros c q matched;
    cbn [neighbor_loop map filter existsb].
  - rewrite app_nil_r, orb_false_r. reflexivity.
  - destruct (peer_matched p (Some n)) eqn:Hm; cbn [negb map app orb].
    + rewrite control_neighbor_destroy, set_w_control_result, IH.
      rewrite <- app_assoc, orb_true_r. reflexivity.
    + rewrite IH. reflexivity.
Qed.

(** C5.  A destroy-neighbor command of the right length answers each
    matched peer, in the order of the collection, with bad-peer if the
    peer is not template-derived, bad-state if it is template-derived
    and not idle, and OK if it is template-derived and idle
    ([destroy_result]), followed by one no-such-peer if no peer
    matched.  Peer by peer, in place: the reconf action is
    RECONF_DELETE afterwards exactly for the matched, template-derived,
    idle peers and is as before for all others, and every other field
    of every peer is as before.  The collection keeps its length and
    its peer ids, so no peer is removed by the handler; the surrounding
    state is untouched. *)
Theorem destroy_neighbor_outcome (st : dstate) (m : imsg) :
  type (hdr m) = IMSG_CTL_NEIGHBOR_DESTROY ->
  len (hdr m) = IMSG_HEADER_SIZE + sizeof_ctl_neighbor ->
  let sel := fun p =>
    peer_matched p (Some (terminate_descr (neighbor_of (data m)))) in
  let st' := control_handle st m in
  ibuf_w (d_conn st') =
    ibuf_w (d_conn st) ++
    map (fun p => mk_ctl_msg IMSG_CTL_RESULT 0 (ibuf_pid (d_conn st))
                    (PResult (destroy_result p)))
      (filter sel (d_peers st)) ++
    (if existsb sel (d_peers st) then []
     else [mk_ctl_msg IMSG_CTL_RESULT 0 (ibuf_pid (d_conn st))
             (PResult CTL_RES_NOSUCHPEER)]) /\
  Forall2
    (fun p p' =>
       reconf_action p' =
         match sel p, template p, state p with
         | true, true, STATE_IDLE => RECONF_DELETE
         | _, _, _ => reconf_action p
         end /\
       conf p' = conf p /\ stats p' = stats p /\ state p' = state p /\
       template p' = template p /\ IdleHoldTime p' = IdleHoldTime p /\
       errcnt p' = errcnt p /\ timers p' = timers p)
    (d_peers st) (d_peers st') /\
  length (d_peers st') = length (d_peers st) /\
  map (fun p => id (conf p)) (d_peers st') =
    map (fun p => id (conf p)) (d_peers st) /\
  d_env st' = d_env st.
Proof.
  intros Ht Hlen sel st'. subst st'. unfold control_handle.
  rewrite Ht. cbn [neighbor_cmd_of]. unfold neighbor_command.
  rewrite Hlen, Z.eqb_refl. cbn [negb].
  pose proof (neighbor_loop_destroy
                (terminate_descr (neighbor_of (data m))) (d_peers st)
                (d_conn st) (ibuf_w (d_conn st)) false) as Hl.
  rewrite set_w_same in Hl. rewrite Hl. cbn [orb]. fold sel.
  assert (Hids : map (fun p => id (conf p))
                   (map (fun p => if sel p then destroy_mark p else p)
                      (d_peers st)) =
                 map (fun p => id (conf p)) (d_peers st)).
  { rewrite map_map. apply map_ext. intro p.
    destruct (sel p); [|reflexivity].
    unfold destroy_mark. destruct (destroy_result p); reflexivity. }
  assert (Hf2 : forall l,
            Forall2
              (fun p p' =>
                 reconf_action p' =
                   match sel p, template p, state p with
                   | true, true, STATE_IDLE => RECONF_DELETE
                   | _, _, _ => reconf_action p
                   end /\
                 conf p' = conf p /\ stats p' = stats p /\
                 state p' = state p /\ template p' = template p /\
                 IdleHoldTime p' = IdleHoldTime p /\
                 errcnt p' = errcnt p /\ timers p' = timers p)
              l (map (fun p => if sel p then destroy_mark p else p) l)).
  { induction l as [|p rest IH]; simpl; constructor; [|exact IH].
    unfold destroy_mark, destroy_result.
    destruct (sel p), (template p) eqn:Etp, (state p) eqn:Est; cbn;
      repeat split; assumption. }
  destruct (existsb sel (d_peers st)); cbn [negb d_conn d_peers d_env];
    rewrite ?control_result_w; cbn [ibuf_w set_w ibuf_pid];
    rewrite ?app_nil_r, <- ?app_assoc, ?length_map;
    repeat split; auto.
Qed.

(** C6.  A neighbor command (start, stop, reset, route-refresh or
    destroy) of the right length extends the connection's queue by one
    per-peer result for each matched peer, followed by the aggregate
    no-such-peer result exactly when no peer matched and by nothing
    otherwise.  For a selector that matches every peer of the
    collection, as the empty selector does, the per-peer results are as
    many as the peers, and the aggregate is absent iff the collection
    is non-empty. *)
Theorem neighbor_command_replies (st : dstate) (m : imsg)
    (cmd : neighbor_cmd) :
  neighbor_cmd_of (type (hdr m)) = Some cmd ->
  len (hdr m) = IMSG_HEADER_SIZE + sizeof_ctl_neighbor ->
  let sel := fun p =>
    peer_matched p (Some (terminate_descr (neighbor_of (data m)))) in
  exists per_peer aggregate,
    ibuf_w (d_conn (control_handle st m)) =
      ibuf_w (d_conn st) ++ per_peer ++ aggregate /\
    length per_peer = length (filter sel (d_peers st)) /\
    Forall per_peer_result per_peer /\
    aggregate =
      (if existsb sel (d_peers st) then []
       else [result_msg (ibuf_pid (d_conn st)) CTL_RES_NOSUCHPEER]) /\
    length (d_peers (control_handle st m)) = length (d_peers st) /\
    ((forall p, In p (d_peers st) -> sel p = true) ->
     length per_peer = length (d_peers st) /\
     (aggregate = [] <-> d_peers st <> [])).
Proof.
  intros Hcmd Hlen sel.
  assert (Hh : control_handle st m =
               let '(c1, peers1, e1) :=
                 neighbor_command cmd (d_conn st) (d_peers st) (d_env st) m in
               mk_dstate c1 peers1 e1).
  { unfold control_handle.
    destruct (type (hdr m)); try discriminate Hcmd;
      cbn [neighbor_cmd_of] in *; injection Hcmd as <-; reflexivity. }
  rewrite Hh. clear Hh. unfold neighbor_command.
  rewrite Hlen, Z.eqb_refl. cbn [negb].
  destruct (neighbor_loop_replies cmd
              (terminate_descr (neighbor_of (data m))) (d_peers st)
              (d_conn st) (ibuf_w (d_conn st)) false)
    as (replies & Hw & Hn & Hall & Hmat & Hps).
  rewrite set_w_same in Hw, Hmat, Hps.
  destruct (neighbor_loop cmd (terminate_descr (neighbor_of (data m)))
              (d_peers st) (d_conn st) false) as [[c1 peers1] matched].
  cbn [fst snd orb] in Hw, Hmat, Hps. subst c1 matched. fold sel in Hn |- *.
  exists replies.
  exists (if existsb sel (d_peers st) then []
          else [result_msg (ibuf_pid (d_conn st)) CTL_RES_NOSUCHPEER]).
  split.
  { destruct (existsb sel (d_peers st)); cbn [negb d_conn];
      rewrite ?control_result_w; cbn [ibuf_w set_w ibuf_pid];
      rewrite ?app_nil_r, <- ?app_assoc; reflexivity. }
  split; [exact Hn|]. split; [exact Hall|]. split; [reflexivity|].
  split.
  { destruct (existsb sel (d_peers st)); exact Hps. }
  intro Hevery.
  assert (Hfil : filter sel (d_peers st) = d_peers st).
  { clear - Hevery. induction (d_peers st) as [|p rest IH]; simpl; auto.
    rewrite (Hevery p (or_introl eq_refl)). f_equal.
    apply IH. intros q Hq. apply Hevery. right. exact Hq. }
  split; [rewrite Hn, Hfil; reflexivity|].
  destruct (d_peers st) as [|p rest] eqn:Ep; simpl.
  - split; [discriminate | intros Hne; contradiction Hne; reflexivity].
  - rewrite (Hevery p (or_introl eq_refl)). simpl.
    split; [discriminate | reflexivity].
Qed.

(** ** Rib requests *)

(** The guard before the forwarding of a rib request tests nothing but
    the emptiness of the collection: with no peers no peer matches. *)
Lemma rib_guard_emptiness (f : peer -> bool) (peers : list peer) :
  negb (existsb f peers) && RB_EMPTY peers = RB_EMPTY peers.
Proof.
  destruct peers as [|p rest]; [reflexivity|].
  cbn [RB_EMPTY]. apply andb_false_r.
Qed.

(** With at least one peer configured a rib request of the right
    length is never refused with no-such-peer, whatever its selector
    matches: unless it is a per-prefix request without address family,
    it is forwarded to the RDE. *)
Lemma rib_forwarded_with_peers (c : ctl_conn) (peers : list peer)
    (e : world) (m : imsg) :
  peers <> [] ->
  len (hdr m) = IMSG_HEADER_SIZE + sizeof_ctl_show_rib_request ->
  is_rib_prefix (type (hdr m)) &&
    (prefix_aid (ribreq_of (data m)) =? AID_UNSPEC) = false ->
  show_rib c peers e m =
  (set_terminate (set_pid c (pid (hdr m))) true,
   fst (imsg_ctl_rde e (type (hdr m)) 0 (pid (hdr m))
          (store_rib_neighbor (data m)
             (terminate_descr (rib_neighbor (ribreq_of (data m))))))).
Proof.
  intros Hne Hlen Haf. unfold show_rib. cbv zeta.
  rewrite Hlen, Z.eqb_refl, rib_guard_emptiness, Haf.
  destruct peers; [contradiction Hne; reflexivity | reflexivity].
Qed.

(** C7, as amended.  A per-prefix rib request of the right length with
    address family AID_UNSPEC whose selector matches at least one peer
    gets exactly one parse-error result; nothing is handed to the RDE
    or the parent, the peers are untouched, and the connection keeps
    its pid and its terminate flag. *)
Theorem rib_prefix_unspec_parse_error (st : dstate) (m : imsg) :
  type (hdr m) = IMSG_CTL_SHOW_RIB_PREFIX ->
  len (hdr m) = IMSG_HEADER_SIZE + sizeof_ctl_show_rib_request ->
  prefix_aid (ribreq_of (data m)) = AID_UNSPEC ->
  existsb
    (fun p =>
       peer_matched p
         (Some (terminate_descr (rib_neighbor (ribreq_of (data m))))))
    (d_peers st) = true ->
  let st' := control_dispatch_imsg st m in
  ibuf_w (d_conn st') =
    ibuf_w (d_conn st) ++
    [result_msg (ibuf_pid (d_conn st)) CTL_RES_PARSE_ERROR] /\
  d_env st' = d_env st /\
  d_peers st' = d_peers st /\
  ibuf_pid (d_conn st') = ibuf_pid (d_conn st) /\
  terminate (d_conn st') = terminate (d_conn st).
Proof.
  intros Ht Hlen Haid Hex st'. subst st'.
  rewrite allowed_dispatch by (rewrite Ht; reflexivity).
  unfold control_handle. rewrite Ht. cbv zeta. unfold show_rib.
  rewrite Ht, Hlen, Z.eqb_refl, Hex, Haid, Z.eqb_refl.
  cbn [negb andb is_rib_prefix d_conn d_peers d_env].
  rewrite control_result_w. repeat split.
Qed.

(** ** Close *)

Lemma conn_remove_found (fd : Z) (l : list ctl_conn) (c : ctl_conn) :
  NoDup (map ibuf_fd l) ->
  control_connbyfd fd l = Some c ->
  ibuf_fd c = fd /\ In c l /\
  length (conn_remove (by_fd fd) l) = pred (length l) /\
  forall c2, In c2 (conn_remove (by_fd fd) l) ->
             In c2 l /\ ibuf_fd c2 <> fd.
Proof.
  induction l as [|a rest IH]; simpl; intros Hnd Hfind; [discriminate|].
  inversion Hnd as [|x xs Hnotin Hnd']; subst.
  change (by_fd fd a) with (ibuf_fd a =? fd).
  destruct (ibuf_fd a =? fd) eqn:Ea.
  - injection Hfind as <-. apply Z.eqb_eq in Ea.
    split; [assumption|]. split; [left; reflexivity|].
    split; [reflexivity|]. intros c2 Hc2. split; [right; assumption|].
    intro Hfd. apply Hnotin. rewrite Ea, <- Hfd.
    apply in_map. assumption.
  - destruct (IH Hnd' Hfind) as (Hfd & Hin & Hlen & Hrest).
    split; [assumption|]. split; [right; assumption|]. split.
    + simpl. rewrite Hlen. destruct rest; [contradiction|reflexivity].
    + intros c2 [<- | Hc2].
      * split; [left; reflexivity|]. apply Z.eqb_neq. assumption.
      * destruct (Hrest c2 Hc2). split; [right|]; assumption.
Qed.

Lemma connbypid_none (p : Z) (l : list ctl_conn) :
  (forall c, In c l -> ibuf_pid c <> p) -> control_connbypid p l = None.
Proof.
  induction l as [|a rest IH]; simpl; intro Hall; [reflexivity|].
  destruct (ibuf_pid a =? p) eqn:Ea.
  - apply Z.eqb_eq in Ea. exfalso. apply (Hall a); auto.
  - apply IH. intros c Hc. apply Hall. right. assumption.
Qed.

Lemma connbyfd_absent (fd : Z) (l : list ctl_conn) :
  (forall c, In c l -> ibuf_fd c <> fd) -> control_connbyfd fd l = None.
Proof.
  induction l as [|a rest IH]; simpl; intro Hall; [reflexivity|].
  destruct (ibuf_fd a =? fd) eqn:Ea.
  - apply Z.eqb_eq in Ea. exfalso. apply (Hall a); auto.
  - apply IH. intros c Hc. apply Hall. right. assumption.
Qed.

Lemma connbyfd_remove_other (fd fd' : Z) (l : list ctl_conn) :
  fd' <> fd ->
  control_connbyfd fd' (conn_remove (by_fd fd) l) = control_connbyfd fd' l.
Proof.
  intros Hne. induction l as [|a rest IH]; simpl; [reflexivity|].
  change (by_fd fd a) with (ibuf_fd a =? fd).
  destruct (ibuf_fd a =? fd) eqn:Ea; simpl.
  - apply Z.eqb_eq in Ea. rewrite Ea.
    destruct (fd =? fd') eqn:E; [apply Z.eqb_eq in E; congruence|].
    reflexivity.
  - destruct (ibuf_fd a =? fd'); [reflexivity | exact IH].
Qed.

Lemma control_close_effect (e : world) (key : ctl_conn -> bool)
    (c : ctl_conn) :
  let e' := fst (control_close e key c) in
  ctl_conns e' = conn_remove key (ctl_conns e) /\
  parent_ctl e' = parent_ctl e /\
  pauseaccept e' = 0 /\
  closed_fds e' = closed_fds e ++ [ibuf_fd c] /\
  rde_ctl e' =
    rde_ctl e ++
    (if terminate c && negb (ibuf_pid c =? 0) && send_ok e
     then [mk_ctl_msg IMSG_CTL_TERMINATE 0 (ibuf_pid c) PNone] else []).
Proof.
  unfold control_close. cbn [fst].
  destruct (terminate c && negb (ibuf_pid c =? 0)) eqn:Et; cbn [andb].
  - pose proof (imsg_ctl_rde_queue e IMSG_CTL_TERMINATE 0 (ibuf_pid c) PNone)
      as Hq.
    destruct (imsg_ctl_rde_frame e IMSG_CTL_TERMINATE 0 (ibuf_pid c) PNone)
      as (Hc & _ & Hp & Hcl & _).
    simpl. rewrite Hc, Hp, Hcl, Hq. repeat split.
  - simpl. rewrite app_nil_r. repeat split.
Qed.

(** C4, as amended.  control_close sends nothing to the parent; the RDE
    gets exactly one IMSG_CTL_TERMINATE for the connection's pid if the
    terminate flag is set, the pid is not 0 and the hand-over succeeds,
    and nothing otherwise; every other descriptor still finds its
    connection.  For a connection of the list (the one found under its
    descriptor, descriptors being distinct) the close takes the
    connection out of the list together with its write queue and its
    terminate flag: its descriptor is no longer found.  When, moreover,
    no other connection carries its pid, every later reply for that pid
    is dropped by the relay, which returns 0 with the state and the
    peer unchanged. *)
Theorem close_abandons_connection (e : world) (c : ctl_conn) :
  let e' := fst (control_close e (by_fd (ibuf_fd c)) c) in
  parent_ctl e' = parent_ctl e /\
  rde_ctl e' =
    rde_ctl e ++
    (if terminate c && negb (ibuf_pid c =? 0) && send_ok e
     then [mk_ctl_msg IMSG_CTL_TERMINATE 0 (ibuf_pid c) PNone] else []) /\
  (forall fd', fd' <> ibuf_fd c ->
     control_connbyfd fd' (ctl_conns e') =
     control_connbyfd fd' (ctl_conns e)) /\
  (control_connbyfd (ibuf_fd c) (ctl_conns e) = Some c ->
   NoDup (map ibuf_fd (ctl_conns e)) ->
   ~ In c (ctl_conns e') /\
   control_connbyfd (ibuf_fd c) (ctl_conns e') = None /\
   length (ctl_conns e') = pred (length (ctl_conns e)) /\
   ((forall c2, In c2 (ctl_conns e) -> ibuf_pid c2 = ibuf_pid c -> c2 = c) ->
    forall m p, pid (hdr m) = ibuf_pid c ->
                control_imsg_relay e' m p = Some (e', p, 0))).
Proof.
  intro e'.
  destruct (control_close_effect e (by_fd (ibuf_fd c)) c)
    as (Hconns & Hpar & _ & _ & Hrde).
  fold e' in Hconns, Hpar, Hrde.
  split; [exact Hpar|]. split; [exact Hrde|].
  split. { intros fd' Hne. rewrite Hconns. apply connbyfd_remove_other, Hne. }
  intros Hfind Hnd.
  destruct (conn_remove_found _ _ _ Hnd Hfind) as (_ & Hin & Hlen & Hrest).
  split. { rewrite Hconns. intro Hc. destruct (Hrest c Hc) as [_ Hne].
           apply Hne. reflexivity. }
  split. { rewrite Hconns. apply connbyfd_absent. intros c2 Hc2.
           apply (Hrest c2 Hc2). }
  split. { rewrite Hconns. exact Hlen. }
  intros Huniq m p Hpid. unfold control_imsg_relay. cbv zeta.
  rewrite Hpid, Hconns, connbypid_none; [reflexivity|].
  intros c2 Hc2 Hp2. destruct (Hrest c2 Hc2) as [Hin2 Hne].
  apply Hne. rewrite (Huniq c2 Hin2 Hp2). reflexivity.
Qed.

(** ** Flow control *)

Lemma connbypid_pid (p : Z) (l : list ctl_conn) (c : ctl_conn) :
  control_connbypid p l = Some c -> ibuf_pid c = p.
Proof.
  induction l as [|a rest IH]; simpl; [discriminate|].
  destruct (ibuf_pid a =? p) eqn:Ea; [|exact IH].
  intro E. injection E as <-. apply Z.eqb_eq. exact Ea.
Qed.

Lemma connbyfd_fd (fd : Z) (l : list ctl_conn) (c : ctl_conn) :
  control_connbyfd fd l = Some c -> ibuf_fd c = fd.
Proof.
  induction l as [|a rest IH]; simpl; [discriminate|].
  destruct (ibuf_fd a =? fd) eqn:Ea; [|exact IH].
  intro E. injection E as <-. apply Z.eqb_eq. exact Ea.
Qed.

(** A write through the pointer is seen by the next lookup. *)
Lemma connbypid_store (p : Z) (l : list ctl_conn) (c c' : ctl_conn) :
  control_connbypid p l = Some c -> ibuf_pid c' = p ->
  control_connbypid p (conn_store (by_pid p) c' l) = Some c'.
Proof.
  intros Hfind Hp. induction l as [|a rest IH]; simpl in *; [discriminate|].
  change (by_pid p a) with (ibuf_pid a =? p).
  destruct (ibuf_pid a =? p) eqn:Ea; simpl.
  - rewrite Hp, Z.eqb_refl. reflexivity.
  - rewrite Ea. apply IH. exact Hfind.
Qed.

Lemma connbyfd_store (fd : Z) (l : list ctl_conn) (c c' : ctl_conn) :
  control_connbyfd fd l = Some c -> ibuf_fd c' = fd ->
  control_connbyfd fd (conn_store (by_fd fd) c' l) = Some c'.
Proof.
  intros Hfind Hp. induction l as [|a rest IH]; simpl in *; [discriminate|].
  change (by_fd fd a) with (ibuf_fd a =? fd).
  destruct (ibuf_fd a =? fd) eqn:Ea; simpl.
  - rewrite Hp, Z.eqb_refl. reflexivity.
  - rewrite Ea. apply IH. exact Hfind.
Qed.

Lemma is_show_neighbor_type (t : imsg_type) :
  is_show_neighbor t = true -> t = IMSG_CTL_SHOW_NEIGHBOR.
Proof. destruct t; try discriminate; reflexivity. Qed.

(** The relay gives no result only for a neighbor-show reply whose
    payload does not hold the statistics struct. *)
Lemma relay_no_result (e : world) (m : imsg) (p : option peer) :
  control_imsg_relay e m p = None ->
  type (hdr m) = IMSG_CTL_SHOW_NEIGHBOR /\
  (len (hdr m) < IMSG_HEADER_SIZE + sizeof_rde_peer_stats \/
   forall s, data m <> PStats s).
Proof.
  unfold control_imsg_relay. cbv zeta.
  destruct (control_connbypid (pid (hdr m)) (ctl_conns e)) as [c|];
    [|discriminate].
  destruct (is_show_neighbor (type (hdr m))) eqn:Hn.
  - apply is_show_neighbor_type in Hn.
    destruct (len (hdr m) >? IMSG_HEADER_SIZE + sizeof_rde_peer_stats);
      [discriminate|].
    destruct p as [p0|]; [|discriminate].
    unfold stats_of.
    destruct (len (hdr m) <? IMSG_HEADER_SIZE + sizeof_rde_peer_stats)
      eqn:Hlt.
    + apply Z.ltb_lt in Hlt. auto.
    + destruct (data m); try discriminate; intros _;
        (split; [exact Hn|]; right; intros s0; discriminate).
  - destruct (negb (throttled (if is_end_or_result (type (hdr m))
                               then set_terminate c false else c)) &&
              (queued (if is_end_or_result (type (hdr m))
                       then set_terminate c false else c) >?
               CTL_MSG_HIGH_MARK)); [|discriminate].
    destruct (imsg_ctl_rde e IMSG_XOFF 0 (pid (hdr m)) PNone) as [e1 r].
    destruct (negb (r =? -1)); discriminate.
Qed.

(** A reply other than a neighbor-show reply whose connection is found
    is always relayed: the relay returns 1 and the peer as it was. *)
Lemma relay_forward_result (e : world) (m : imsg) (p : option peer)
    (c : ctl_conn) :
  control_connbypid (pid (hdr m)) (ctl_conns e) = Some c ->
  is_show_neighbor (type (hdr m)) = false ->
  exists e', control_imsg_relay e m p = Some (e', p, 1).
Proof.
  intros Hfind Hns. unfold control_imsg_relay. cbv zeta. rewrite Hfind, Hns.
  destruct (negb (throttled (if is_end_or_result (type (hdr m))
                             then set_terminate c false else c)) &&
            (queued (if is_end_or_result (type (hdr m))
                     then set_terminate c false else c) >?
             CTL_MSG_HIGH_MARK)); [|eexists; reflexivity].
  destruct (imsg_ctl_rde e IMSG_XOFF 0 (pid (hdr m)) PNone) as [e1 r].
  destruct (negb (r =? -1)); eexists; reflexivity.
Qed.

(** A neighbor-show reply that holds the statistics struct, with a peer
    and a connection: the result of the relay. *)
Lemma relay_merge_result (e : world) (m : imsg) (p0 : peer) (c : ctl_conn)
    (s : rde_peer_stats) :
  control_connbypid (pid (hdr m)) (ctl_conns e) = Some c ->
  type (hdr m) = IMSG_CTL_SHOW_NEIGHBOR ->
  len (hdr m) = IMSG_HEADER_SIZE + sizeof_rde_peer_stats ->
  data m = PStats s ->
  control_imsg_relay e m (Some p0) =
  Some (commit e (by_pid (pid (hdr m)))
          (imsg_compose c IMSG_CTL_SHOW_NEIGHBOR 0 (pid (hdr m))
             (PPeer (merge_stats p0 s))),
        Some (merge_stats p0 s), 1).
Proof.
  intros Hfind Ht Hlen Hd. unfold control_imsg_relay, stats_of. cbv zeta.
  rewrite Hfind, Ht, Hlen, Hd, Z.ltb_irrefl. cbn [is_show_neighbor].
  assert (Hgt : (IMSG_HEADER_SIZE + sizeof_rde_peer_stats >?
                 IMSG_HEADER_SIZE + sizeof_rde_peer_stats) = false).
  { rewrite Z.gtb_ltb. apply Z.ltb_irrefl. }
  rewrite Hgt. reflexivity.
Qed.

(** The relay and the XOFF signal: what goes to the RDE and what
    becomes of the throttled flag, for a reply whose connection is
    found. *)
Lemma relay_flow_control (e : world) (m : imsg) (p : option peer)
    (c : ctl_conn) :
  control_connbypid (pid (hdr m)) (ctl_conns e) = Some c ->
  let fire :=
    negb (is_show_neighbor (type (hdr m))) && xoff_due c && send_ok e in
  match control_imsg_relay e m p with
  | None =>
      type (hdr m) = IMSG_CTL_SHOW_NEIGHBOR /\
      (len (hdr m) < IMSG_HEADER_SIZE + sizeof_rde_peer_stats \/
       forall s, data m <> PStats s)
  | Some (e', _, _) =>
      rde_ctl e' =
        rde_ctl e ++
        (if fire then [mk_ctl_msg IMSG_XOFF 0 (pid (hdr m)) PNone] else []) /\
      parent_ctl e' = parent_ctl e /\
      exists c',
        control_connbypid (pid (hdr m)) (ctl_conns e') = Some c' /\
        throttled c' = throttled c || fire
  end.
Proof.
  intros Hfind fire. subst fire.
  pose proof (connbypid_pid _ _ _ Hfind) as Hpid.
  destruct (control_imsg_relay e m p) as [[[e' p'] r]|] eqn:Hrel;
    [|exact (relay_no_result e m p Hrel)].
  revert Hrel. unfold control_imsg_relay. cbv zeta. rewrite Hfind.
  destruct (is_show_neighbor (type (hdr m))); cbn [negb andb].
  - rewrite app_nil_r, orb_false_r.
    destruct (len (hdr m) >? IMSG_HEADER_SIZE + sizeof_rde_peer_stats).
    + intro E. injection E as <- _ _. cbn. repeat split. exists c. auto.
    + destruct p as [p0|].
      * destruct (stats_of m) as [st|]; [|discriminate].
        intro E. injection E as <- _ _. cbn. repeat split. eexists. split.
        -- eapply connbypid_store; [exact Hfind | exact Hpid].
        -- reflexivity.
      * intro E. injection E as <- _ _. cbn. repeat split. exists c. auto.
  - assert (Hdue :
      negb (throttled (if is_end_or_result (type (hdr m))
                       then set_terminate c false else c)) &&
      (queued (if is_end_or_result (type (hdr m))
               then set_terminate c false else c) >? CTL_MSG_HIGH_MARK) =
      xoff_due c).
    { destruct (is_end_or_result (type (hdr m))); reflexivity. }
    rewrite Hdue. clear Hdue.
    destruct (xoff_due c) eqn:Hx; cbn [andb].
    + unfold xoff_due in Hx. apply andb_prop in Hx. destruct Hx as [Hthr _].
      apply negb_true_iff in Hthr.
      unfold imsg_ctl_rde, send_ok.
      destruct (rde_fail e) as [|[|] rest]; cbn;
        intro E; injection E as <- _ _; cbn;
        rewrite ?app_nil_r; repeat split;
        (eexists; split;
         [eapply connbypid_store; [exact Hfind |];
          destruct (is_end_or_result (type (hdr m))); exact Hpid
         | destruct (is_end_or_result (type (hdr m))); cbn;
           rewrite ?Hthr; reflexivity]).
    + cbn. intro E. injection E as <- _ _. cbn.
      rewrite app_nil_r, orb_false_r. repeat split.
      eexists. split.
      * eapply connbypid_store; [exact Hfind |].
        destruct (is_end_or_result (type (hdr m))); exact Hpid.
      * destruct (is_end_or_result (type (hdr m))); reflexivity.
Qed.

Lemma rde_quiet_refl (e : world) : rde_quiet e e.
Proof.
  split; [reflexivity|]. exists []. rewrite app_nil_r. split; auto.
Qed.

Lemma rde_quiet_trans (e1 e2 e3 : world) :
  rde_quiet e1 e2 -> rde_quiet e2 e3 -> rde_quiet e1 e3.
Proof.
  intros (Hc1 & l1 & Hq1 & Hl1) (Hc2 & l2 & Hq2 & Hl2). split.
  - congruence.
  - exists (l1 ++ l2). rewrite Hq2, Hq1, app_assoc. split; [reflexivity|].
    apply Forall_app. split; assumption.
Qed.

Lemma imsg_ctl_rde_quiet (e : world) (t : imsg_type) (peerid p : Z)
    (d : payload) :
  flow_signal t = false -> rde_quiet e (fst (imsg_ctl_rde e t peerid p d)).
Proof.
  intro Ht. split.
  - apply imsg_ctl_rde_frame.
  - rewrite imsg_ctl_rde_queue. eexists. split; [reflexivity|].
    destruct (send_ok e); repeat constructor. exact Ht.
Qed.

Lemma imsg_ctl_parent_quiet (e : world) (t : imsg_type) (peerid p : Z)
    (d : payload) :
  rde_quiet e (imsg_ctl_parent e t peerid p d).
Proof.
  split; [reflexivity|]. exists []. simpl. rewrite app_nil_r. split; auto.
Qed.

Lemma log_warn_quiet (e : world) (s : string) : rde_quiet e (log_warn e s).
Proof.
  split; [reflexivity|]. exists []. simpl. rewrite app_nil_r. split; auto.
Qed.

Lemma log_setverbose_quiet (e : world) (v : Z) :
  rde_quiet e (log_setverbose e v).
Proof.
  split; [reflexivity|]. exists []. simpl. rewrite app_nil_r. split; auto.
Qed.

Lemma same_flow_refl (c : ctl_conn) : same_flow c c.
Proof. split; reflexivity. Qed.

Lemma same_flow_trans (c1 c2 c3 : ctl_conn) :
  same_flow c1 c2 -> same_flow c2 c3 -> same_flow c1 c3.
Proof. intros [A B] [C D]. split; congruence. Qed.

Lemma imsg_compose_same_flow (c : ctl_conn) (t : imsg_type) (peerid p : Z)
    (d : payload) :
  same_flow c (imsg_compose c t peerid p d).
Proof. split; reflexivity. Qed.

Lemma fold_left_same_flow (A : Type) (f : ctl_conn -> A -> ctl_conn)
    (l : list A) :
  (forall c a, same_flow c (f c a)) ->
  forall c, same_flow c (fold_left f l c).
Proof.
  intro Hf. induction l as [|a rest IH]; intro c; simpl.
  - apply same_flow_refl.
  - eapply same_flow_trans; [apply Hf | apply IH].
Qed.

Lemma show_neighbor_timers_same_flow (c : ctl_conn) (p : peer) :
  same_flow c (show_neighbor_timers c p).
Proof.
  unfold show_neighbor_timers.
  eapply same_flow_trans; [apply imsg_compose_same_flow|].
  apply fold_left_same_flow. intros c0 i.
  destruct (timer_running p i); [apply imsg_compose_same_flow|].
  apply same_flow_refl.
Qed.

Lemma show_terse_same_flow (c : ctl_conn) (peers : list peer) :
  same_flow c (show_terse c peers).
Proof.
  unfold show_terse.
  eapply same_flow_trans; [|apply imsg_compose_same_flow].
  apply fold_left_same_flow. intros c0 p. apply imsg_compose_same_flow.
Qed.

Lemma show_neighbor_loop_flow (neighbor : option ctl_neighbor) (hpid : Z)
    (peers : list peer) :
  forall (c : ctl_conn) (e : world) (matched : bool),
  same_flow c
    (fst (fst (show_neighbor_loop neighbor hpid peers c e matched))) /\
  rde_quiet e
    (snd (fst (show_neighbor_loop neighbor hpid peers c e matched))).
Proof.
  induction peers as [|p rest IH]; intros c e matched; simpl.
  - split; [apply same_flow_refl | apply rde_quiet_refl].
  - destruct (peer_matched p neighbor); simpl; [|apply IH].
    destruct (wants_timers neighbor); simpl.
    + destruct (IH (show_neighbor_timers c p) e true) as [Hc He].
      split; [|exact He].
      eapply same_flow_trans; [apply show_neighbor_timers_same_flow|].
      exact Hc.
    + destruct (IH c
                  (fst (imsg_ctl_rde e IMSG_CTL_SHOW_NEIGHBOR (id (conf p))
                          hpid PNone)) true) as [Hc He].
      split; [exact Hc|].
      eapply rde_quiet_trans; [|exact He].
      apply imsg_ctl_rde_quiet. reflexivity.
Qed.

Lemma show_neighbor_flow (c : ctl_conn) (peers : list peer) (e : world)
    (m : imsg) :
  same_flow c (fst (show_neighbor c peers e m)) /\
  rde_quiet e (snd (show_neighbor c peers e m)).
Proof.
  unfold show_neighbor.
  set (neighbor :=
         if len (hdr m) =? IMSG_HEADER_SIZE + sizeof_ctl_neighbor
         then Some (terminate_descr (neighbor_of (data m))) else None).
  destruct (show_neighbor_loop_flow neighbor (pid (hdr m)) peers
              (set_pid c (pid (hdr m))) e false) as [Hc He].
  destruct (show_neighbor_loop neighbor (pid (hdr m)) peers
              (set_pid c (pid (hdr m))) e false) as [[c1 e1] matched].
  cbn [fst snd] in Hc, He.
  assert (Hc' : same_flow c c1).
  { eapply same_flow_trans; [|exact Hc]. split; reflexivity. }
  destruct (negb matched && RB_EMPTY peers); cbn [fst snd].
  - split; [|exact He].
    eapply same_flow_trans; [exact Hc' | apply imsg_compose_same_flow].
  - destruct (negb (wants_timers neighbor)); cbn [fst snd].
    + split; [exact Hc'|].
      eapply rde_quiet_trans; [exact He|].
      apply imsg_ctl_rde_quiet. reflexivity.
    + split; [|exact He].
      eapply same_flow_trans; [exact Hc' | apply imsg_compose_same_flow].
Qed.

Lemma neighbor_command_flow (cmd : neighbor_cmd) (c : ctl_conn)
    (peers : list peer) (e : world) (m : imsg) :
  same_flow c (fst (fst (neighbor_command cmd c peers e m))) /\
  rde_quiet e (snd (neighbor_command cmd c peers e m)).
Proof.
  unfold neighbor_command.
  destruct (negb (len (hdr m) =? IMSG_HEADER_SIZE + sizeof_ctl_neighbor)).
  - split; [apply same_flow_refl | apply log_warn_quiet].
  - destruct (neighbor_loop_replies cmd
                (terminate_descr (neighbor_of (data m))) peers c (ibuf_w c)
                false) as (replies & Hw & _).
    rewrite set_w_same in Hw.
    destruct (neighbor_loop cmd (terminate_descr (neighbor_of (data m)))
                peers c false) as [[c1 peers1] matched].
    cbn [fst] in Hw. subst c1.
    destruct (negb matched); cbn [fst snd];
      (split; [split; reflexivity | apply rde_quiet_refl]).
Qed.

Lemma show_rib_flow (c : ctl_conn) (peers : list peer) (e : world)
    (m : imsg) :
  flow_signal (type (hdr m)) = false ->
  same_flow c (fst (show_rib c peers e m)) /\
  rde_quiet e (snd (show_rib c peers e m)).
Proof.
  intro Ht. unfold show_rib. cbv zeta.
  repeat match goal with
         | |- context [if ?b then _ else _] => destruct b
         end; cbn [fst snd];
    (split;
     [ split; reflexivity
     | first [ apply rde_quiet_refl | apply log_warn_quiet
             | apply imsg_ctl_rde_quiet; exact Ht ] ]).
Qed.

(** No handler touches the throttled flag or sends a flow-control
    signal. *)
Lemma control_handle_flow (st : dstate) (m : imsg) :
  same_flow (d_conn st) (d_conn (control_handle st m)) /\
  rde_quiet (d_env st) (d_env (control_handle st m)).
Proof.
  pose proof (show_neighbor_flow (d_conn st) (d_peers st) (d_env st) m)
    as Hsn.
  pose proof (show_rib_flow (d_conn st) (d_peers st) (d_env st) m) as Hrib.
  pose proof (fun cmd =>
                neighbor_command_flow cmd (d_conn st) (d_peers st)
                  (d_env st) m) as Hnc.
  unfold control_handle. cbv zeta.
  destruct (type (hdr m)) eqn:Et; cbn [neighbor_cmd_of];
    try (split; [apply same_flow_refl | apply rde_quiet_refl]);
    try (cbn [d_conn d_env];
         split;
         [ first [ apply same_flow_refl | apply show_terse_same_flow
                 | split; reflexivity ]
         | first [ apply rde_quiet_refl | apply imsg_ctl_parent_quiet
                 | apply imsg_ctl_rde_quiet; reflexivity ] ]).
  - (* IMSG_CTL_NEIGHBOR_UP *)
    specialize (Hnc CMD_UP).
    destruct (neighbor_command CMD_UP (d_conn st) (d_peers st) (d_env st) m)
      as [[c1 p1] e1]. exact Hnc.
  - specialize (Hnc CMD_DOWN).
    destruct (neighbor_command CMD_DOWN (d_conn st) (d_peers st) (d_env st) m)
      as [[c1 p1] e1]. exact Hnc.
  - specialize (Hnc CMD_CLEAR).
    destruct (neighbor_command CMD_CLEAR (d_conn st) (d_peers st) (d_env st)
                m) as [[c1 p1] e1]. exact Hnc.
  - specialize (Hnc CMD_RREFRESH).
    destruct (neighbor_command CMD_RREFRESH (d_conn st) (d_peers st)
                (d_env st) m) as [[c1 p1] e1]. exact Hnc.
  - specialize (Hnc CMD_DESTROY).
    destruct (neighbor_command CMD_DESTROY (d_conn st) (d_peers st)
                (d_env st) m) as [[c1 p1] e1]. exact Hnc.
  - (* IMSG_CTL_SHOW_NEIGHBOR *)
    destruct (show_neighbor (d_conn st) (d_peers st) (d_env st) m)
      as [c1 e1]. exact Hsn.
  - (* IMSG_CTL_SHOW_RIB *)
    specialize (Hrib eq_refl).
    destruct (show_rib (d_conn st) (d_peers st) (d_env st) m) as [c1 e1].
    exact Hrib.
  - (* IMSG_CTL_SHOW_RIB_PREFIX *)
    specialize (Hrib eq_refl).
    destruct (show_rib (d_conn st) (d_peers st) (d_env st) m) as [c1 e1].
    exact Hrib.
  - (* IMSG_CTL_LOG_VERBOSE *)
    destruct (negb (len (hdr m) =? IMSG_HEADER_SIZE + sizeof_verbose)).
    + split; [apply same_flow_refl | apply rde_quiet_refl].
    + cbn [d_conn d_env]. split; [apply same_flow_refl|].
      eapply rde_quiet_trans; [|apply log_setverbose_quiet].
      eapply rde_quiet_trans; [apply imsg_ctl_parent_quiet|].
      apply imsg_ctl_rde_quiet. reflexivity.
Qed.

Lemma control_dispatch_imsg_flow (st : dstate) (m : imsg) :
  same_flow (d_conn st) (d_conn (control_dispatch_imsg st m)) /\
  rde_quiet (d_env st) (d_env (control_dispatch_imsg st m)).
Proof.
  unfold control_dispatch_imsg, restricted_filter.
  destruct (restricted (d_conn st));
    [destruct (restricted_allowed (type (hdr m)))|].
  - apply (control_handle_flow (mk_dstate (d_conn st) (d_peers st) (d_env st))).
  - cbn. split; [split; reflexivity | apply rde_quiet_refl].
  - apply (control_handle_flow (mk_dstate (d_conn st) (d_peers st) (d_env st))).
Qed.

Lemma dispatch_loop_flow (fs : list imsg) :
  forall st : dstate,
  same_flow (d_conn st) (d_conn (dispatch_loop st fs)) /\
  rde_quiet (d_env st) (d_env (dispatch_loop st fs)).
Proof.
  unfold dispatch_loop.
  induction fs as [|m rest IH]; intro st; simpl.
  - split; [apply same_flow_refl | apply rde_quiet_refl].
  - destruct (control_dispatch_imsg_flow st m) as [Hc He].
    destruct (IH (control_dispatch_imsg st m)) as [Hc' He'].
    split; [eapply same_flow_trans | eapply rde_quiet_trans]; eassumption.
Qed.

(** The POLLOUT block: it gives up only on a failed write; otherwise
    it hands the RDE an XON exactly when one is due and the hand-over
    succeeds, and clears the throttled flag exactly then. *)
Lemma dispatch_pollout_flow (e : world) (c : ctl_conn) (rev : Z)
    (w : msgbuf_write_outcome) :
  let fire := xon_due c rev w && send_ok e in
  match dispatch_pollout e c rev w with
  | None => fire = false
  | Some (e1, c1) =>
      rde_ctl e1 =
        rde_ctl e ++
        (if fire then [mk_ctl_msg IMSG_XON 0 (ibuf_pid c) PNone] else []) /\
      ctl_conns e1 = ctl_conns e /\
      throttled c1 = throttled c && negb fire /\
      ibuf_fd c1 = ibuf_fd c
  end.
Proof.
  unfold dispatch_pollout, xon_due, after_write, write_failed.
  destruct (Z.land rev POLLOUT =? 0); cbn [negb andb].
  - rewrite app_nil_r, andb_true_r. repeat split.
  - destruct w as [n | |]; cbn [negb andb]; try reflexivity.
    + change (throttled (set_w c (skipn n (ibuf_w c)))) with (throttled c).
      change (ibuf_pid (set_w c (skipn n (ibuf_w c)))) with (ibuf_pid c).
      destruct (throttled c) eqn:Hthr; cbn [andb].
      * destruct (queued (set_w c (skipn n (ibuf_w c))) <? CTL_MSG_LOW_MARK);
          cbn [andb].
        -- unfold imsg_ctl_rde, send_ok.
           destruct (rde_fail e) as [|[|] rest]; cbn;
             rewrite ?app_nil_r, ?Hthr; repeat split.
        -- rewrite app_nil_r. cbn. rewrite Hthr. repeat split.
      * rewrite app_nil_r. cbn. rewrite Hthr. repeat split.
    + destruct (throttled c) eqn:Hthr; cbn [andb].
      * destruct (queued c <? CTL_MSG_LOW_MARK); cbn [andb].
        -- unfold imsg_ctl_rde, send_ok.
           destruct (rde_fail e) as [|[|] rest]; cbn;
             rewrite ?app_nil_r, ?Hthr; repeat split.
        -- rewrite app_nil_r, Hthr. repeat split.
      * rewrite app_nil_r, Hthr. repeat split.
Qed.
Lemma control_close_pair (e : world) (key : ctl_conn -> bool) (c : ctl_conn) :
  control_close e key c = (fst (control_close e key c), 1).
Proof. reflexivity. Qed.

Lemma control_close_signals (e : world) (key : ctl_conn -> bool)
    (c : ctl_conn) :
  exists l,
    rde_ctl (fst (control_close e key c)) = rde_ctl e ++ l /\
    Forall no_signal l.
Proof.
  destruct (control_close_effect e key c) as (_ & _ & _ & _ & Hq).
  eexists. split; [exact Hq|].
  destruct (terminate c && negb (ibuf_pid c =? 0) && send_ok e);
    repeat constructor.
Qed.

(** The dispatcher and the XON signal: what one call hands to the RDE
    and what becomes of the throttled flag of the connection it serves,
    when it returns 0 (the connection stays open). *)
Lemma dispatch_flow_control (e : world) (pfd : pollfd) (peers : list peer)
    (io : io_script) (c : ctl_conn) :
  control_connbyfd (pfd_fd pfd) (ctl_conns e) = Some c ->
  let fire := xon_due c (revents pfd) (wr io) && send_ok e in
  let e' := fst (fst (control_dispatch_msg e pfd peers io)) in
  let r := snd (control_dispatch_msg e pfd peers io) in
  (exists rest,
     rde_ctl e' =
       rde_ctl e ++
       (if fire then [mk_ctl_msg IMSG_XON 0 (ibuf_pid c) PNone] else []) ++
       rest /\
     Forall no_signal rest) /\
  (r = 0 ->
   exists c',
     control_connbyfd (pfd_fd pfd) (ctl_conns e') = Some c' /\
     throttled c' = throttled c && negb fire).
Proof.
  intros Hfind fire e' r. subst e' r.
  pose proof (connbyfd_fd _ _ _ Hfind) as Hfd.
  unfold control_dispatch_msg. rewrite Hfind. cbv zeta.
  pose proof (dispatch_pollout_flow e c (revents pfd) (wr io)) as Hpo.
  cbv zeta in Hpo. fold fire in Hpo.
  destruct (dispatch_pollout e c (revents pfd) (wr io)) as [[e1 c1]|].
  - destruct Hpo as (Hq1 & Hconns1 & Hthr1 & Hfd1).
    destruct (Z.land (revents pfd) POLLIN =? 0).
    + cbn [fst snd]. split.
      * exists []. rewrite app_nil_r. split; [exact Hq1 | constructor].
      * intros _. exists c1. split; [|exact Hthr1].
        unfold commit. cbn [ctl_conns set_conns]. rewrite Hconns1.
        eapply connbyfd_store; [exact Hfind | congruence].
    + destruct (imsg_read_nofd (recvs io)) as [n err].
      destruct ((n =? -1) && negb (is_EAGAIN err) || (n =? 0)).
      * rewrite control_close_pair. cbn [fst snd].
        split; [|discriminate].
        destruct (control_close_signals e1 (by_fd (pfd_fd pfd)) c1)
          as (l & Hl & Hsig).
        exists l. rewrite Hl, Hq1, <- app_assoc. split; [reflexivity|].
        exact Hsig.
      * destruct (dispatch_loop_flow (frames io) (mk_dstate c1 peers e1))
          as [[Hthr2 Hfd2] (Hconns2 & l2 & Hq2 & Hsig2)].
        cbn [d_conn d_env] in Hthr2, Hfd2, Hconns2, Hq2.
        destruct (frames_corrupt io).
        -- rewrite control_close_pair. cbn [fst snd].
           split; [|discriminate].
           destruct (control_close_signals
                       (d_env (dispatch_loop (mk_dstate c1 peers e1)
                                 (frames io)))
                       (by_fd (pfd_fd pfd))
                       (d_conn (dispatch_loop (mk_dstate c1 peers e1)
                                  (frames io))))
             as (l & Hl & Hsig).
           exists (l2 ++ l). rewrite Hl, Hq2, Hq1, <- !app_assoc.
           split; [reflexivity|]. apply Forall_app. split; assumption.
        -- cbn [fst snd]. split.
           ++ exists l2. unfold commit. cbn [rde_ctl set_conns].
              rewrite Hq2, Hq1, <- app_assoc. split; [reflexivity|].
              exact Hsig2.
           ++ intros _. eexists. split.
              ** unfold commit. cbn [ctl_conns set_conns].
                 rewrite Hconns2, Hconns1.
                 eapply connbyfd_store; [exact Hfind | congruence].
              ** congruence.
  - rewrite control_close_pair. cbn [fst snd]. rewrite Hpo.
    split; [|discriminate].
    destruct (control_close_signals e (by_fd (pfd_fd pfd)) c)
      as (l & Hl & Hsig).
    exists l. split; [exact Hl | exact Hsig].
Qed.

Lemma xon_due_meaning (c : ctl_conn) (rev : Z) (w : msgbuf_write_outcome) :
  xon_due c rev w = true ->
  Z.land rev POLLOUT <> 0 /\ write_failed w = false /\
  throttled c = true /\ queued (after_write c w) < CTL_MSG_LOW_MARK.
Proof.
  unfold xon_due. intro Hd.
  apply andb_prop in Hd. destruct Hd as [Hd Hlow].
  apply andb_prop in Hd. destruct Hd as [Hd Hthr].
  apply andb_prop in Hd. destruct Hd as [Hpoll Hw].
  apply negb_true_iff in Hpoll, Hw. apply Z.eqb_neq in Hpoll.
  apply Z.ltb_lt in Hlow. auto.
Qed.

(** C3, as amended.  (1) A reply other than a neighbor-show reply that
    is relayed to a connection which is not throttled and whose queue
    is longer than the high mark hands exactly one XOFF for the reply's
    pid to the RDE and marks the connection throttled, provided the
    hand-over succeeds.  (2) While the connection is throttled the
    relay hands nothing to the RDE and the flag stays set.  (3) What
    the relay hands the RDE, for every reply it has a result for: that
    one XOFF exactly when the reply is no neighbor-show reply, its
    connection is found, is not throttled and has more than the high
    mark queued, and the hand-over succeeds; nothing in every other
    case.  (4) A neighbor-show reply that holds the statistics and
    comes with a peer is relayed, whatever the length of the queue,
    without anything going to the RDE and without a change of the
    throttled flag.  (5) One call of the dispatcher hands the RDE an
    XON for the connection's pid, before anything else, exactly when
    the XON is due and the hand-over succeeds, and no other
    flow-control signal; if the connection stays open its flag is
    cleared exactly then.  (6) An XON is due only on POLLOUT, for a
    throttled connection whose queue after the write is shorter than
    the low mark.  (7) The low mark lies below the high mark, so no XON
    is due while the queue after the write is still longer than the
    high mark.  The relay has no result only for a neighbor-show reply
    whose payload does not hold the statistics struct. *)
Theorem flow_control_hysteresis :
  (forall e m p c,
     control_connbypid (pid (hdr m)) (ctl_conns e) = Some c ->
     is_show_neighbor (type (hdr m)) = false ->
     throttled c = false ->
     queued c > CTL_MSG_HIGH_MARK ->
     send_ok e = true ->
     exists e',
       control_imsg_relay e m p = Some (e', p, 1) /\
       rde_ctl e' =
         rde_ctl e ++ [mk_ctl_msg IMSG_XOFF 0 (pid (hdr m)) PNone] /\
       exists c',
         control_connbypid (pid (hdr m)) (ctl_conns e') = Some c' /\
         throttled c' = true) /\
  (forall e m p c,
     control_connbypid (pid (hdr m)) (ctl_conns e) = Some c ->
     throttled c = true ->
     match control_imsg_relay e m p with
     | None =>
         type (hdr m) = IMSG_CTL_SHOW_NEIGHBOR /\
         (len (hdr m) < IMSG_HEADER_SIZE + sizeof_rde_peer_stats \/
          forall s, data m <> PStats s)
     | Some (e', _, _) =>
         rde_ctl e' = rde_ctl e /\
         exists c',
           control_connbypid (pid (hdr m)) (ctl_conns e') = Some c' /\
           throttled c' = true
     end) /\
  (forall e m p e' p' r,
     control_imsg_relay e m p = Some (e', p', r) ->
     rde_ctl e' =
       rde_ctl e ++
       match control_connbypid (pid (hdr m)) (ctl_conns e) with
       | None => []
       | Some c =>
           if match type (hdr m) with
              | IMSG_CTL_SHOW_NEIGHBOR => false
              | _ => true
              end &&
              negb (throttled c) && (queued c >? CTL_MSG_HIGH_MARK) &&
              send_ok e
           then [mk_ctl_msg IMSG_XOFF 0 (pid (hdr m)) PNone]
           else []
       end) /\
  (forall e m p0 c s,
     control_connbypid (pid (hdr m)) (ctl_conns e) = Some c ->
     type (hdr m) = IMSG_CTL_SHOW_NEIGHBOR ->
     len (hdr m) = IMSG_HEADER_SIZE + sizeof_rde_peer_stats ->
     data m = PStats s ->
     exists e' p1,
       control_imsg_relay e m (Some p0) = Some (e', Some p1, 1) /\
       rde_ctl e' = rde_ctl e /\
       exists c',
         control_connbypid (pid (hdr m)) (ctl_conns e') = Some c' /\
         throttled c' = throttled c /\
         ibuf_w c' =
           ibuf_w c ++
           [mk_ctl_msg IMSG_CTL_SHOW_NEIGHBOR 0 (pid (hdr m)) (PPeer p1)]) /\
  (forall e pfd peers io c,
     control_connbyfd (pfd_fd pfd) (ctl_conns e) = Some c ->
     let fire := xon_due c (revents pfd) (wr io) && send_ok e in
     let e' := fst (fst (control_dispatch_msg e pfd peers io)) in
     (exists rest,
        rde_ctl e' =
          rde_ctl e ++
          (if fire then [mk_ctl_msg IMSG_XON 0 (ibuf_pid c) PNone] else []) ++
          rest /\
        Forall no_signal rest) /\
     (snd (control_dispatch_msg e pfd peers io) = 0 ->
      exists c',
        control_connbyfd (pfd_fd pfd) (ctl_conns e') = Some c' /\
        throttled c' = throttled c && negb fire)) /\
  (forall c rev w,
     xon_due c rev w = true ->
     Z.land rev POLLOUT <> 0 /\ write_failed w = false /\
     throttled c = true /\ queued (after_write c w) < CTL_MSG_LOW_MARK) /\
  (CTL_MSG_LOW_MARK < CTL_MSG_HIGH_MARK /\
   forall c rev w,
     queued (after_write c w) > CTL_MSG_HIGH_MARK -> xon_due c rev w = false).
Proof.
  split; [|split; [|split; [|split; [|split; [|split]]]]].
  - intros e m p c Hfind Hns Hthr Hq Hok.
    destruct (relay_forward_result e m p c Hfind Hns) as (e' & Hrel).
    pose proof (relay_flow_control e m p c Hfind) as Hfc.
    cbv zeta in Hfc. rewrite Hrel in Hfc.
    destruct Hfc as (Hrde & _ & c' & Hc' & Ht').
    assert (Hdue : xoff_due c = true).
    { unfold xoff_due. rewrite Hthr. apply Z.gtb_gt in Hq. rewrite Hq.
      reflexivity. }
    rewrite Hns, Hdue, Hok in Hrde, Ht'. cbn [negb andb] in Hrde, Ht'.
    exists e'. split; [exact Hrel|]. split; [exact Hrde|].
    exists c'. split; [exact Hc'|]. rewrite Ht'. apply orb_true_r.
  - intros e m p c Hfind Hthr.
    pose proof (relay_flow_control e m p c Hfind) as Hfc. cbv zeta in Hfc.
    destruct (control_imsg_relay e m p) as [[[e' p'] r]|]; [|exact Hfc].
    destruct Hfc as (Hrde & _ & c' & Hc' & Ht').
    assert (Hdue : xoff_due c = false).
    { unfold xoff_due. rewrite Hthr. reflexivity. }
    rewrite Hdue, andb_false_r in Hrde, Ht'. cbn [andb] in Hrde, Ht'.
    rewrite app_nil_r in Hrde. split; [exact Hrde|].
    exists c'. split; [exact Hc'|]. rewrite Ht', Hthr. reflexivity.
  - intros e m p e' p' r Hrel.
    destruct (control_connbypid (pid (hdr m)) (ctl_conns e)) as [c|] eqn:Hfind.
    + pose proof (relay_flow_control e m p c Hfind) as Hfc.
      cbv zeta in Hfc. rewrite Hrel in Hfc. destruct Hfc as (Hrde & _).
      rewrite Hrde. unfold xoff_due. f_equal.
      assert (Hty : negb (is_show_neighbor (type (hdr m))) =
                    match type (hdr m) with
                    | IMSG_CTL_SHOW_NEIGHBOR => false
                    | _ => true
                    end).
      { destruct (type (hdr m)); reflexivity. }
      rewrite Hty, !andb_assoc. reflexivity.
    + revert Hrel. unfold control_imsg_relay. cbv zeta. rewrite Hfind.
      intro E. injection E as <- _ _. symmetry. apply app_nil_r.
  - intros e m p0 c s Hfind Ht Hlen Hd.
    pose proof (connbypid_pid _ _ _ Hfind) as Hpid.
    eexists. eexists. split; [exact (relay_merge_result e m p0 c s Hfind Ht
                                       Hlen Hd)|].
    split; [reflexivity|]. eexists. split.
    + unfold commit. cbn [ctl_conns set_conns].
      eapply connbypid_store; [exact Hfind | exact Hpid].
    + split; reflexivity.
  - intros e pfd peers io c Hfind fire e'.
    exact (dispatch_flow_control e pfd peers io c Hfind).
  - exact xon_due_meaning.
  - split; [exact marks_ordered|]. intros c rev w Hq.
    destruct (xon_due c rev w) eqn:Hd; [|reflexivity].
    apply xon_due_meaning in Hd. destruct Hd as (_ & _ & _ & Hlow).
    pose proof marks_ordered. lia.
Qed.

(** C10.  In the relay, for the connection the reply belongs to: the
    throttled flag goes from clear to set only if the hand-over of the
    XOFF succeeds, and then exactly that XOFF has been handed to the
    RDE; a set flag stays set; if the hand-over fails the flag keeps
    its value.  This holds for every reply the relay gives a result
    for, and it gives none only for a neighbor-show reply whose payload
    does not hold the statistics struct.  In the dispatcher, for the
    connection it serves and leaves open: the flag goes from set to
    clear only if the hand-over of the XON succeeds, and then that XON
    has been handed to the RDE; a clear flag stays clear; if the
    hand-over fails the flag keeps its value. *)
Theorem throttled_follows_handover :
  (forall e m p c,
     control_connbypid (pid (hdr m)) (ctl_conns e) = Some c ->
     match control_imsg_relay e m p with
     | None =>
         type (hdr m) = IMSG_CTL_SHOW_NEIGHBOR /\
         (len (hdr m) < IMSG_HEADER_SIZE + sizeof_rde_peer_stats \/
          forall s, data m <> PStats s)
     | Some (e', _, _) =>
         exists c',
           control_connbypid (pid (hdr m)) (ctl_conns e') = Some c' /\
           (throttled c = false -> throttled c' = true ->
            send_ok e = true /\
            rde_ctl e' =
              rde_ctl e ++ [mk_ctl_msg IMSG_XOFF 0 (pid (hdr m)) PNone]) /\
           (throttled c = true -> throttled c' = true) /\
           (send_ok e = false -> throttled c' = throttled c)
     end) /\
  (forall e pfd peers io c,
     control_connbyfd (pfd_fd pfd) (ctl_conns e) = Some c ->
     snd (control_dispatch_msg e pfd peers io) = 0 ->
     let e' := fst (fst (control_dispatch_msg e pfd peers io)) in
     exists c',
       control_connbyfd (pfd_fd pfd) (ctl_conns e') = Some c' /\
       (throttled c = true -> throttled c' = false ->
        send_ok e = true /\
        exists rest,
          rde_ctl e' =
            rde_ctl e ++ mk_ctl_msg IMSG_XON 0 (ibuf_pid c) PNone :: rest) /\
       (throttled c = false -> throttled c' = false) /\
       (send_ok e = false -> throttled c' = throttled c)).
Proof.
  split.
  - intros e m p c Hfind.
    pose proof (relay_flow_control e m p c Hfind) as Hfc. cbv zeta in Hfc.
    destruct (control_imsg_relay e m p) as [[[e' p'] r]|]; [|exact Hfc].
    destruct Hfc as (Hrde & _ & c' & Hc' & Ht').
    exists c'. split; [exact Hc'|].
    destruct (negb (is_show_neighbor (type (hdr m))) && xoff_due c) eqn:Hd;
      cbn [andb] in Hrde, Ht'.
    + destruct (send_ok e); rewrite Ht'.
      * split; [intros _ _; split; [reflexivity | exact Hrde]|].
        split; [intros _; apply orb_true_r | discriminate].
      * rewrite orb_false_r. split; [congruence|]. split; auto.
    + rewrite Ht', orb_false_r. split; [congruence|]. split; auto.
  - intros e pfd peers io c Hfind Hr e'.
    destruct (dispatch_flow_control e pfd peers io c Hfind)
      as ((rest & Hrde & _) & Hopen).
    destruct (Hopen Hr) as (c' & Hc' & Ht'). fold e' in Hrde, Hc'.
    exists c'. split; [exact Hc'|].
    destruct (xon_due c (revents pfd) (wr io)); cbn [andb negb] in Hrde, Ht'.
    + destruct (send_ok e); cbn [negb] in Ht'; rewrite Ht'.
      * split; [intros _ _; split; [reflexivity|]; exists rest; exact Hrde|].
        split; [intros ->; reflexivity | discriminate].
      * rewrite andb_true_r. split; [congruence|]. split; auto.
    + rewrite andb_true_r in Ht'. rewrite Ht'.
      split; [congruence|]. split; auto.
Qed.

End Properties.

(** * The model on concrete inputs *)

Lemma Forall2_map_eq (A B : Type) (f g : A -> B) (R : A -> A -> Prop)
    (l l' : list A) :
  (forall a a', R a a' -> f a' = g a) -> Forall2 R l l' ->
  map f l' = map g l.
Proof.
  intros HR Hf. induction Hf as [|a a' l l' Ha Hf IH]; simpl; [reflexivity|].
  rewrite (HR a a' Ha), IH. reflexivity.
Defined.

(** The empty selector matches every peer. *)
Lemma peer_matched_spec_empty (p : peer) (n : ctl_neighbor) :
  n_id n = 0 -> n_descr n = EmptyString ->
  peer_matched_spec p (Some n) = true /\
  peer_matched (Headers := session_h) p
    (Some (terminate_descr (H := session_h) n)) = true.
Proof.
  intros Hid Hd. unfold terminate_descr. simpl. unfold peer_matched_spec.
  simpl. rewrite Hid, Hd. split; reflexivity.
Qed.

Lemma restricted_denied_witness :
  restricted (d_conn st_restricted) = true /\
  ~ In (type (hdr (neighbor_msg IMSG_CTL_NEIGHBOR_DESTROY select_all)))
      readonly_allowlist /\
  ibuf_w
    (d_conn
       (control_dispatch_imsg (H := session_h) st_restricted
          (neighbor_msg IMSG_CTL_NEIGHBOR_DESTROY select_all))) =
  [mk_ctl_msg IMSG_CTL_RESULT 0 0 (PResult CTL_RES_DENIED)] /\
  d_peers
    (control_dispatch_imsg (H := session_h) st_restricted
       (neighbor_msg IMSG_CTL_NEIGHBOR_DESTROY select_all)) = sample_peers /\
  rde_ctl
    (d_env
       (control_dispatch_imsg (H := session_h) st_restricted
          (neighbor_msg IMSG_CTL_NEIGHBOR_DESTROY select_all))) = [] /\
  parent_ctl
    (d_env
       (control_dispatch_imsg (H := session_h) st_restricted
          (neighbor_msg IMSG_CTL_NEIGHBOR_DESTROY select_all))) = [].
Proof.
  assert (Hout :
    ~ In (type (hdr (neighbor_msg IMSG_CTL_NEIGHBOR_DESTROY select_all)))
        readonly_allowlist).
  { simpl. intuition discriminate. }
  split; [reflexivity|]. split; [exact Hout|].
  destruct (restricted_denied (H := session_h) st_restricted
              (neighbor_msg IMSG_CTL_NEIGHBOR_DESTROY select_all)
              eq_refl Hout)
    as (_ & _ & Hw & _ & _ & _ & _ & _ & Hp & Hrde & Hpar & _).
  split; [exact Hw|]. split; [exact Hp|]. split; [exact Hrde | exact Hpar].
Defined.

Lemma destroy_neighbor_outcome_witness :
  type (hdr (neighbor_msg IMSG_CTL_NEIGHBOR_DESTROY select_all)) =
    IMSG_CTL_NEIGHBOR_DESTROY /\
  len (hdr (neighbor_msg IMSG_CTL_NEIGHBOR_DESTROY select_all)) =
    IMSG_HEADER_SIZE (Headers := session_h) +
    sizeof_ctl_neighbor (Headers := session_h) /\
  ibuf_w
    (d_conn
       (control_handle (H := session_h) st_sample
          (neighbor_msg IMSG_CTL_NEIGHBOR_DESTROY select_all))) =
  [mk_ctl_msg IMSG_CTL_RESULT 0 0 (PResult CTL_RES_BADPEER);
   mk_ctl_msg IMSG_CTL_RESULT 0 0 (PResult CTL_RES_OK);
   mk_ctl_msg IMSG_CTL_RESULT 0 0 (PResult CTL_RES_BADSTATE)] /\
  map reconf_action
    (d_peers
       (control_handle (H := session_h) st_sample
          (neighbor_msg IMSG_CTL_NEIGHBOR_DESTROY select_all))) =
  [RECONF_OTHER 0; RECONF_DELETE; RECONF_OTHER 0] /\
  map (fun p => id (conf p))
    (d_peers
       (control_handle (H := session_h) st_sample
          (neighbor_msg IMSG_CTL_NEIGHBOR_DESTROY select_all))) = [1; 2; 3].
Proof.
  split; [reflexivity|]. split; [reflexivity|].
  destruct (destroy_neighbor_outcome (H := session_h) st_sample
              (neighbor_msg IMSG_CTL_NEIGHBOR_DESTROY select_all)
              eq_refl eq_refl) as (Hw & Hf & _ & Hids & _).
  split; [exact Hw|]. split; [|exact Hids].
  exact (Forall2_map_eq _ _ _ _ _ _ _ (fun a a' Ha => proj1 Ha) Hf).
Defined.

Lemma neighbor_command_replies_witness :
  neighbor_cmd_of (type (hdr (neighbor_msg IMSG_CTL_NEIGHBOR_UP select_all))) =
    Some CMD_UP /\
  len (hdr (neighbor_msg IMSG_CTL_NEIGHBOR_UP select_all)) =
    IMSG_HEADER_SIZE (Headers := session_h) +
    sizeof_ctl_neighbor (Headers := session_h) /\
  (forall p, In p (d_peers st_sample) ->
             peer_matched (Headers := session_h) p (Some select_all) = true) /\
  exists per_peer aggregate,
    ibuf_w
      (d_conn
         (control_handle (H := session_h) st_sample
            (neighbor_msg IMSG_CTL_NEIGHBOR_UP select_all))) =
      ibuf_w (d_conn st_sample) ++ per_peer ++ aggregate /\
    length per_peer = length (d_peers st_sample) /\
    aggregate = [].
Proof.
  assert (Hall : forall p, In p (d_peers st_sample) ->
                 peer_matched (Headers := session_h) p (Some select_all) = true).
  { intros p _. reflexivity. }
  split; [reflexivity|]. split; [reflexivity|]. split; [exact Hall|].
  destruct (neighbor_command_replies (H := session_h) st_sample
              (neighbor_msg IMSG_CTL_NEIGHBOR_UP select_all) CMD_UP
              eq_refl eq_refl)
    as (per_peer & aggregate & Hw & _ & _ & _ & _ & Hevery).
  destruct (Hevery Hall) as [Hlen Hagg].
  exists per_peer, aggregate. split; [exact Hw|]. split; [exact Hlen|].
  apply Hagg. discriminate.
Defined.

Lemma rib_prefix_unspec_parse_error_witness :
  type (hdr (rib_msg IMSG_CTL_SHOW_RIB_PREFIX select_all 0)) =
    IMSG_CTL_SHOW_RIB_PREFIX /\
  len (hdr (rib_msg IMSG_CTL_SHOW_RIB_PREFIX select_all 0)) =
    IMSG_HEADER_SIZE (Headers := session_h) +
    sizeof_ctl_show_rib_request (Headers := session_h) /\
  prefix_aid (ribreq_of (data (rib_msg IMSG_CTL_SHOW_RIB_PREFIX select_all 0)))
    = AID_UNSPEC (Headers := session_h) /\
  ibuf_w
    (d_conn
       (control_dispatch_imsg (H := session_h) st_sample
          (rib_msg IMSG_CTL_SHOW_RIB_PREFIX select_all 0))) =
  ibuf_w (d_conn st_sample) ++
  [result_msg (ibuf_pid (d_conn st_sample)) CTL_RES_PARSE_ERROR].
Proof.
  split; [reflexivity|]. split; [reflexivity|]. split; [reflexivity|].
  apply (rib_prefix_unspec_parse_error (H := session_h) st_sample
           (rib_msg IMSG_CTL_SHOW_RIB_PREFIX select_all 0)
           eq_refl eq_refl eq_refl eq_refl).
Defined.

(** C7, counterexample.  With no peers configured the same request is
    answered with no-such-peer, not with parse-error. *)
Lemma rib_prefix_unspec_without_peers :
  type (hdr (rib_msg IMSG_CTL_SHOW_RIB_PREFIX select_all 0)) =
    IMSG_CTL_SHOW_RIB_PREFIX /\
  len (hdr (rib_msg IMSG_CTL_SHOW_RIB_PREFIX select_all 0)) =
    IMSG_HEADER_SIZE (Headers := session_h) +
    sizeof_ctl_show_rib_request (Headers := session_h) /\
  prefix_aid (ribreq_of (data (rib_msg IMSG_CTL_SHOW_RIB_PREFIX select_all 0)))
    = AID_UNSPEC (Headers := session_h) /\
  ibuf_w
    (d_conn
       (control_dispatch_imsg (H := session_h) st_no_peers
          (rib_msg IMSG_CTL_SHOW_RIB_PREFIX select_all 0))) =
  [result_msg 0 CTL_RES_NOSUCHPEER] /\
  ibuf_w
    (d_conn
       (control_dispatch_imsg (H := session_h) st_no_peers
          (rib_msg IMSG_CTL_SHOW_RIB_PREFIX select_all 0))) <>
  ibuf_w (d_conn st_no_peers) ++
  [result_msg (ibuf_pid (d_conn st_no_peers)) CTL_RES_PARSE_ERROR].
Proof.
  repeat split. discriminate.
Qed.

(** C1.  The code on a selector that matches none of three configured
    peers: the rib request is forwarded to the RDE and the connection
    is marked as waiting for a bulk reply, the neighbor request sends
    the end marker to the RDE, and neither is answered with
    no-such-peer. *)
Theorem unmatched_selector_forwarded :
  d_peers st_sample <> [] /\
  existsb
    (fun p => peer_matched (Headers := session_h) p (Some select_absent))
    (d_peers st_sample) = false /\
  control_dispatch_imsg (H := session_h) st_sample
    (rib_msg IMSG_CTL_SHOW_RIB select_absent 1) =
  mk_dstate (mk_ctl_conn 7 4242 [] false false true) sample_peers
    (mk_world [conn_open] 0
       [mk_ctl_msg IMSG_CTL_SHOW_RIB 0 4242
          (PRibReq (mk_ctl_show_rib_request select_absent 1 0))]
       [] [] [] [] 0) /\
  control_dispatch_imsg (H := session_h) st_sample
    (neighbor_msg IMSG_CTL_SHOW_NEIGHBOR select_absent) =
  mk_dstate (mk_ctl_conn 7 4242 [] false false false) sample_peers
    (mk_world [conn_open] 0 [mk_ctl_msg IMSG_CTL_END 0 4242 PNone]
       [] [] [] [] 0).
Proof.
  split; [discriminate|]. repeat split.
Qed.

Lemma relay_neighbor_dropped_witness :
  type (hdr reply_neighbor_long) = IMSG_CTL_SHOW_NEIGHBOR /\
  len (hdr reply_neighbor_long) >
    IMSG_HEADER_SIZE (Headers := session_h) +
    sizeof_rde_peer_stats (Headers := session_h) /\
  exists e',
    control_imsg_relay (H := session_h) (world_idle [conn_bulk])
      reply_neighbor_long (Some peer_static) =
    Some (e', Some peer_static, 0) /\
    ctl_conns e' = ctl_conns (world_idle [conn_bulk]) /\
    rde_ctl e' = rde_ctl (world_idle [conn_bulk]) /\
    parent_ctl e' = parent_ctl (world_idle [conn_bulk]).
Proof.
  assert (Hlen : len (hdr reply_neighbor_long) >
                 IMSG_HEADER_SIZE (Headers := session_h) +
                 sizeof_rde_peer_stats (Headers := session_h)).
  { vm_compute. reflexivity. }
  split; [reflexivity|]. split; [exact Hlen|].
  apply (relay_neighbor_dropped (H := session_h) (world_idle [conn_bulk])
           reply_neighbor_long (Some peer_static) eq_refl (or_introl Hlen)).
Defined.

(** C4, counterexample.  Closing a connection that waits for a bulk
    reply sends IMSG_CTL_TERMINATE for its pid to the RDE. *)
Lemma close_sends_terminate :
  terminate conn_bulk = true /\
  rde_ctl (world_idle [conn_bulk]) = [] /\
  rde_ctl (fst (control_close (world_idle [conn_bulk]) (by_fd 9) conn_bulk)) =
  [mk_ctl_msg IMSG_CTL_TERMINATE 0 4242 PNone].
Proof.
  repeat split.
Qed.

Lemma close_abandons_connection_witness :
  NoDup (map ibuf_fd (ctl_conns (world_idle [conn_open; conn_bulk]))) /\
  control_connbyfd (ibuf_fd conn_bulk)
    (ctl_conns (world_idle [conn_open; conn_bulk])) = Some conn_bulk /\
  (forall c2, In c2 (ctl_conns (world_idle [conn_open; conn_bulk])) ->
              ibuf_pid c2 = ibuf_pid conn_bulk -> c2 = conn_bulk) /\
  control_connbyfd 9
    (ctl_conns
       (fst (control_close (world_idle [conn_open; conn_bulk])
               (by_fd (ibuf_fd conn_bulk)) conn_bulk))) = None /\
  control_connbyfd 7
    (ctl_conns
       (fst (control_close (world_idle [conn_open; conn_bulk])
               (by_fd (ibuf_fd conn_bulk)) conn_bulk))) = Some conn_open /\
  rde_ctl
    (fst (control_close (world_idle [conn_open; conn_bulk])
            (by_fd (ibuf_fd conn_bulk)) conn_bulk)) =
  [mk_ctl_msg IMSG_CTL_TERMINATE 0 4242 PNone] /\
  control_imsg_relay (H := session_h)
    (fst (control_close (world_idle [conn_open; conn_bulk])
            (by_fd (ibuf_fd conn_bulk)) conn_bulk))
    reply_rib None =
  Some (fst (control_close (world_idle [conn_open; conn_bulk])
               (by_fd (ibuf_fd conn_bulk)) conn_bulk), None, 0).
Proof.
  assert (Hnd : NoDup (map ibuf_fd
                         (ctl_conns (world_idle [conn_open; conn_bulk])))).
  { simpl. repeat constructor; simpl; intuition discriminate. }
  assert (Huniq : forall c2,
            In c2 (ctl_conns (world_idle [conn_open; conn_bulk])) ->
            ibuf_pid c2 = ibuf_pid conn_bulk -> c2 = conn_bulk).
  { simpl. intros c2 [<- | [<- | []]] Hp; [discriminate Hp | reflexivity]. }
  assert (Hne : 7 <> ibuf_fd conn_bulk) by discriminate.
  split; [exact Hnd|]. split; [reflexivity|]. split; [exact Huniq|].
  destruct (close_abandons_connection (H := session_h)
              (world_idle [conn_open; conn_bulk]) conn_bulk)
    as (_ & Hrde & Hothers & Hlist).
  destruct (Hlist eq_refl Hnd) as (_ & Hgone & _ & Hdrop).
  split; [exact Hgone|]. split; [exact (Hothers 7 Hne)|].
  split; [exact Hrde|]. apply (Hdrop Huniq). reflexivity.
Defined.

(** C3, counterexample.  A neighbor-show reply relayed to a connection
    that is not throttled and has 501 queued messages, above the high
    mark of 500: no XOFF is sent and the connection is not marked
    throttled, while the reply is queued.  And a rib reply relayed to
    the same connection when the hand-over to the RDE fails: no XOFF
    reaches the RDE and the connection is not marked throttled. *)
Lemma relay_without_xoff :
  control_connbypid (pid (hdr reply_neighbor))
    (ctl_conns (world_idle [conn_backlog])) = Some conn_backlog /\
  throttled conn_backlog = false /\
  queued conn_backlog > CTL_MSG_HIGH_MARK (Headers := session_h) /\
  send_ok (world_idle [conn_backlog]) = true /\
  (exists e' p1,
     control_imsg_relay (H := session_h) (world_idle [conn_backlog])
       reply_neighbor (Some peer_static) = Some (e', Some p1, 1) /\
     rde_ctl e' = [] /\
     map (fun c => (throttled c, length (ibuf_w c))) (ctl_conns e') =
       [(false, 502%nat)]) /\
  (exists e',
     control_imsg_relay (H := session_h)
       (mk_world [conn_backlog] 0 [] [true] [] [] [] 0) reply_rib None =
     Some (e', None, 1) /\
     rde_ctl e' = [] /\
     map (fun c => (throttled c, length (ibuf_w c))) (ctl_conns e') =
       [(false, 502%nat)]).
Proof.
  split; [reflexivity|]. split; [reflexivity|].
  split; [vm_compute; reflexivity|]. split; [reflexivity|]. split.
  - eexists. eexists. split; [vm_compute; reflexivity|].
    split; vm_compute; reflexivity.
  - eexists. split; [vm_compute; reflexivity|].
    split; vm_compute; reflexivity.
Qed.

Lemma flow_control_hysteresis_witness :
  (control_connbypid (pid (hdr reply_rib))
     (ctl_conns (world_idle [conn_backlog])) = Some conn_backlog /\
   is_show_neighbor (type (hdr reply_rib)) = false /\
   throttled conn_backlog = false /\
   queued conn_backlog > CTL_MSG_HIGH_MARK (Headers := session_h) /\
   send_ok (world_idle [conn_backlog]) = true /\
   exists e',
     control_imsg_relay (H := session_h) (world_idle [conn_backlog])
       reply_rib None = Some (e', None, 1) /\
     rde_ctl e' = [mk_ctl_msg IMSG_XOFF 0 4242 PNone] /\
     exists c',
       control_connbypid 4242 (ctl_conns e') = Some c' /\
       throttled c' = true) /\
  (type (hdr reply_neighbor) = IMSG_CTL_SHOW_NEIGHBOR /\
   len (hdr reply_neighbor) =
     IMSG_HEADER_SIZE (Headers := session_h) +
     sizeof_rde_peer_stats (Headers := session_h) /\
   exists e' p1,
     control_imsg_relay (H := session_h) (world_idle [conn_backlog])
       reply_neighbor (Some peer_static) = Some (e', Some p1, 1) /\
     rde_ctl e' = [] /\
     exists c',
       control_connbypid 4242 (ctl_conns e') = Some c' /\
       throttled c' = false /\
       ibuf_w c' =
         ibuf_w conn_backlog ++
         [mk_ctl_msg IMSG_CTL_SHOW_NEIGHBOR 0 4242 (PPeer p1)]) /\
  (control_connbyfd (pfd_fd pfd_writable)
     (ctl_conns (world_idle [conn_throttled])) = Some conn_throttled /\
   snd (control_dispatch_msg (H := session_h) (world_idle [conn_throttled])
          pfd_writable sample_peers io_drained) = 0 /\
   exists c',
     control_connbyfd (pfd_fd pfd_writable)
       (ctl_conns
          (fst (fst (control_dispatch_msg (H := session_h)
                       (world_idle [conn_throttled]) pfd_writable
                       sample_peers io_drained)))) = Some c' /\
     throttled c' =
       throttled conn_throttled &&
       negb (xon_due (H := session_h) conn_throttled (revents pfd_writable)
               (wr io_drained) &&
             send_ok (world_idle [conn_throttled]))).
Proof.
  assert (Hq : queued conn_backlog > CTL_MSG_HIGH_MARK (Headers := session_h)).
  { vm_compute. reflexivity. }
  destruct (flow_control_hysteresis (H := session_h))
    as (Hxoff & _ & _ & Hshow & Hxon & _ & _).
  split; [|split].
  - split; [reflexivity|]. split; [reflexivity|]. split; [reflexivity|].
    split; [exact Hq|]. split; [reflexivity|].
    apply (Hxoff (world_idle [conn_backlog]) reply_rib None conn_backlog
             eq_refl eq_refl eq_refl Hq eq_refl).
  - split; [reflexivity|]. split; [reflexivity|].
    apply (Hshow (world_idle [conn_backlog]) reply_neighbor peer_static
             conn_backlog sample_stats eq_refl eq_refl eq_refl eq_refl).
  - split; [reflexivity|]. split; [reflexivity|].
    apply (Hxon (world_idle [conn_throttled]) pfd_writable sample_peers
             io_drained conn_throttled eq_refl). reflexivity.
Defined.

Lemma throttled_follows_handover_witness :
  control_connbypid (pid (hdr reply_rib))
    (ctl_conns (world_idle [conn_backlog])) = Some conn_backlog /\
  match
    control_imsg_relay (H := session_h) (world_idle [conn_backlog]) reply_rib
      None
  with
  | None => False
  | Some (e', _, _) =>
      exists c',
        control_connbypid (pid (hdr reply_rib)) (ctl_conns e') = Some c' /\
        throttled c' = true /\
        rde_ctl e' = [mk_ctl_msg IMSG_XOFF 0 4242 PNone]
  end.
Proof.
  split; [reflexivity|].
  pose proof (proj1 (throttled_follows_handover (H := session_h))
                (world_idle [conn_backlog]) reply_rib None conn_backlog
                eq_refl) as Hm.
  destruct (control_imsg_relay (H := session_h) (world_idle [conn_backlog])
              reply_rib None) as [[[e' p'] r]|] eqn:Hrel.
  - destruct Hm as (c' & Hc' & Hset & _ & _).
    assert (Ht : throttled c' = true).
    { revert Hrel Hc'. vm_compute. intros E. injection E as <- _ _.
      intro E. injection E as <-. reflexivity. }
    exists c'. split; [exact Hc'|]. split; [exact Ht|].
    exact (proj2 (Hset eq_refl Ht)).
  - destruct Hm as [Ht _]. discriminate Ht.
Defined.

(** * Further properties of control.c *)

(** ** Socket set-up *)


(** X2.  control_check closes its probe socket exactly once whatever
    connect returns, answers -1 when the connect succeeds (a listener
    is alive on the path) and 0 when it fails, and never touches the
    file creation mask; without a socket it answers -1 and makes no
    further call. *)
Theorem control_check_outcome (pr : proc) (path : string) (fd : Z)
    (connect_ok : bool) :
  (let pr' := fst (control_check pr path (Some fd) connect_ok) in
   snd (control_check pr path (Some fd) connect_ok) =
     (if connect_ok then -1 else 0) /\
   calls pr' = calls pr ++ [SysConnect fd path; SysClose fd] /\
   umask_cur pr' = umask_cur pr) /\
  snd (control_check pr path None connect_ok) = -1 /\
  calls (fst (control_check pr path None connect_ok)) = calls pr.
Proof.
  unfold control_check.
  destruct connect_ok; cbn; rewrite <- ?app_assoc; repeat split.
Qed.

(** ** The poll set *)

Lemma fill_pfds_from_spec (conns : list ctl_conn) :
  forall pfd : list pollfd,
  (length conns <= length pfd)%nat ->
  length (fill_pfds_from pfd conns) = length pfd /\
  map revents (fill_pfds_from pfd conns) = map revents pfd /\
  skipn (length conns) (fill_pfds_from pfd conns) =
    skipn (length conns) pfd /\
  Forall2
    (fun c q =>
       pfd_fd q = ibuf_fd c /\
       Z.land (events q) POLLIN = POLLIN /\
       Z.land (events q) POLLOUT =
         match ibuf_w c with [] => 0 | _ :: _ => POLLOUT end)
    conns (firstn (length conns) (fill_pfds_from pfd conns)).
Proof.
  induction conns as [|c rest IH]; intros pfd Hlen; simpl.
  - repeat split. constructor.
  - destruct pfd as [|p ps]; simpl in Hlen; [lia|].
    destruct (IH ps ltac:(lia)) as (Hl & Hr & Hs & Hf).
    cbn [length map skipn firstn revents]. rewrite Hl, Hr.
    split; [reflexivity|]. split; [reflexivity|]. split; [exact Hs|].
    constructor; [|exact Hf]. cbn [pfd_fd events].
    split; [reflexivity|]. unfold queued.
    destruct (ibuf_w c); cbn; split; reflexivity.
Qed.

(** X3.  control_fill_pfds, given an array with room for every
    connection, returns the number of connections and has written one
    entry per connection, in list order: the connection's descriptor,
    interest in POLLIN always, interest in POLLOUT exactly when the
    write queue is not empty.  The revents fields and the entries past
    the connections are as before, and the size argument has no
    influence. *)
Theorem control_fill_pfds_entries (pfd : list pollfd) (size : Z)
    (conns : list ctl_conn) :
  (length conns <= length pfd)%nat ->
  let pfd' := fst (control_fill_pfds pfd size conns) in
  snd (control_fill_pfds pfd size conns) = Z.of_nat (length conns) /\
  length pfd' = length pfd /\
  map revents pfd' = map revents pfd /\
  skipn (length conns) pfd' = skipn (length conns) pfd /\
  Forall2
    (fun c q =>
       pfd_fd q = ibuf_fd c /\
       Z.land (events q) POLLIN = POLLIN /\
       Z.land (events q) POLLOUT =
         match ibuf_w c with [] => 0 | _ :: _ => POLLOUT end)
    conns (firstn (length conns) pfd') /\
  (forall size', control_fill_pfds pfd size' conns =
                 control_fill_pfds pfd size conns).
Proof.
  intros Hlen pfd'. subst pfd'. unfold control_fill_pfds. cbn [fst snd].
  destruct (fill_pfds_from_spec conns pfd Hlen) as (Hl & Hr & Hs & Hf).
  repeat split; assumption.
Qed.

(** ** Reading *)

(** X4.  imsg_read_nofd retries recv for as long as it is interrupted:
    any number of leading EINTR failures changes nothing about the
    result, and EINTR is never the errno it reports. *)
Theorem imsg_read_nofd_retries (k : nat) (script : list recv_outcome) :
  imsg_read_nofd (repeat (RecvFailed EINTR) k ++ script) =
    imsg_read_nofd script /\
  snd (imsg_read_nofd script) <> Some EINTR.
Proof.
  split.
  - induction k as [|k IH]; simpl; [reflexivity | exact IH].
  - induction script as [|r rest IH]; simpl; [discriminate|].
    destruct r as [n | err]; [discriminate|].
    destruct err; try discriminate. exact IH.
Qed.

Section Registry.

Context {H : Headers}.

(** ** What every handler leaves alone *)

Lemma env_extends_refl (e : world) : env_extends e e.
Proof.
  repeat split; exists []; rewrite app_nil_r; reflexivity.
Qed.

Lemma env_extends_trans (e1 e2 e3 : world) :
  env_extends e1 e2 -> env_extends e2 e3 -> env_extends e1 e3.
Proof.
  intros (A1 & B1 & C1 & (r1 & R1) & (p1 & P1) & (s1 & S1))
         (A2 & B2 & C2 & (r2 & R2) & (p2 & P2) & (s2 & S2)).
  split; [congruence|]. split; [congruence|]. split; [congruence|].
  split; [exists (r1 ++ r2); rewrite R2, R1, app_assoc; reflexivity|].
  split; [exists (p1 ++ p2); rewrite P2, P1, app_assoc; reflexivity|].
  exists (s1 ++ s2). rewrite S2, S1, app_assoc. reflexivity.
Qed.

Lemma imsg_ctl_rde_extends (e : world) (t : imsg_type) (peerid p : Z)
    (d : payload) :
  env_extends e (fst (imsg_ctl_rde e t peerid p d)).
Proof.
  destruct (imsg_ctl_rde_frame e t peerid p d) as (A & B & C & D & E & _).
  split; [exact A|]. split; [exact B|]. split; [exact D|].
  split; [rewrite imsg_ctl_rde_queue; eexists; reflexivity|].
  split; [exists []; rewrite C, app_nil_r; reflexivity|].
  exists []. rewrite E, app_nil_r. reflexivity.
Qed.

Lemma imsg_ctl_parent_extends (e : world) (t : imsg_type) (peerid p : Z)
    (d : payload) :
  env_extends e (imsg_ctl_parent e t peerid p d).
Proof.
  repeat split; cbn; try (exists []; rewrite app_nil_r; reflexivity).
  eexists. reflexivity.
Qed.

Lemma log_warn_extends (e : world) (s : string) :
  env_extends e (log_warn e s).
Proof.
  repeat split; cbn; try (exists []; rewrite app_nil_r; reflexivity).
  eexists. reflexivity.
Qed.

Lemma log_setverbose_extends (e : world) (v : Z) :
  env_extends e (log_setverbose e v).
Proof.
  repeat split; cbn; exists []; rewrite app_nil_r; reflexivity.
Qed.

Lemma conn_extends_refl (c : ctl_conn) : conn_extends c c.
Proof.
  repeat split. exists []. rewrite app_nil_r. reflexivity.
Qed.

Lemma conn_extends_trans (c1 c2 c3 : ctl_conn) :
  conn_extends c1 c2 -> conn_extends c2 c3 -> conn_extends c1 c3.
Proof.
  intros (A1 & B1 & C1 & l1 & L1) (A2 & B2 & C2 & l2 & L2).
  split; [congruence|]. split; [congruence|]. split; [congruence|].
  exists (l1 ++ l2). rewrite L2, L1, app_assoc. reflexivity.
Qed.

Lemma imsg_compose_extends (c : ctl_conn) (t : imsg_type) (peerid p : Z)
    (d : payload) :
  conn_extends c (imsg_compose c t peerid p d).
Proof. repeat split. eexists. reflexivity. Qed.

Lemma set_pid_extends (c : ctl_conn) (p : Z) : conn_extends c (set_pid c p).
Proof. repeat split. exists []. cbn. rewrite app_nil_r. reflexivity. Qed.

Lemma set_terminate_extends (c : ctl_conn) (b : bool) :
  conn_extends c (set_terminate c b).
Proof. repeat split. exists []. cbn. rewrite app_nil_r. reflexivity. Qed.

Lemma fold_left_conn_extends (A : Type) (f : ctl_conn -> A -> ctl_conn)
    (l : list A) :
  (forall c a, conn_extends c (f c a)) ->
  forall c, conn_extends c (fold_left f l c).
Proof.
  intro Hf. induction l as [|a rest IH]; intro c; simpl.
  - apply conn_extends_refl.
  - eapply conn_extends_trans; [apply Hf | apply IH].
Qed.

Lemma show_neighbor_timers_extends (c : ctl_conn) (p : peer) :
  conn_extends c (show_neighbor_timers c p).
Proof.
  unfold show_neighbor_timers.
  eapply conn_extends_trans; [apply imsg_compose_extends|].
  apply fold_left_conn_extends. intros c0 i.
  destruct (timer_running p i); [apply imsg_compose_extends|].
  apply conn_extends_refl.
Qed.

Lemma show_terse_extends (c : ctl_conn) (peers : list peer) :
  conn_extends c (show_terse c peers).
Proof.
  unfold show_terse.
  eapply conn_extends_trans; [|apply imsg_compose_extends].
  apply fold_left_conn_extends. intros c0 p. apply imsg_compose_extends.
Qed.

Lemma show_neighbor_loop_extends (neighbor : option ctl_neighbor) (hpid : Z)
    (peers : list peer) :
  forall (c : ctl_conn) (e : world) (matched : bool),
  conn_extends c
    (fst (fst (show_neighbor_loop neighbor hpid peers c e matched))) /\
  env_extends e
    (snd (fst (show_neighbor_loop neighbor hpid peers c e matched))).
Proof.
  induction peers as [|p rest IH]; intros c e matched; simpl.
  - split; [apply conn_extends_refl | apply env_extends_refl].
  - destruct (peer_matched p neighbor); simpl; [|apply IH].
    destruct (wants_timers neighbor); simpl.
    + destruct (IH (show_neighbor_timers c p) e true) as [Hc He].
      split; [|exact He].
      eapply conn_extends_trans; [apply show_neighbor_timers_extends|].
      exact Hc.
    + destruct (IH c
                  (fst (imsg_ctl_rde e IMSG_CTL_SHOW_NEIGHBOR (id (conf p))
                          hpid PNone)) true) as [Hc He].
      split; [exact Hc|].
      eapply env_extends_trans; [|exact He]. apply imsg_ctl_rde_extends.
Qed.

Lemma show_neighbor_extends (c : ctl_conn) (peers : list peer) (e : world)
    (m : imsg) :
  conn_extends c (fst (show_neighbor c peers e m)) /\
  env_extends e (snd (show_neighbor c peers e m)).
Proof.
  unfold show_neighbor.
  set (neighbor :=
         if len (hdr m) =? IMSG_HEADER_SIZE + sizeof_ctl_neighbor
         then Some (terminate_descr (neighbor_of (data m))) else None).
  destruct (show_neighbor_loop_extends neighbor (pid (hdr m)) peers
              (set_pid c (pid (hdr m))) e false) as [Hc He].
  destruct (show_neighbor_loop neighbor (pid (hdr m)) peers
              (set_pid c (pid (hdr m))) e false) as [[c1 e1] matched].
  cbn [fst snd] in Hc, He.
  assert (Hc' : conn_extends c c1).
  { eapply conn_extends_trans; [apply set_pid_extends | exact Hc]. }
  destruct (negb matched && RB_EMPTY peers); cbn [fst snd].
  - split; [|exact He].
    eapply conn_extends_trans; [exact Hc' | apply imsg_compose_extends].
  - destruct (negb (wants_timers neighbor)); cbn [fst snd].
    + split; [exact Hc'|].
      eapply env_extends_trans; [exact He | apply imsg_ctl_rde_extends].
    + split; [|exact He].
      eapply conn_extends_trans; [exact Hc' | apply imsg_compose_extends].
Qed.

Lemma neighbor_command_extends (cmd : neighbor_cmd) (c : ctl_conn)
    (peers : list peer) (e : world) (m : imsg) :
  conn_extends c (fst (fst (neighbor_command cmd c peers e m))) /\
  env_extends e (snd (neighbor_command cmd c peers e m)) /\
  length (snd (fst (neighbor_command cmd c peers e m))) = length peers.
Proof.
  unfold neighbor_command.
  destruct (negb (len (hdr m) =? IMSG_HEADER_SIZE + sizeof_ctl_neighbor)).
  - split; [apply conn_extends_refl|].
    split; [apply log_warn_extends | reflexivity].
  - destruct (neighbor_loop_replies cmd
                (terminate_descr (neighbor_of (data m))) peers c (ibuf_w c)
                false) as (replies & Hw & _ & _ & _ & Hlen).
    rewrite set_w_same in Hw, Hlen.
    destruct (neighbor_loop cmd (terminate_descr (neighbor_of (data m)))
                peers c false) as [[c1 peers1] matched].
    cbn [fst snd] in Hw, Hlen. subst c1.
    destruct (negb matched); cbn [fst snd];
      (split; [|split; [apply env_extends_refl | exact Hlen]]).
    + repeat split. cbn. eexists. rewrite <- app_assoc. reflexivity.
    + repeat split. cbn. eexists. reflexivity.
Qed.

Lemma show_rib_extends (c : ctl_conn) (peers : list peer) (e : world)
    (m : imsg) :
  conn_extends c (fst (show_rib c peers e m)) /\
  env_extends e (snd (show_rib c peers e m)).
Proof.
  unfold show_rib. cbv zeta.
  repeat match goal with
         | |- context [if ?b then _ else _] => destruct b
         end; cbn [fst snd];
    (split;
     [ first [ apply conn_extends_refl | apply imsg_compose_extends
             | eapply conn_extends_trans;
               [apply set_pid_extends | apply set_terminate_extends] ]
     | first [ apply env_extends_refl | apply log_warn_extends
             | apply imsg_ctl_rde_extends ] ]).
Qed.

(** A handler only appends: to the connection's queue, to the queues
    towards the backends and to the log; it keeps the connection's
    descriptor and flags other than terminate, the list of connections,
    pauseaccept, and the number of peers. *)
Lemma control_handle_extends (st : dstate) (m : imsg) :
  conn_extends (d_conn st) (d_conn (control_handle st m)) /\
  env_extends (d_env st) (d_env (control_handle st m)) /\
  length (d_peers (control_handle st m)) = length (d_peers st).
Proof.
  pose proof (show_neighbor_extends (d_conn st) (d_peers st) (d_env st) m)
    as Hsn.
  pose proof (show_rib_extends (d_conn st) (d_peers st) (d_env st) m) as Hrib.
  pose proof (fun cmd =>
                neighbor_command_extends cmd (d_conn st) (d_peers st)
                  (d_env st) m) as Hnc.
  unfold control_handle. cbv zeta.
  destruct (type (hdr m)) eqn:Et; cbn [neighbor_cmd_of];
    try (split; [apply conn_extends_refl
                |split; [apply env_extends_refl | reflexivity]]);
    try (cbn [d_conn d_env d_peers];
         split;
         [ first [ apply conn_extends_refl | apply show_terse_extends
                 | apply set_pid_extends
                 | eapply conn_extends_trans;
                   [apply set_terminate_extends | apply set_pid_extends] ]
         | split;
           [ first [ apply env_extends_refl | apply imsg_ctl_parent_extends
                   | apply imsg_ctl_rde_extends ]
           | reflexivity ] ]).
  - specialize (Hnc CMD_UP).
    destruct (neighbor_command CMD_UP (d_conn st) (d_peers st) (d_env st) m)
      as [[c1 p1] e1]. exact Hnc.
  - specialize (Hnc CMD_DOWN).
    destruct (neighbor_command CMD_DOWN (d_conn st) (d_peers st) (d_env st) m)
      as [[c1 p1] e1]. exact Hnc.
  - specialize (Hnc CMD_CLEAR).
    destruct (neighbor_command CMD_CLEAR (d_conn st) (d_peers st) (d_env st)
                m) as [[c1 p1] e1]. exact Hnc.
  - specialize (Hnc CMD_RREFRESH).
    destruct (neighbor_command CMD_RREFRESH (d_conn st) (d_peers st)
                (d_env st) m) as [[c1 p1] e1]. exact Hnc.
  - specialize (Hnc CMD_DESTROY).
    destruct (neighbor_command CMD_DESTROY (d_conn st) (d_peers st)
                (d_env st) m) as [[c1 p1] e1]. exact Hnc.
  - destruct (show_neighbor (d_conn st) (d_peers st) (d_env st) m)
      as [c1 e1]. destruct Hsn as [A B].
    split; [exact A | split; [exact B | reflexivity]].
  - destruct (show_rib (d_conn st) (d_peers st) (d_env st) m) as [c1 e1].
    destruct Hrib as [A B].
    split; [exact A | split; [exact B | reflexivity]].
  - destruct (show_rib (d_conn st) (d_peers st) (d_env st) m) as [c1 e1].
    destruct Hrib as [A B].
    split; [exact A | split; [exact B | reflexivity]].
  - destruct (negb (len (hdr m) =? IMSG_HEADER_SIZE + sizeof_verbose)).
    + split; [apply conn_extends_refl
             |split; [apply env_extends_refl | reflexivity]].
    + cbn [d_conn d_env d_peers]. split; [apply conn_extends_refl|].
      split; [|reflexivity].
      eapply env_extends_trans; [|apply log_setverbose_extends].
      eapply env_extends_trans; [apply imsg_ctl_parent_extends|].
      apply imsg_ctl_rde_extends.
Qed.

Lemma control_dispatch_imsg_extends (st : dstate) (m : imsg) :
  conn_extends (d_conn st) (d_conn (control_dispatch_imsg st m)) /\
  env_extends (d_env st) (d_env (control_dispatch_imsg st m)) /\
  length (d_peers (control_dispatch_imsg st m)) = length (d_peers st).
Proof.
  unfold control_dispatch_imsg, restricted_filter.
  destruct (restricted (d_conn st));
    [destruct (restricted_allowed (type (hdr m)))|].
  - apply (control_handle_extends
             (mk_dstate (d_conn st) (d_peers st) (d_env st))).
  - cbn. split; [apply imsg_compose_extends|].
    split; [apply env_extends_refl | reflexivity].
  - apply (control_handle_extends
             (mk_dstate (d_conn st) (d_peers st) (d_env st))).
Qed.

Lemma dispatch_loop_extends (fs : list imsg) :
  forall st : dstate,
  conn_extends (d_conn st) (d_conn (dispatch_loop st fs)) /\
  env_extends (d_env st) (d_env (dispatch_loop st fs)) /\
  length (d_peers (dispatch_loop st fs)) = length (d_peers st).
Proof.
  unfold dispatch_loop.
  induction fs as [|m rest IH]; intro st; simpl.
  - split; [apply conn_extends_refl
           |split; [apply env_extends_refl | reflexivity]].
  - destruct (control_dispatch_imsg_extends st m) as (Hc & He & Hp).
    destruct (IH (control_dispatch_imsg st m)) as (Hc' & He' & Hp').
    split; [eapply conn_extends_trans; eassumption|].
    split; [eapply env_extends_trans; eassumption | congruence].
Qed.

(** ** The list of connections *)

Lemma conn_store_length (key : ctl_conn -> bool) (c' : ctl_conn)
    (l : list ctl_conn) :
  length (conn_store key c' l) = length l.
Proof.
  induction l as [|a rest IH]; simpl; [reflexivity|].
  destruct (key a); simpl; congruence.
Qed.

Lemma conn_store_fds_by_fd (fd : Z) (c' : ctl_conn) (l : list ctl_conn) :
  ibuf_fd c' = fd ->
  map ibuf_fd (conn_store (by_fd fd) c' l) = map ibuf_fd l.
Proof.
  intro Hfd. induction l as [|a rest IH]; simpl; [reflexivity|].
  change (by_fd fd a) with (ibuf_fd a =? fd).
  destruct (ibuf_fd a =? fd) eqn:Ea; simpl.
  - apply Z.eqb_eq in Ea. congruence.
  - congruence.
Qed.

Lemma conn_store_fds_by_pid (p : Z) (c c' : ctl_conn) (l : list ctl_conn) :
  control_connbypid p l = Some c -> ibuf_fd c' = ibuf_fd c ->
  map ibuf_fd (conn_store (by_pid p) c' l) = map ibuf_fd l.
Proof.
  intros Hfind Hfd. induction l as [|a rest IH]; simpl in *; [reflexivity|].
  change (by_pid p a) with (ibuf_pid a =? p).
  destruct (ibuf_pid a =? p) eqn:Ea; simpl.
  - injection Hfind as <-. congruence.
  - rewrite IH by exact Hfind. reflexivity.
Qed.

Lemma conn_remove_length (fd : Z) (l : list ctl_conn) (c : ctl_conn) :
  control_connbyfd fd l = Some c ->
  S (length (conn_remove (by_fd fd) l)) = length l.
Proof.
  induction l as [|a rest IH]; simpl; [discriminate|].
  change (by_fd fd a) with (ibuf_fd a =? fd).
  destruct (ibuf_fd a =? fd); [reflexivity|].
  intro Hf. simpl. rewrite IH by exact Hf. reflexivity.
Qed.

Lemma conn_remove_nodup (key : ctl_conn -> bool) (l : list ctl_conn) :
  NoDup (map ibuf_fd l) -> NoDup (map ibuf_fd (conn_remove key l)).
Proof.
  induction l as [|a rest IH]; simpl; intro Hnd; [constructor|].
  inversion Hnd as [|x xs Hnotin Hnd']; subst.
  destruct (key a); [exact Hnd'|]. simpl. constructor; [|apply IH, Hnd'].
  intro Hin. apply Hnotin. clear - Hin.
  induction rest as [|b rest IH]; simpl in *; [contradiction|].
  destruct (key b); [right; exact Hin|].
  destruct Hin as [E | Hin]; [left; exact E | right; apply IH, Hin].
Qed.

Lemma connbyfd_store_other (fd fd' : Z) (c' : ctl_conn) (l : list ctl_conn) :
  fd' <> fd -> ibuf_fd c' = fd ->
  control_connbyfd fd' (conn_store (by_fd fd) c' l) = control_connbyfd fd' l.
Proof.
  intros Hne Hfd. induction l as [|a rest IH]; simpl; [reflexivity|].
  change (by_fd fd a) with (ibuf_fd a =? fd).
  destruct (ibuf_fd a =? fd) eqn:Ea; simpl.
  - apply Z.eqb_eq in Ea. rewrite Hfd, Ea.
    destruct (fd =? fd') eqn:E; [apply Z.eqb_eq in E; congruence|].
    reflexivity.
  - destruct (ibuf_fd a =? fd'); [reflexivity | exact IH].
Qed.

Lemma connbyfd_store_pid_other (p fd' : Z) (c c' : ctl_conn)
    (l : list ctl_conn) :
  control_connbypid p l = Some c -> ibuf_fd c' = ibuf_fd c ->
  ibuf_fd c <> fd' ->
  control_connbyfd fd' (conn_store (by_pid p) c' l) = control_connbyfd fd' l.
Proof.
  intros Hfind Hfd Hne.
  induction l as [|a rest IH]; simpl in *; [reflexivity|].
  change (by_pid p a) with (ibuf_pid a =? p).
  destruct (ibuf_pid a =? p) eqn:Ea; simpl.
  - injection Hfind as <-. rewrite Hfd.
    destruct (ibuf_fd a =? fd') eqn:E; [apply Z.eqb_eq in E; congruence|].
    reflexivity.
  - destruct (ibuf_fd a =? fd'); [reflexivity | apply IH, Hfind].
Qed.

Lemma connbyfd_app (fd : Z) (l : list ctl_conn) (c : ctl_conn) :
  control_connbyfd fd (l ++ [c]) =
  match control_connbyfd fd l with
  | Some x => Some x
  | None => if ibuf_fd c =? fd then Some c else None
  end.
Proof.
  induction l as [|a rest IH]; simpl; [reflexivity|].
  destruct (ibuf_fd a =? fd); [reflexivity | exact IH].
Qed.

Lemma connbyfd_none_iff (fd : Z) (l : list ctl_conn) :
  control_connbyfd fd l = None <-> ~ In fd (map ibuf_fd l).
Proof.
  induction l as [|a rest IH]; simpl; [tauto|].
  destruct (ibuf_fd a =? fd) eqn:Ea.
  - apply Z.eqb_eq in Ea. split; [discriminate | tauto].
  - apply Z.eqb_neq in Ea. rewrite IH. tauto.
Qed.

(** The POLLOUT block gives up exactly on a failed write; otherwise it
    only appends towards the RDE and keeps the descriptor and the
    privilege of the connection. *)
Lemma dispatch_pollout_shape (e : world) (c : ctl_conn) (rev : Z)
    (w : msgbuf_write_outcome) :
  match dispatch_pollout e c rev w with
  | None => negb (Z.land rev POLLOUT =? 0) && write_failed w = true
  | Some (e1, c1) =>
      negb (Z.land rev POLLOUT =? 0) && write_failed w = false /\
      env_extends e e1 /\ ibuf_fd c1 = ibuf_fd c /\
      restricted c1 = restricted c
  end.
Proof.
  unfold dispatch_pollout.
  destruct (Z.land rev POLLOUT =? 0); cbn [negb andb].
  - split; [reflexivity|]. split; [apply env_extends_refl|]. split; reflexivity.
  - destruct w as [n | |]; cbn [write_failed]; [| |reflexivity].
    + set (c1 := set_w c (skipn n (ibuf_w c))).
      destruct (throttled c1 && (queued c1 <? CTL_MSG_LOW_MARK)).
      * pose proof (imsg_ctl_rde_extends e IMSG_XON 0 (ibuf_pid c1) PNone)
          as X.
        destruct (imsg_ctl_rde e IMSG_XON 0 (ibuf_pid c1) PNone) as [e1 r].
        cbn [fst] in X. destruct (negb (r =? -1));
          (split; [reflexivity|]; split; [exact X|]; split; reflexivity).
      * split; [reflexivity|]. split; [apply env_extends_refl|].
        split; reflexivity.
    + destruct (throttled c && (queued c <? CTL_MSG_LOW_MARK)).
      * pose proof (imsg_ctl_rde_extends e IMSG_XON 0 (ibuf_pid c) PNone)
          as X.
        destruct (imsg_ctl_rde e IMSG_XON 0 (ibuf_pid c) PNone) as [e1 r].
        cbn [fst] in X. destruct (negb (r =? -1));
          (split; [reflexivity|]; split; [exact X|]; split; reflexivity).
      * split; [reflexivity|]. split; [apply env_extends_refl|].
        split; reflexivity.
Qed.

Lemma control_close_registry (e : world) (key : ctl_conn -> bool)
    (c : ctl_conn) :
  let e' := fst (control_close e key c) in
  ctl_conns e' = conn_remove key (ctl_conns e) /\
  closed_fds e' = closed_fds e ++ [ibuf_fd c] /\
  pauseaccept e' = 0.
Proof.
  destruct (control_close_effect e key c) as (A & _ & B & C & _).
  repeat split; assumption.
Qed.

(** What one call of the dispatcher does to the list of connections,
    for a descriptor that is registered. *)
Lemma dispatch_registry (e : world) (pfd : pollfd) (peers : list peer)
    (io : io_script) (c : ctl_conn) :
  control_connbyfd (pfd_fd pfd) (ctl_conns e) = Some c ->
  let e' := fst (fst (control_dispatch_msg e pfd peers io)) in
  let r := snd (control_dispatch_msg e pfd peers io) in
  length (snd (fst (control_dispatch_msg e pfd peers io))) = length peers /\
  if dispatch_closes (revents pfd) io
  then r = 1 /\
       ctl_conns e' = conn_remove (by_fd (pfd_fd pfd)) (ctl_conns e) /\
       closed_fds e' = closed_fds e ++ [pfd_fd pfd] /\ pauseaccept e' = 0
  else r = 0 /\
       (exists c',
          ctl_conns e' = conn_store (by_fd (pfd_fd pfd)) c' (ctl_conns e) /\
          ibuf_fd c' = pfd_fd pfd /\ restricted c' = restricted c) /\
       closed_fds e' = closed_fds e /\ pauseaccept e' = pauseaccept e.
Proof.
  intros Hfind e' r. subst e' r.
  pose proof (connbyfd_fd _ _ _ Hfind) as Hfd.
  unfold control_dispatch_msg, dispatch_closes, read_closes.
  rewrite Hfind. cbv zeta.
  pose proof (dispatch_pollout_shape e c (revents pfd) (wr io)) as Hpo.
  destruct (dispatch_pollout e c (revents pfd) (wr io)) as [[e1 c1]|].
  - destruct Hpo as (Hw & (Hc1 & Hp1 & Hcl1 & _) & Hfd1 & Hr1).
    rewrite Hw. cbn [orb].
    destruct (Z.land (revents pfd) POLLIN =? 0); cbn [negb andb fst snd].
    + split; [reflexivity|]. split; [reflexivity|]. split.
      * exists c1. unfold commit. cbn [ctl_conns set_conns].
        rewrite Hc1. repeat split; congruence.
      * unfold commit. cbn. split; assumption.
    + destruct (imsg_read_nofd (recvs io)) as [n err].
      destruct ((n =? -1) && negb (is_EAGAIN err) || (n =? 0)); cbn [orb].
      * rewrite control_close_pair. cbn [fst snd].
        destruct (control_close_registry e1 (by_fd (pfd_fd pfd)) c1)
          as (A & B & C).
        split; [reflexivity|]. split; [reflexivity|].
        rewrite A, B, C, Hc1, Hcl1, Hfd1, Hfd. repeat split.
      * destruct (dispatch_loop_extends (frames io) (mk_dstate c1 peers e1))
          as ((Hfd2 & Hr2 & _) & (Hc2 & Hp2 & Hcl2 & _) & Hlen2).
        cbn [d_conn d_env d_peers] in Hfd2, Hr2, Hc2, Hp2, Hcl2, Hlen2.
        destruct (frames_corrupt io).
        -- rewrite control_close_pair. cbn [fst snd].
           destruct (control_close_registry
                       (d_env (dispatch_loop (mk_dstate c1 peers e1)
                                 (frames io)))
                       (by_fd (pfd_fd pfd))
                       (d_conn (dispatch_loop (mk_dstate c1 peers e1)
                                  (frames io)))) as (A & B & C).
           split; [exact Hlen2|]. split; [reflexivity|].
           rewrite A, B, C, Hc2, Hc1, Hcl2, Hcl1, Hfd2, Hfd1, Hfd.
           repeat split.
        -- cbn [fst snd]. split; [exact Hlen2|]. split; [reflexivity|].
           split.
           ++ eexists. unfold commit. cbn [ctl_conns set_conns].
              rewrite Hc2, Hc1. split; [reflexivity|].
              split; congruence.
           ++ unfold commit. cbn. split; congruence.
  - rewrite Hpo. cbn [orb]. rewrite control_close_pair. cbn [fst snd].
    destruct (control_close_registry e (by_fd (pfd_fd pfd)) c) as (A & B & C).
    split; [reflexivity|]. split; [reflexivity|].
    rewrite A, B, C, Hfd. repeat split.
Qed.

(** What the relay does to the list of connections. *)
Lemma relay_registry (e : world) (m : imsg) (p : option peer) :
  match control_imsg_relay e m p with
  | None =>
      type (hdr m) = IMSG_CTL_SHOW_NEIGHBOR /\
      (len (hdr m) < IMSG_HEADER_SIZE + sizeof_rde_peer_stats \/
       forall s, data m <> PStats s)
  | Some (e', _, _) =>
      closed_fds e' = closed_fds e /\ pauseaccept e' = pauseaccept e /\
      (ctl_conns e' = ctl_conns e \/
       exists c c',
         control_connbypid (pid (hdr m)) (ctl_conns e) = Some c /\
         ctl_conns e' = conn_store (by_pid (pid (hdr m))) c' (ctl_conns e) /\
         ibuf_fd c' = ibuf_fd c /\ restricted c' = restricted c)
  end.
Proof.
  destruct (control_imsg_relay e m p) as [[[e' p'] r]|] eqn:Hrel;
    [|exact (relay_no_result e m p Hrel)].
  revert Hrel. unfold control_imsg_relay. cbv zeta.
  destruct (control_connbypid (pid (hdr m)) (ctl_conns e)) as [c|] eqn:Hfind;
    [|intro E; injection E as <- _ _; cbn; auto].
  destruct (is_show_neighbor (type (hdr m))).
  - destruct (len (hdr m) >? IMSG_HEADER_SIZE + sizeof_rde_peer_stats);
      [intro E; injection E as <- _ _; cbn; auto|].
    destruct p as [p0|]; [|intro E; injection E as <- _ _; cbn; auto].
    destruct (stats_of m) as [st|]; [|discriminate].
    intro E. injection E as <- _ _.
    cbn. split; [reflexivity|]. split; [reflexivity|]. right.
    exists c. eexists. repeat split.
  - destruct (negb (throttled (if is_end_or_result (type (hdr m))
                               then set_terminate c false else c)) &&
              (queued (if is_end_or_result (type (hdr m))
                       then set_terminate c false else c) >?
               CTL_MSG_HIGH_MARK)).
    + unfold imsg_ctl_rde.
      destruct (rde_fail e) as [|[|] rest]; cbn;
        intro E; injection E as <- _ _; cbn;
        (split; [reflexivity|]; split; [reflexivity|]; right;
         exists c; eexists; split; [reflexivity|];
         split; [reflexivity|];
         destruct (is_end_or_result (type (hdr m))); split; reflexivity).
    + intro E. injection E as <- _ _.
      cbn. split; [reflexivity|]. split; [reflexivity|]. right.
      exists c. eexists. split; [reflexivity|]. split; [reflexivity|].
      destruct (is_end_or_result (type (hdr m))); split; reflexivity.
Qed.

(** X5.  The return values account for the list of connections:
    control_accept returns the number of connections it added (0 or
    1), control_dispatch_msg the number it removed (0 or 1), whatever
    the descriptor and the input, and the relay neither adds nor
    removes one, whatever reply it gives a result for; it gives none
    only for a neighbor-show reply whose payload does not hold the
    statistics struct. *)
Theorem return_values_count_connections (e : world) :
  (forall restr acc calloc_ok now init_pid,
     Z.of_nat
       (length
          (ctl_conns (fst (control_accept e restr acc calloc_ok now
                             init_pid)))) =
     Z.of_nat (length (ctl_conns e)) +
     snd (control_accept e restr acc calloc_ok now init_pid)) /\
  (forall pfd peers io,
     Z.of_nat
       (length (ctl_conns (fst (fst (control_dispatch_msg e pfd peers io))))) =
     Z.of_nat (length (ctl_conns e)) -
     snd (control_dispatch_msg e pfd peers io)) /\
  (forall m p,
     match control_imsg_relay e m p with
     | None =>
         type (hdr m) = IMSG_CTL_SHOW_NEIGHBOR /\
         (len (hdr m) < IMSG_HEADER_SIZE + sizeof_rde_peer_stats \/
          forall s, data m <> PStats s)
     | Some (e', _, _) => length (ctl_conns e') = length (ctl_conns e)
     end).
Proof.
  split; [|split].
  - intros restr acc calloc_ok now init_pid. unfold control_accept.
    destruct acc as [connfd | err].
    + destruct calloc_ok; cbn; [|lia].
      rewrite length_app. cbn. lia.
    + destruct err; cbn; lia.
  - intros pfd peers io.
    destruct (control_connbyfd (pfd_fd pfd) (ctl_conns e)) as [c|] eqn:Hfind.
    + destruct (dispatch_registry e pfd peers io c Hfind) as (_ & Hreg).
      destruct (dispatch_closes (revents pfd) io).
      * destruct Hreg as (-> & -> & _).
        pose proof (conn_remove_length _ _ _ Hfind). lia.
      * destruct Hreg as (-> & (c' & -> & _) & _).
        rewrite conn_store_length. lia.
    + unfold control_dispatch_msg. rewrite Hfind. cbn. lia.
  - intros m p. pose proof (relay_registry e m p) as Hreg.
    destruct (control_imsg_relay e m p) as [[[e' p'] r]|]; [|exact Hreg].
    destruct Hreg as (_ & _ & [-> | (c & c' & _ & -> & _)]);
      [reflexivity | apply conn_store_length].
Qed.

(** X6.  Descriptors stay distinct: if no two connections share a
    descriptor, the same holds after control_dispatch_msg, after
    control_imsg_relay (whatever reply it gives a result for; it gives
    none only for a neighbor-show reply whose payload does not hold the
    statistics struct), after control_close, after a failed accept, and
    after an accept that returns a descriptor not yet in the list. *)
Theorem descriptors_stay_distinct (e : world) :
  NoDup (map ibuf_fd (ctl_conns e)) ->
  (forall pfd peers io,
     NoDup (map ibuf_fd
              (ctl_conns (fst (fst (control_dispatch_msg e pfd peers io)))))) /\
  (forall m p,
     match control_imsg_relay e m p with
     | None =>
         type (hdr m) = IMSG_CTL_SHOW_NEIGHBOR /\
         (len (hdr m) < IMSG_HEADER_SIZE + sizeof_rde_peer_stats \/
          forall s, data m <> PStats s)
     | Some (e', _, _) => NoDup (map ibuf_fd (ctl_conns e'))
     end) /\
  (forall key c,
     NoDup (map ibuf_fd (ctl_conns (fst (control_close e key c))))) /\
  (forall restr err calloc_ok now init_pid,
     NoDup (map ibuf_fd
              (ctl_conns (fst (control_accept e restr (AcceptFailed err)
                                 calloc_ok now init_pid))))) /\
  (forall restr connfd calloc_ok now init_pid,
     ~ In connfd (map ibuf_fd (ctl_conns e)) ->
     NoDup (map ibuf_fd
              (ctl_conns (fst (control_accept e restr (Accepted connfd)
                                 calloc_ok now init_pid))))).
Proof.
  intro Hnd. split; [|split; [|split; [|split]]].
  - intros pfd peers io.
    destruct (control_connbyfd (pfd_fd pfd) (ctl_conns e)) as [c|] eqn:Hfind.
    + destruct (dispatch_registry e pfd peers io c Hfind) as (_ & Hreg).
      destruct (dispatch_closes (revents pfd) io).
      * destruct Hreg as (_ & -> & _). apply conn_remove_nodup, Hnd.
      * destruct Hreg as (_ & (c' & -> & Hfd & _) & _).
        rewrite conn_store_fds_by_fd by exact Hfd. exact Hnd.
    + unfold control_dispatch_msg. rewrite Hfind. exact Hnd.
  - intros m p. pose proof (relay_registry e m p) as Hreg.
    destruct (control_imsg_relay e m p) as [[[e' p'] r]|]; [|exact Hreg].
    destruct Hreg as (_ & _ & [-> | (c & c' & Hfind & -> & Hfd & _)]);
      [exact Hnd|].
    rewrite (conn_store_fds_by_pid _ c) by assumption. exact Hnd.
  - intros key c.
    destruct (control_close_registry e key c) as (-> & _).
    apply conn_remove_nodup, Hnd.
  - intros restr err calloc_ok now init_pid. destruct err; exact Hnd.
  - intros restr connfd calloc_ok now init_pid Hfresh.
    unfold control_accept. destruct calloc_ok; cbn; [|exact Hnd].
    rewrite map_app. cbn.
    apply NoDup_app; [exact Hnd | repeat constructor; intros [] |].
    intros x Hx [<- | []]. exact (Hfresh Hx).
Qed.

(** X7.  One call of the dispatcher concerns one descriptor: for every
    other descriptor the lookup gives the same connection, with the
    same fields, after the call as before. *)
Theorem dispatch_leaves_others (e : world) (pfd : pollfd)
    (peers : list peer) (io : io_script) (fd' : Z) :
  fd' <> pfd_fd pfd ->
  control_connbyfd fd'
    (ctl_conns (fst (fst (control_dispatch_msg e pfd peers io)))) =
  control_connbyfd fd' (ctl_conns e).
Proof.
  intro Hne.
  destruct (control_connbyfd (pfd_fd pfd) (ctl_conns e)) as [c|] eqn:Hfind.
  - destruct (dispatch_registry e pfd peers io c Hfind) as (_ & Hreg).
    destruct (dispatch_closes (revents pfd) io).
    + destruct Hreg as (_ & -> & _). apply connbyfd_remove_other, Hne.
    + destruct Hreg as (_ & (c' & -> & Hfd & _) & _).
      apply connbyfd_store_other; assumption.
  - unfold control_dispatch_msg. rewrite Hfind. reflexivity.
Qed.

(** X8.  For a registered descriptor the dispatcher returns 1 exactly
    when it closes the connection, which it does on a failed write
    under POLLOUT, or under POLLIN on end of file, on a read error
    other than EAGAIN, or on a corrupt message header.  Then the
    descriptor is closed exactly once and pauseaccept is 0, and with
    distinct descriptors in the list the descriptor is no longer
    registered.  Otherwise it returns 0, closes nothing, leaves
    pauseaccept alone, and the connection stays registered with its
    privilege. *)
Theorem dispatch_close_paths (e : world) (pfd : pollfd) (peers : list peer)
    (io : io_script) (c : ctl_conn) :
  control_connbyfd (pfd_fd pfd) (ctl_conns e) = Some c ->
  NoDup (map ibuf_fd (ctl_conns e)) ->
  let e' := fst (fst (control_dispatch_msg e pfd peers io)) in
  let closes := dispatch_closes (revents pfd) io in
  snd (control_dispatch_msg e pfd peers io) = (if closes then 1 else 0) /\
  closed_fds e' = closed_fds e ++ (if closes then [pfd_fd pfd] else []) /\
  pauseaccept e' = (if closes then 0 else pauseaccept e) /\
  option_map restricted (control_connbyfd (pfd_fd pfd) (ctl_conns e')) =
    (if closes then None else Some (restricted c)).
Proof.
  intros Hfind Hnd e' closes. subst e' closes.
  destruct (dispatch_registry e pfd peers io c Hfind) as (_ & Hreg).
  destruct (dispatch_closes (revents pfd) io).
  - destruct Hreg as (-> & -> & -> & ->).
    repeat split.
    destruct (conn_remove_found _ _ _ Hnd Hfind) as (_ & _ & _ & Hrest).
    assert (Hnone : control_connbyfd (pfd_fd pfd)
                      (conn_remove (by_fd (pfd_fd pfd)) (ctl_conns e)) = None).
    { apply connbyfd_none_iff. intro Hin. apply in_map_iff in Hin.
      destruct Hin as (c2 & Hfd2 & Hin2).
      destruct (Hrest c2 Hin2) as [_ Hne]. contradiction. }
    rewrite Hnone. reflexivity.
  - destruct Hreg as (-> & (c' & -> & Hfd & Hr) & -> & ->).
    rewrite app_nil_r. repeat split.
    rewrite (connbyfd_store _ _ c c' Hfind Hfd). cbn. rewrite Hr. reflexivity.
Qed.

(** X9.  A successful accept appends the new connection at the tail
    and returns 1: every lookup that found a connection before finds
    the same one, and if the new descriptor was not in the list its
    lookup now gives a connection with the privilege passed in, an
    empty write queue and clear flags.  If the allocation fails the
    new descriptor is closed, the list is unchanged and 0 is returned.
    Neither case touches pauseaccept. *)
Theorem accept_registers (e : world) (restr : bool) (connfd now init_pid : Z) :
  ~ In connfd (map ibuf_fd (ctl_conns e)) ->
  let ok := control_accept e restr (Accepted connfd) true now init_pid in
  let ko := control_accept e restr (Accepted connfd) false now init_pid in
  snd ok = 1 /\
  control_connbyfd connfd (ctl_conns (fst ok)) =
    Some (mk_ctl_conn connfd init_pid [] restr false false) /\
  (forall fd', fd' <> connfd ->
     control_connbyfd fd' (ctl_conns (fst ok)) =
     control_connbyfd fd' (ctl_conns e)) /\
  closed_fds (fst ok) = closed_fds e /\
  pauseaccept (fst ok) = pauseaccept e /\
  snd ko = 0 /\ ctl_conns (fst ko) = ctl_conns e /\
  closed_fds (fst ko) = closed_fds e ++ [connfd] /\
  pauseaccept (fst ko) = pauseaccept e.
Proof.
  intros Hfresh ok ko. subst ok ko. cbn.
  apply connbyfd_none_iff in Hfresh.
  split; [reflexivity|]. split.
  - rewrite connbyfd_app, Hfresh. cbn. rewrite Z.eqb_refl. reflexivity.
  - split; [|repeat split].
    intros fd' Hne. rewrite connbyfd_app. cbn.
    destruct (control_connbyfd fd' (ctl_conns e)); [reflexivity|].
    destruct (connfd =? fd') eqn:E; [apply Z.eqb_eq in E; congruence|].
    reflexivity.
Qed.

End Registry.

Section Handlers.

Context {H : Headers}.

(** ** The show handlers *)

Lemma fold_left_compose (A : Type) (g : A -> list ctl_msg)
    (f : ctl_conn -> A -> ctl_conn) (l : list A) :
  (forall c q a, f (set_w c q) a = set_w c (q ++ g a)) ->
  forall c q, fold_left f l (set_w c q) = set_w c (q ++ flat_map g l).
Proof.
  intro Hf. induction l as [|a rest IH]; intros c q; simpl.
  - rewrite app_nil_r. reflexivity.
  - rewrite Hf, IH, <- app_assoc. reflexivity.
Qed.

Lemma show_neighbor_timers_queue (c : ctl_conn) (q : list ctl_msg)
    (p : peer) :
  show_neighbor_timers (set_w c q) p =
  set_w c (q ++ mk_ctl_msg IMSG_CTL_SHOW_NEIGHBOR 0 0 (PPeer p) ::
             timer_msgs p).
Proof.
  unfold show_neighbor_timers, timer_msgs.
  change (imsg_compose (set_w c q) IMSG_CTL_SHOW_NEIGHBOR 0 0 (PPeer p))
    with (set_w c (q ++ [mk_ctl_msg IMSG_CTL_SHOW_NEIGHBOR 0 0 (PPeer p)])).
  rewrite (fold_left_compose nat
             (fun i =>
                match timer_running p i with
                | None => []
                | Some d =>
                    [mk_ctl_msg IMSG_CTL_SHOW_TIMER 0 0
                       (PTimer (mk_ctl_timer i d))]
                end)).
  - rewrite <- app_assoc. reflexivity.
  - intros c0 q0 i. destruct (timer_running p i); [reflexivity|].
    rewrite app_nil_r. reflexivity.
Qed.

(** X10.  A terse-show request, whatever its payload and on a
    restricted connection too, queues one neighbor message per peer, in
    the order of the collection and carrying that peer, followed by one
    end marker; it involves no backend, changes no peer, and leaves the
    connection's pid and flags alone. *)
Theorem show_terse_output (st : dstate) (m : imsg) :
  type (hdr m) = IMSG_CTL_SHOW_TERSE ->
  control_dispatch_imsg st m =
  mk_dstate
    (set_w (d_conn st)
       (ibuf_w (d_conn st) ++
        map (fun p => mk_ctl_msg IMSG_CTL_SHOW_NEIGHBOR 0 0 (PPeer p))
          (d_peers st) ++
        [mk_ctl_msg IMSG_CTL_END 0 0 PNone]))
    (d_peers st) (d_env st) /\
  ibuf_w (d_conn (control_dispatch_imsg st m)) =
    ibuf_w (d_conn st) ++
    map (fun p => mk_ctl_msg IMSG_CTL_SHOW_NEIGHBOR 0 0 (PPeer p))
      (d_peers st) ++
    [mk_ctl_msg IMSG_CTL_END 0 0 PNone] /\
  ibuf_pid (d_conn (control_dispatch_imsg st m)) = ibuf_pid (d_conn st) /\
  throttled (d_conn (control_dispatch_imsg st m)) = throttled (d_conn st) /\
  terminate (d_conn (control_dispatch_imsg st m)) = terminate (d_conn st).
Proof.
  intro Ht.
  assert (Heq : control_dispatch_imsg st m =
    mk_dstate
      (set_w (d_conn st)
         (ibuf_w (d_conn st) ++
          map (fun p => mk_ctl_msg IMSG_CTL_SHOW_NEIGHBOR 0 0 (PPeer p))
            (d_peers st) ++
          [mk_ctl_msg IMSG_CTL_END 0 0 PNone]))
      (d_peers st) (d_env st)).
  { rewrite allowed_dispatch by (rewrite Ht; reflexivity).
    unfold control_handle. rewrite Ht. cbv zeta. f_equal.
    unfold show_terse.
    rewrite <- (set_w_same (d_conn st)) at 1.
    rewrite (fold_left_compose peer
               (fun p => [mk_ctl_msg IMSG_CTL_SHOW_NEIGHBOR 0 0 (PPeer p)]))
      by reflexivity.
    assert (Hfm : forall l : list peer,
              flat_map
                (fun p => [mk_ctl_msg IMSG_CTL_SHOW_NEIGHBOR 0 0 (PPeer p)])
                l =
              map (fun p => mk_ctl_msg IMSG_CTL_SHOW_NEIGHBOR 0 0 (PPeer p))
                l).
    { induction l as [|p rest IH]; simpl; congruence. }
    rewrite Hfm, app_assoc. reflexivity. }
  rewrite Heq. repeat split.
Qed.

(** The loop of the neighbor-show handler when no timer detail is
    asked for and every hand-over to the RDE succeeds. *)
Lemma show_neighbor_loop_rde (neighbor : option ctl_neighbor) (hpid : Z)
    (peers : list peer) :
  wants_timers neighbor = false ->
  forall (c : ctl_conn) (e : world) (q : list ctl_msg) (matched : bool),
  show_neighbor_loop neighbor hpid peers c (set_rde e q []) matched =
  (c,
   set_rde e
     (q ++ map (fun p => mk_ctl_msg IMSG_CTL_SHOW_NEIGHBOR (id (conf p))
                           hpid PNone)
             (filter (fun p => peer_matched p neighbor) peers)) [],
   matched || existsb (fun p => peer_matched p neighbor) peers).
Proof.
  intro Hw. induction peers as [|p rest IH]; intros c e q matched; simpl.
  - rewrite app_nil_r, orb_false_r. reflexivity.
  - destruct (peer_matched p neighbor); simpl; [|apply IH].
    rewrite Hw. simpl.
    change (fst (imsg_ctl_rde (set_rde e q []) IMSG_CTL_SHOW_NEIGHBOR
                   (id (conf p)) hpid PNone))
      with (set_rde e (q ++ [mk_ctl_msg IMSG_CTL_SHOW_NEIGHBOR (id (conf p))
                               hpid PNone]) []).
    rewrite IH, <- app_assoc, orb_true_r. reflexivity.
Qed.

(** The loop when timer detail is asked for. *)
Lemma show_neighbor_loop_timers (neighbor : option ctl_neighbor) (hpid : Z)
    (peers : list peer) :
  wants_timers neighbor = true ->
  forall (c : ctl_conn) (e : world) (q : list ctl_msg) (matched : bool),
  show_neighbor_loop neighbor hpid peers (set_w c q) e matched =
  (set_w c
     (q ++ flat_map
             (fun p => mk_ctl_msg IMSG_CTL_SHOW_NEIGHBOR 0 0 (PPeer p) ::
                       timer_msgs p)
             (filter (fun p => peer_matched p neighbor) peers)),
   e,
   matched || existsb (fun p => peer_matched p neighbor) peers).
Proof.
  intro Hw. induction peers as [|p rest IH]; intros c e q matched; simpl.
  - rewrite app_nil_r, orb_false_r. reflexivity.
  - destruct (peer_matched p neighbor); simpl; [|apply IH].
    rewrite Hw. simpl.
    rewrite show_neighbor_timers_queue, IH, <- app_assoc, orb_true_r.
    reflexivity.
Qed.

(** X11.  A neighbor-show request without timer detail that matches at
    least one peer, when every hand-over to the RDE succeeds: the
    sender's pid is recorded, nothing is queued on the connection, and
    the RDE gets one neighbor request per matched peer, in the order of
    the collection, with that peer's id and the sender's pid, followed
    by one end marker for that pid.  A payload that does not have the
    size of a selector counts as no selector. *)
Theorem show_neighbor_via_rde (st : dstate) (m : imsg) :
  type (hdr m) = IMSG_CTL_SHOW_NEIGHBOR ->
  wants_timers (show_selector m) = false ->
  existsb (fun p => peer_matched p (show_selector m)) (d_peers st) = true ->
  rde_fail (d_env st) = [] ->
  let st' := control_dispatch_imsg st m in
  d_conn st' = set_pid (d_conn st) (pid (hdr m)) /\
  d_peers st' = d_peers st /\
  parent_ctl (d_env st') = parent_ctl (d_env st) /\
  rde_ctl (d_env st') =
    rde_ctl (d_env st) ++
    map (fun p => mk_ctl_msg IMSG_CTL_SHOW_NEIGHBOR (id (conf p))
                    (pid (hdr m)) PNone)
      (filter (fun p => peer_matched p (show_selector m)) (d_peers st)) ++
    [mk_ctl_msg IMSG_CTL_END 0 (pid (hdr m)) PNone] /\
  ibuf_pid (d_conn st') = pid (hdr m) /\
  ibuf_w (d_conn st') = ibuf_w (d_conn st) /\
  terminate (d_conn st') = terminate (d_conn st).
Proof.
  intros Ht Hw Hex Htape st'. subst st'.
  rewrite allowed_dispatch by (rewrite Ht; reflexivity).
  unfold control_handle. rewrite Ht. cbv zeta. unfold show_neighbor.
  fold (show_selector m).
  assert (He : d_env st = set_rde (d_env st) (rde_ctl (d_env st)) []).
  { destruct (d_env st). cbn in *. subst. reflexivity. }
  pose proof (show_neighbor_loop_rde (show_selector m) (pid (hdr m))
                (d_peers st) Hw (set_pid (d_conn st) (pid (hdr m)))
                (d_env st) (rde_ctl (d_env st)) false) as Hl.
  rewrite <- He in Hl. rewrite Hl. cbn [orb]. rewrite Hex, Hw.
  cbn [negb andb d_conn d_peers d_env].
  change (fst (imsg_ctl_rde
                 (set_rde (d_env st)
                    (rde_ctl (d_env st) ++
                     map (fun p => mk_ctl_msg IMSG_CTL_SHOW_NEIGHBOR
                                     (id (conf p)) (pid (hdr m)) PNone)
                       (filter (fun p => peer_matched p (show_selector m))
                          (d_peers st))) [])
                 IMSG_CTL_END 0 (pid (hdr m)) PNone))
    with (set_rde (d_env st)
            ((rde_ctl (d_env st) ++
              map (fun p => mk_ctl_msg IMSG_CTL_SHOW_NEIGHBOR
                              (id (conf p)) (pid (hdr m)) PNone)
                (filter (fun p => peer_matched p (show_selector m))
                   (d_peers st))) ++
             [mk_ctl_msg IMSG_CTL_END 0 (pid (hdr m)) PNone]) []).
  cbn [rde_ctl parent_ctl set_rde]. rewrite <- app_assoc. repeat split.
Qed.

(** X12.  A neighbor-show request with timer detail that matches at
    least one peer is answered on the connection alone: for each
    matched peer, in the order of the collection, the peer followed by
    one timer message for each of its running timers, by timer type
    from 1 below Timer_Max, and after the last peer one end marker.
    The sender's pid is recorded; no backend gets anything. *)
Theorem show_neighbor_timers_output (st : dstate) (m : imsg) :
  type (hdr m) = IMSG_CTL_SHOW_NEIGHBOR ->
  wants_timers (show_selector m) = true ->
  existsb (fun p => peer_matched p (show_selector m)) (d_peers st) = true ->
  control_dispatch_imsg st m =
  mk_dstate
    (set_w (set_pid (d_conn st) (pid (hdr m)))
       (ibuf_w (d_conn st) ++
        flat_map
          (fun p => mk_ctl_msg IMSG_CTL_SHOW_NEIGHBOR 0 0 (PPeer p) ::
                    timer_msgs p)
          (filter (fun p => peer_matched p (show_selector m)) (d_peers st)) ++
        [mk_ctl_msg IMSG_CTL_END 0 0 PNone]))
    (d_peers st) (d_env st) /\
  ibuf_w (d_conn (control_dispatch_imsg st m)) =
    ibuf_w (d_conn st) ++
    flat_map
      (fun p => mk_ctl_msg IMSG_CTL_SHOW_NEIGHBOR 0 0 (PPeer p) ::
                timer_msgs p)
      (filter (fun p => peer_matched p (show_selector m)) (d_peers st)) ++
    [mk_ctl_msg IMSG_CTL_END 0 0 PNone] /\
  ibuf_pid (d_conn (control_dispatch_imsg st m)) = pid (hdr m) /\
  terminate (d_conn (control_dispatch_imsg st m)) = terminate (d_conn st) /\
  rde_ctl (d_env (control_dispatch_imsg st m)) = rde_ctl (d_env st) /\
  parent_ctl (d_env (control_dispatch_imsg st m)) = parent_ctl (d_env st).
Proof.
  intros Ht Hw Hex.
  assert (Heq : control_dispatch_imsg st m =
    mk_dstate
      (set_w (set_pid (d_conn st) (pid (hdr m)))
         (ibuf_w (d_conn st) ++
          flat_map
            (fun p => mk_ctl_msg IMSG_CTL_SHOW_NEIGHBOR 0 0 (PPeer p) ::
                      timer_msgs p)
            (filter (fun p => peer_matched p (show_selector m))
               (d_peers st)) ++
          [mk_ctl_msg IMSG_CTL_END 0 0 PNone]))
      (d_peers st) (d_env st)).
  { rewrite allowed_dispatch by (rewrite Ht; reflexivity).
    unfold control_handle. rewrite Ht. cbv zeta. unfold show_neighbor.
    fold (show_selector m).
    assert (Hc : set_pid (d_conn st) (pid (hdr m)) =
                 set_w (set_pid (d_conn st) (pid (hdr m)))
                   (ibuf_w (d_conn st))).
    { destruct (d_conn st). reflexivity. }
    pose proof (show_neighbor_loop_timers (show_selector m) (pid (hdr m))
                  (d_peers st) Hw (set_pid (d_conn st) (pid (hdr m)))
                  (d_env st) (ibuf_w (d_conn st)) false) as Hl.
    rewrite <- Hc in Hl. rewrite Hl. cbn [orb]. rewrite Hex, Hw.
    cbn [negb andb]. rewrite app_assoc. reflexivity. }
  rewrite Heq. repeat split.
Qed.

(** ** Neighbor commands: which peers change *)

Lemma control_neighbor_peer (cmd : neighbor_cmd) (n : ctl_neighbor)
    (c c' : ctl_conn) (p : peer) :
  snd (control_neighbor cmd n c p) = snd (control_neighbor cmd n c' p).
Proof.
  destruct cmd; simpl; try reflexivity.
  - destruct (session_neighbor_rrefresh p) as [p1 r].
    destruct (negb (r =? 0)); reflexivity.
  - destruct (negb (template p)); [reflexivity|].
    destruct (negb (session_state_is_idle (state p))); reflexivity.
Qed.

Lemma neighbor_loop_peers (cmd : neighbor_cmd) (n : ctl_neighbor)
    (c0 : ctl_conn) (peers : list peer) :
  forall (c : ctl_conn) (matched : bool),
  snd (fst (neighbor_loop cmd n peers c matched)) =
  map (fun p => if peer_matched p (Some n)
                then snd (control_neighbor cmd n c0 p) else p) peers.
Proof.
  induction peers as [|p rest IH]; intros c matched; simpl; [reflexivity|].
  destruct (peer_matched p (Some n)); simpl.
  - rewrite (control_neighbor_peer cmd n c0 c).
    destruct (control_neighbor cmd n c p) as [c1 p1]. simpl.
    specialize (IH c1 true).
    destruct (neighbor_loop cmd n rest c1 true) as [[c' rest'] m'].
    simpl in *. rewrite IH. reflexivity.
  - specialize (IH c matched).
    destruct (neighbor_loop cmd n rest c matched) as [[c' rest'] m'].
    simpl in *. rewrite IH. reflexivity.
Qed.

(** X13.  A neighbor command of the right length changes matched peers
    only: every peer the selector does not match is, at its place in
    the collection, exactly as before.  After a start command every
    matched peer is administratively up with an empty reason, the
    initial idle-hold time and an error count of 0, whatever the state
    machine did with these fields on the start event, and has the state
    the state machine gave it. *)
Theorem neighbor_command_peers (st : dstate) (m : imsg) (cmd : neighbor_cmd) :
  neighbor_cmd_of (type (hdr m)) = Some cmd ->
  len (hdr m) = IMSG_HEADER_SIZE + sizeof_ctl_neighbor ->
  let sel := fun p =>
    peer_matched p (Some (terminate_descr (neighbor_of (data m)))) in
  Forall2
    (fun p p' =>
       (sel p = false -> p' = p) /\
       (sel p = true -> cmd = CMD_UP ->
        down (conf p') = false /\ reason (conf p') = EmptyString /\
        IdleHoldTime p' = INTERVAL_IDLE_HOLD_INITIAL /\ errcnt p' = 0 /\
        state p' = state (bgp_fsm p EVNT_START)))
    (d_peers st) (d_peers (control_handle st m)).
Proof.
  intros Hcmd Hlen sel.
  assert (Hh : d_peers (control_handle st m) =
               snd (fst (neighbor_command cmd (d_conn st) (d_peers st)
                           (d_env st) m))).
  { unfold control_handle.
    destruct (type (hdr m)); try discriminate Hcmd;
      cbn [neighbor_cmd_of] in *; injection Hcmd as <-;
      match goal with
      | |- context [neighbor_command ?a ?b ?c ?d ?e] =>
          destruct (neighbor_command a b c d e) as [[c1 p1] e1]
      end; reflexivity. }
  rewrite Hh. clear Hh. unfold neighbor_command.
  rewrite Hlen, Z.eqb_refl. cbn [negb].
  pose proof (neighbor_loop_peers cmd
                (terminate_descr (neighbor_of (data m))) (d_conn st)
                (d_peers st) (d_conn st) false) as Hp.
  destruct (neighbor_loop cmd (terminate_descr (neighbor_of (data m)))
              (d_peers st) (d_conn st) false) as [[c1 peers1] matched].
  cbn [fst snd] in Hp. subst peers1.
  assert (Hgoal : forall l,
            Forall2
              (fun p p' =>
                 (sel p = false -> p' = p) /\
                 (sel p = true -> cmd = CMD_UP ->
                  down (conf p') = false /\ reason (conf p') = EmptyString /\
                  IdleHoldTime p' = INTERVAL_IDLE_HOLD_INITIAL /\
                  errcnt p' = 0 /\
                  state p' = state (bgp_fsm p EVNT_START)))
              l
              (map (fun p => if sel p
                             then snd (control_neighbor cmd
                                         (terminate_descr
                                            (neighbor_of (data m)))
                                         (d_conn st) p)
                             else p) l)).
  { induction l as [|p rest IH]; simpl; constructor; [|exact IH].
    destruct (sel p); split; try discriminate; try reflexivity.
    intros _ ->. cbn. repeat split. }
  destruct (negb matched); cbn [fst snd]; apply Hgoal.
Qed.

(** X14.  A neighbor command, a rib request or a log-verbosity request
    whose length is not the expected one is dropped: no reply is
    queued, the connection and the peers are as before, nothing is
    handed to a backend and the verbosity stays; the only trace is at
    most a line in the log. *)
Theorem wrong_length_dropped (st : dstate) (m : imsg) :
  wrong_length m = true ->
  let st' := control_handle st m in
  d_conn st' = d_conn st /\ d_peers st' = d_peers st /\
  rde_ctl (d_env st') = rde_ctl (d_env st) /\
  parent_ctl (d_env st') = parent_ctl (d_env st) /\
  verbosity (d_env st') = verbosity (d_env st) /\
  ctl_conns (d_env st') = ctl_conns (d_env st).
Proof.
  unfold wrong_length, control_handle. cbv zeta.
  destruct (type (hdr m)) eqn:Et; try discriminate; intro Hw;
    cbn [neighbor_cmd_of]; unfold neighbor_command, show_rib;
    rewrite ?Et, Hw; destruct st; cbn; repeat split.
Qed.

(** ** Pass-through requests *)

(** X15.  The requests that are passed on as they are.  When the
    hand-over succeeds, a request of a pid-stamping type records the
    sender's pid on the connection and reaches exactly one backend with
    its type, the sender's pid and its payload: the parent, and not the
    RDE, for reload and for the interface, fib-table, rtr, kroute and
    nexthop shows (the last three with the request's peerid, the others
    with peerid 0); the RDE, and not the parent, for the network,
    flowspec, rib-memory and set shows.  A network, flowspec or
    filter-set update reaches the RDE alone, with its type and payload
    and with pid 0, and leaves the recorded pid alone.  None of them
    queues a reply or changes a peer, and only the network and flowspec
    shows set the terminate flag. *)
Theorem pass_through (st : dstate) (m : imsg) :
  stamps_pid (type (hdr m)) || rib_update (type (hdr m)) = true ->
  send_ok (d_env st) = true ->
  let st' := control_handle st m in
  let stamped := stamps_pid (type (hdr m)) in
  let fwd :=
    mk_ctl_msg (type (hdr m))
      (match type (hdr m) with
       | IMSG_CTL_KROUTE | IMSG_CTL_KROUTE_ADDR | IMSG_CTL_SHOW_NEXTHOP =>
           peerid (hdr m)
       | _ => 0
       end)
      (if stamped then pid (hdr m) else 0) (data m) in
  ibuf_w (d_conn st') = ibuf_w (d_conn st) /\
  d_peers st' = d_peers st /\
  ibuf_pid (d_conn st') =
    (if stamped then pid (hdr m) else ibuf_pid (d_conn st)) /\
  terminate (d_conn st') =
    match type (hdr m) with
    | IMSG_CTL_SHOW_NETWORK | IMSG_CTL_SHOW_FLOWSPEC => true
    | _ => terminate (d_conn st)
    end /\
  parent_ctl (d_env st') =
    parent_ctl (d_env st) ++
    (if parent_request (type (hdr m)) then [fwd] else []) /\
  rde_ctl (d_env st') =
    rde_ctl (d_env st) ++
    (if parent_request (type (hdr m)) then [] else [fwd]).
Proof.
  intros Hclass Hok st' stamped fwd. subst st' stamped fwd.
  assert (Hq1 : forall t peerid p d,
            rde_ctl (fst (imsg_ctl_rde (d_env st) t peerid p d)) =
            rde_ctl (d_env st) ++ [mk_ctl_msg t peerid p d]).
  { intros t peerid p d. rewrite imsg_ctl_rde_queue, Hok. reflexivity. }
  assert (Hq2 : forall t peerid p d,
            parent_ctl (fst (imsg_ctl_rde (d_env st) t peerid p d)) =
            parent_ctl (d_env st) ++ []).
  { intros t peerid p d. rewrite app_nil_r. apply imsg_ctl_rde_frame. }
  assert (Hp : forall t peerid p d,
            rde_ctl (imsg_ctl_parent (d_env st) t peerid p d) =
            rde_ctl (d_env st) ++ []).
  { intros t peerid p d. rewrite app_nil_r. reflexivity. }
  unfold control_handle. cbv zeta.
  destruct (type (hdr m)) eqn:Et; try discriminate Hclass;
    cbn [stamps_pid rib_update parent_request d_conn d_peers d_env ibuf_w
         ibuf_pid terminate set_pid set_terminate];
    (split; [reflexivity|]); (split; [reflexivity|]);
    (split; [reflexivity|]); (split; [reflexivity|]);
    first [ split; [reflexivity | apply Hp]
          | split; [apply Hq2 | apply Hq1] ].
Qed.

(** ** Restricted connections are read-only *)

Lemma readonly_step_refl (e : world) : readonly_step e e.
Proof.
  split; [reflexivity|].
  split; exists []; rewrite app_nil_r; split; auto.
Qed.

Lemma readonly_step_trans (e1 e2 e3 : world) :
  readonly_step e1 e2 -> readonly_step e2 e3 -> readonly_step e1 e3.
Proof.
  intros (V1 & (r1 & R1 & F1) & (p1 & P1 & G1))
         (V2 & (r2 & R2 & F2) & (p2 & P2 & G2)).
  split; [congruence|]. split.
  - exists (r1 ++ r2). rewrite R2, R1, app_assoc. split; [reflexivity|].
    apply Forall_app. split; assumption.
  - exists (p1 ++ p2). rewrite P2, P1, app_assoc. split; [reflexivity|].
    apply Forall_app. split; assumption.
Qed.

Lemma imsg_ctl_rde_readonly (e : world) (t : imsg_type) (peerid p : Z)
    (d : payload) :
  restricted_allowed t = true \/ t = IMSG_CTL_END ->
  readonly_step e (fst (imsg_ctl_rde e t peerid p d)).
Proof.
  intro Ht.
  destruct (imsg_ctl_rde_frame e t peerid p d) as (_ & _ & P & _ & _ & V).
  split; [exact V|]. split.
  - rewrite imsg_ctl_rde_queue. eexists. split; [reflexivity|].
    destruct (send_ok e); constructor; [exact Ht | constructor].
  - exists []. rewrite P, app_nil_r. split; auto.
Qed.

Lemma imsg_ctl_parent_readonly (e : world) (t : imsg_type) (peerid p : Z)
    (d : payload) :
  restricted_allowed t = true ->
  readonly_step e (imsg_ctl_parent e t peerid p d).
Proof.
  intro Ht. split; [reflexivity|]. split.
  - exists []. cbn. rewrite app_nil_r. split; auto.
  - eexists. split; [reflexivity|].
    constructor; [left; exact Ht | constructor].
Qed.

Lemma log_warn_readonly (e : world) (s : string) :
  readonly_step e (log_warn e s).
Proof.
  split; [reflexivity|].
  split; exists []; cbn; rewrite app_nil_r; split; auto.
Qed.

Lemma show_neighbor_loop_readonly (neighbor : option ctl_neighbor) (hpid : Z)
    (peers : list peer) :
  forall (c : ctl_conn) (e : world) (matched : bool),
  readonly_step e
    (snd (fst (show_neighbor_loop neighbor hpid peers c e matched))).
Proof.
  induction peers as [|p rest IH]; intros c e matched; simpl.
  - apply readonly_step_refl.
  - destruct (peer_matched p neighbor); simpl; [|apply IH].
    destruct (wants_timers neighbor); simpl; [apply IH|].
    eapply readonly_step_trans; [|apply IH].
    apply imsg_ctl_rde_readonly. left. reflexivity.
Qed.

Lemma show_neighbor_readonly (c : ctl_conn) (peers : list peer) (e : world)
    (m : imsg) :
  readonly_step e (snd (show_neighbor c peers e m)).
Proof.
  unfold show_neighbor.
  pose proof (show_neighbor_loop_readonly (show_selector m) (pid (hdr m))
                peers (set_pid c (pid (hdr m))) e false) as He.
  unfold show_selector in He.
  destruct (show_neighbor_loop
              (if len (hdr m) =? IMSG_HEADER_SIZE + sizeof_ctl_neighbor
               then Some (terminate_descr (neighbor_of (data m))) else None)
              (pid (hdr m)) peers (set_pid c (pid (hdr m))) e false)
    as [[c1 e1] matched].
  cbn [fst snd] in He.
  destruct (negb matched && RB_EMPTY peers); cbn [snd]; [exact He|].
  destruct (negb (wants_timers _)); cbn [snd]; [|exact He].
  eapply readonly_step_trans; [exact He|].
  apply imsg_ctl_rde_readonly. right. reflexivity.
Qed.

Lemma show_rib_readonly (c : ctl_conn) (peers : list peer) (e : world)
    (m : imsg) :
  restricted_allowed (type (hdr m)) = true ->
  readonly_step e (snd (show_rib c peers e m)).
Proof.
  intro Ht. unfold show_rib. cbv zeta.
  repeat match goal with
         | |- context [if ?b then _ else _] => destruct b
         end; cbn [snd];
    first [ apply readonly_step_refl | apply log_warn_readonly
          | apply imsg_ctl_rde_readonly; left; exact Ht ].
Qed.

(** The handlers of the allowlisted types change no peer and no log
    verbosity and hand the backends read-only messages only. *)
Lemma allowed_handle_readonly (st : dstate) (m : imsg) :
  restricted_allowed (type (hdr m)) = true ->
  d_peers (control_handle st m) = d_peers st /\
  readonly_step (d_env st) (d_env (control_handle st m)).
Proof.
  intro Ha.
  pose proof (show_neighbor_readonly (d_conn st) (d_peers st) (d_env st) m)
    as Hsn.
  pose proof (show_rib_readonly (d_conn st) (d_peers st) (d_env st) m Ha)
    as Hrib.
  unfold control_handle. cbv zeta.
  destruct (type (hdr m)) eqn:Et; try discriminate Ha;
    try (split; [reflexivity | apply readonly_step_refl]);
    try (cbn [d_peers d_env]; split; [reflexivity|];
         first [ apply imsg_ctl_parent_readonly; reflexivity
               | apply imsg_ctl_rde_readonly; left; reflexivity ]).
  - destruct (show_neighbor (d_conn st) (d_peers st) (d_env st) m)
      as [c1 e1]. split; [reflexivity | exact Hsn].
  - destruct (show_rib (d_conn st) (d_peers st) (d_env st) m) as [c1 e1].
    split; [reflexivity | exact Hrib].
  - destruct (show_rib (d_conn st) (d_peers st) (d_env st) m) as [c1 e1].
    split; [reflexivity | exact Hrib].
Qed.

Lemma restricted_imsg_readonly (st : dstate) (m : imsg) :
  restricted (d_conn st) = true ->
  d_peers (control_dispatch_imsg st m) = d_peers st /\
  readonly_step (d_env st) (d_env (control_dispatch_imsg st m)) /\
  restricted (d_conn (control_dispatch_imsg st m)) = true.
Proof.
  intro Hr.
  destruct (control_dispatch_imsg_extends st m) as ((_ & Hr' & _) & _).
  split; [|split; [|congruence]];
    unfold control_dispatch_imsg, restricted_filter; rewrite Hr;
    destruct (restricted_allowed (type (hdr m))) eqn:Ha;
    try (apply (allowed_handle_readonly
                  (mk_dstate (d_conn st) (d_peers st) (d_env st)) m Ha));
    cbn; first [reflexivity | apply readonly_step_refl].
Qed.

Lemma restricted_loop_readonly (fs : list imsg) :
  forall st : dstate,
  restricted (d_conn st) = true ->
  d_peers (dispatch_loop st fs) = d_peers st /\
  readonly_step (d_env st) (d_env (dispatch_loop st fs)).
Proof.
  unfold dispatch_loop.
  induction fs as [|m rest IH]; intros st Hr; simpl.
  - split; [reflexivity | apply readonly_step_refl].
  - destruct (restricted_imsg_readonly st m Hr) as (Hp & He & Hr').
    destruct (IH (control_dispatch_imsg st m) Hr') as (Hp' & He').
    split; [congruence | eapply readonly_step_trans; eassumption].
Qed.

Lemma dispatch_pollout_env (e : world) (c : ctl_conn) (rev : Z)
    (w : msgbuf_write_outcome) (e1 : world) (c1 : ctl_conn) :
  dispatch_pollout e c rev w = Some (e1, c1) ->
  e1 = e \/ e1 = fst (imsg_ctl_rde e IMSG_XON 0 (ibuf_pid c) PNone).
Proof.
  unfold dispatch_pollout.
  destruct (Z.land rev POLLOUT =? 0); [intro E; injection E; auto|].
  destruct w as [n | |]; [| |discriminate].
  - change (ibuf_pid (set_w c (skipn n (ibuf_w c)))) with (ibuf_pid c).
    destruct (throttled (set_w c (skipn n (ibuf_w c))) &&
              (queued (set_w c (skipn n (ibuf_w c))) <? CTL_MSG_LOW_MARK));
      [|intro E; injection E; auto].
    destruct (imsg_ctl_rde e IMSG_XON 0 (ibuf_pid c) PNone) as [e2 r].
    destruct (negb (r =? -1)); intro E; injection E; auto.
  - destruct (throttled c && (queued c <? CTL_MSG_LOW_MARK));
      [|intro E; injection E; auto].
    destruct (imsg_ctl_rde e IMSG_XON 0 (ibuf_pid c) PNone) as [e2 r].
    destruct (negb (r =? -1)); intro E; injection E; auto.
Qed.

Lemma control_close_env (e : world) (key : ctl_conn -> bool) (c : ctl_conn) :
  let e' := fst (control_close e key c) in
  verbosity e' = verbosity e /\ parent_ctl e' = parent_ctl e /\
  (rde_ctl e' = rde_ctl e \/
   rde_ctl e' =
     rde_ctl e ++ [mk_ctl_msg IMSG_CTL_TERMINATE 0 (ibuf_pid c) PNone]).
Proof.
  destruct (control_close_effect e key c) as (_ & P & _ & _ & R).
  split.
  - unfold control_close. cbn [fst].
    destruct (terminate c && negb (ibuf_pid c =? 0)); [|reflexivity].
    cbn. apply imsg_ctl_rde_frame.
  - split; [exact P|]. rewrite R.
    destruct (terminate c && negb (ibuf_pid c =? 0) && send_ok e);
      [right; reflexivity | left; apply app_nil_r].
Qed.

(** X16.  A restricted connection is read-only through a whole call of
    the dispatcher, whatever messages it sends: no peer changes, the
    log verbosity stays, the parent is handed only messages of
    allowlisted types, and the RDE only messages of allowlisted types,
    end markers, and the dispatcher's own XON and TERMINATE for this
    connection. *)
Theorem restricted_is_readonly (e : world) (pfd : pollfd)
    (peers : list peer) (io : io_script) (c : ctl_conn) :
  control_connbyfd (pfd_fd pfd) (ctl_conns e) = Some c ->
  restricted c = true ->
  let e' := fst (fst (control_dispatch_msg e pfd peers io)) in
  snd (fst (control_dispatch_msg e pfd peers io)) = peers /\
  verbosity e' = verbosity e /\
  (exists l, parent_ctl e' = parent_ctl e ++ l /\ Forall readonly_msg l) /\
  (exists l,
     rde_ctl e' = rde_ctl e ++ l /\
     Forall
       (fun x =>
          readonly_msg x \/ m_type x = IMSG_XON \/
          m_type x = IMSG_CTL_TERMINATE) l).
Proof.
  intros Hfind Hr e'. subst e'.
  assert (Hweak : forall l, Forall readonly_msg l ->
            Forall (fun x => readonly_msg x \/ m_type x = IMSG_XON \/
                             m_type x = IMSG_CTL_TERMINATE) l).
  { intros l Hl. eapply Forall_impl; [|exact Hl]. intros x Hx. left.
    exact Hx. }
  assert (Hclose : forall e0 c0 v p r,
            verbosity e0 = v ->
            (exists l, parent_ctl e0 = p ++ l /\ Forall readonly_msg l) ->
            (exists l, rde_ctl e0 = r ++ l /\
               Forall (fun x => readonly_msg x \/ m_type x = IMSG_XON \/
                                m_type x = IMSG_CTL_TERMINATE) l) ->
            let e1 := fst (control_close e0 (by_fd (pfd_fd pfd)) c0) in
            verbosity e1 = v /\
            (exists l, parent_ctl e1 = p ++ l /\ Forall readonly_msg l) /\
            (exists l, rde_ctl e1 = r ++ l /\
               Forall (fun x => readonly_msg x \/ m_type x = IMSG_XON \/
                                m_type x = IMSG_CTL_TERMINATE) l)).
  { intros e0 c0 v p r Hv Hp (l & Hl & Fl) e1. subst e1.
    destruct (control_close_env e0 (by_fd (pfd_fd pfd)) c0)
      as (V & P & [R | R]).
    - split; [congruence|]. split; [rewrite P; exact Hp|].
      exists l. rewrite R. split; assumption.
    - split; [congruence|]. split; [rewrite P; exact Hp|].
      exists (l ++ [mk_ctl_msg IMSG_CTL_TERMINATE 0 (ibuf_pid c0) PNone]).
      rewrite R, Hl, app_assoc. split; [reflexivity|].
      apply Forall_app. split; [exact Fl|].
      constructor; [right; right; reflexivity | constructor]. }
  assert (Hnil : forall (A : Type) (P : A -> Prop) (q : list A),
            exists l, q = q ++ l /\ Forall P l).
  { intros A P q. exists []. rewrite app_nil_r. split; auto. }
  unfold control_dispatch_msg. rewrite Hfind. cbv zeta.
  pose proof (dispatch_pollout_shape e c (revents pfd) (wr io)) as Hsh.
  destruct (dispatch_pollout e c (revents pfd) (wr io)) as [[e1 c1]|] eqn:Epo.
  - destruct Hsh as (_ & _ & _ & Hr1). rewrite Hr in Hr1.
    assert (Hpo : verbosity e1 = verbosity e /\
                  (exists l, parent_ctl e1 = parent_ctl e ++ l /\
                             Forall readonly_msg l) /\
                  (exists l, rde_ctl e1 = rde_ctl e ++ l /\
                     Forall (fun x => readonly_msg x \/ m_type x = IMSG_XON \/
                                      m_type x = IMSG_CTL_TERMINATE) l)).
    { destruct (dispatch_pollout_env _ _ _ _ _ _ Epo) as [-> | ->].
      - split; [reflexivity|]. split; apply Hnil.
      - destruct (imsg_ctl_rde_frame e IMSG_XON 0 (ibuf_pid c) PNone)
          as (_ & _ & P & _ & _ & V).
        split; [exact V|]. split; [rewrite P; apply Hnil|].
        rewrite imsg_ctl_rde_queue. eexists. split; [reflexivity|].
        destruct (send_ok e); constructor;
          [right; left; reflexivity | constructor]. }
    destruct Hpo as (V1 & P1 & R1).
    destruct (Z.land (revents pfd) POLLIN =? 0).
    + cbn [fst snd]. unfold commit. cbn.
      split; [reflexivity|]. split; [exact V1|]. split; assumption.
    + destruct (imsg_read_nofd (recvs io)) as [n err].
      destruct ((n =? -1) && negb (is_EAGAIN err) || (n =? 0)).
      * rewrite control_close_pair. cbn [fst snd].
        split; [reflexivity|]. apply Hclose; assumption.
      * destruct (restricted_loop_readonly (frames io)
                    (mk_dstate c1 peers e1) Hr1)
          as (Hp2 & V2 & (r2 & R2 & F2) & (p2 & P2 & G2)).
        cbn [d_peers d_env] in Hp2, V2, R2, P2.
        destruct P1 as (p1 & P1 & G1). destruct R1 as (r1 & R1 & F1).
        assert (Hall :
          verbosity (d_env (dispatch_loop (mk_dstate c1 peers e1)
                              (frames io))) = verbosity e /\
          (exists l,
             parent_ctl (d_env (dispatch_loop (mk_dstate c1 peers e1)
                                  (frames io))) = parent_ctl e ++ l /\
             Forall readonly_msg l) /\
          (exists l,
             rde_ctl (d_env (dispatch_loop (mk_dstate c1 peers e1)
                               (frames io))) = rde_ctl e ++ l /\
             Forall (fun x => readonly_msg x \/ m_type x = IMSG_XON \/
                              m_type x = IMSG_CTL_TERMINATE) l)).
        { split; [congruence|]. split.
          - exists (p1 ++ p2). rewrite P2, P1, app_assoc.
            split; [reflexivity|]. apply Forall_app. split; assumption.
          - exists (r1 ++ r2). rewrite R2, R1, app_assoc.
            split; [reflexivity|]. apply Forall_app.
            split; [exact F1 | apply Hweak, F2]. }
        destruct Hall as (Va & Pa & Ra).
        destruct (frames_corrupt io).
        -- rewrite control_close_pair. cbn [fst snd].
           split; [exact Hp2|]. apply Hclose; assumption.
        -- cbn [fst snd]. unfold commit. cbn.
           split; [exact Hp2|]. split; [exact Va|]. split; assumption.
  - rewrite control_close_pair. cbn [fst snd].
    split; [reflexivity|]. apply Hclose; [reflexivity | apply Hnil..].
Qed.

(** ** The relay *)

(** The relay of a reply other than a neighbor-show reply, in full for
    the connection it belongs to. *)
Lemma relay_forward_conn (e : world) (m : imsg) (p : option peer)
    (c : ctl_conn) :
  control_connbypid (pid (hdr m)) (ctl_conns e) = Some c ->
  is_show_neighbor (type (hdr m)) = false ->
  exists e',
    control_imsg_relay e m p = Some (e', p, 1) /\
    parent_ctl e' = parent_ctl e /\
    exists c',
      ctl_conns e' = conn_store (by_pid (pid (hdr m))) c' (ctl_conns e) /\
      ibuf_w c' =
        ibuf_w c ++ [mk_ctl_msg (type (hdr m)) 0 (pid (hdr m)) (data m)] /\
      ibuf_fd c' = ibuf_fd c /\ ibuf_pid c' = ibuf_pid c /\
      restricted c' = restricted c /\
      terminate c' = terminate c && negb (is_end_or_result (type (hdr m))).
Proof.
  intros Hfind Hns. unfold control_imsg_relay. cbv zeta.
  rewrite Hfind, Hns.
  destruct (negb (throttled (if is_end_or_result (type (hdr m))
                             then set_terminate c false else c)) &&
            (queued (if is_end_or_result (type (hdr m))
                     then set_terminate c false else c) >?
             CTL_MSG_HIGH_MARK)).
  - unfold imsg_ctl_rde.
    destruct (rde_fail e) as [|[|] rest]; cbn;
      (eexists; split; [reflexivity|]; split; [reflexivity|];
       eexists; split; [reflexivity|];
       destruct (is_end_or_result (type (hdr m))); cbn;
       rewrite ?andb_true_r, ?andb_false_r; repeat split).
  - cbn. eexists. split; [reflexivity|]. split; [reflexivity|].
    eexists. split; [reflexivity|].
    destruct (is_end_or_result (type (hdr m))); cbn;
      rewrite ?andb_true_r, ?andb_false_r; repeat split.
Qed.

(** X17.  A reply other than a neighbor-show reply, for a pid that a
    connection carries, is appended as it is (type, pid, payload) to
    the write queue of the first connection with that pid; the relay
    returns 1, hands nothing to the parent, leaves the peer alone and
    clears the terminate flag exactly for an end marker or a result.
    Every connection with another descriptor is as before. *)
Theorem relay_forwards (e : world) (m : imsg) (p : option peer)
    (c : ctl_conn) :
  control_connbypid (pid (hdr m)) (ctl_conns e) = Some c ->
  is_show_neighbor (type (hdr m)) = false ->
  exists e',
    control_imsg_relay e m p = Some (e', p, 1) /\
    parent_ctl e' = parent_ctl e /\
    (exists c',
       control_connbypid (pid (hdr m)) (ctl_conns e') = Some c' /\
       ibuf_w c' =
         ibuf_w c ++ [mk_ctl_msg (type (hdr m)) 0 (pid (hdr m)) (data m)] /\
       ibuf_fd c' = ibuf_fd c /\ restricted c' = restricted c /\
       terminate c' =
         terminate c && negb (is_end_or_result (type (hdr m)))) /\
    (forall fd', fd' <> ibuf_fd c ->
       control_connbyfd fd' (ctl_conns e') =
       control_connbyfd fd' (ctl_conns e)).
Proof.
  intros Hfind Hns.
  destruct (relay_forward_conn e m p c Hfind Hns)
    as (e' & Hrel & Hpar & c' & Hconns & Hw & Hfd & Hpid & Hres & Hterm).
  pose proof (connbypid_pid _ _ _ Hfind) as Hcp.
  exists e'. split; [exact Hrel|]. split; [exact Hpar|]. split.
  - exists c'. rewrite Hconns. split.
    + eapply connbypid_store; [exact Hfind | congruence].
    + repeat split; assumption.
  - intros fd' Hne. rewrite Hconns.
    apply (connbyfd_store_pid_other _ _ c); auto.
Qed.

(** X18.  A neighbor-show reply whose payload is the statistics struct,
    with a peer and for a pid that a connection carries: the relay
    returns 1; each of the ten counters of the reply overwrites the
    peer's; the peer's message counters, configuration, state, timers
    and other fields are as before; the whole peer, with the new
    counters, is appended under the reply's pid to the write queue of
    the first connection with that pid, whose other fields, like every
    connection with another descriptor, are as before; nothing goes to
    the RDE or the parent.  A reply shorter than the struct has no
    result: the copy of the statistics would read past its payload. *)
Theorem relay_neighbor_merges (e : world) (m : imsg) (p0 : peer)
    (c : ctl_conn) :
  control_connbypid (pid (hdr m)) (ctl_conns e) = Some c ->
  type (hdr m) = IMSG_CTL_SHOW_NEIGHBOR ->
  (forall s,
     len (hdr m) = IMSG_HEADER_SIZE + sizeof_rde_peer_stats ->
     data m = PStats s ->
     exists e' p1,
       control_imsg_relay e m (Some p0) = Some (e', Some p1, 1) /\
       prefix_cnt (stats p1) = r_prefix_cnt s /\
       prefix_out_cnt (stats p1) = r_prefix_out_cnt s /\
       prefix_rcvd_update (stats p1) = r_prefix_rcvd_update s /\
       prefix_rcvd_withdraw (stats p1) = r_prefix_rcvd_withdraw s /\
       prefix_rcvd_eor (stats p1) = r_prefix_rcvd_eor s /\
       prefix_sent_update (stats p1) = r_prefix_sent_update s /\
       prefix_sent_withdraw (stats p1) = r_prefix_sent_withdraw s /\
       prefix_sent_eor (stats p1) = r_prefix_sent_eor s /\
       pending_update (stats p1) = r_pending_update s /\
       pending_withdraw (stats p1) = r_pending_withdraw s /\
       msg_counters (stats p1) = msg_counters (stats p0) /\
       conf p1 = conf p0 /\ state p1 = state p0 /\
       template p1 = template p0 /\ reconf_action p1 = reconf_action p0 /\
       IdleHoldTime p1 = IdleHoldTime p0 /\ errcnt p1 = errcnt p0 /\
       timers p1 = timers p0 /\
       (exists c',
          control_connbypid (pid (hdr m)) (ctl_conns e') = Some c' /\
          ibuf_w c' =
            ibuf_w c ++
            [mk_ctl_msg IMSG_CTL_SHOW_NEIGHBOR 0 (pid (hdr m)) (PPeer p1)] /\
          ibuf_fd c' = ibuf_fd c /\ ibuf_pid c' = ibuf_pid c /\
          restricted c' = restricted c /\ throttled c' = throttled c /\
          terminate c' = terminate c) /\
       (forall fd', fd' <> ibuf_fd c ->
          control_connbyfd fd' (ctl_conns e') =
          control_connbyfd fd' (ctl_conns e)) /\
       rde_ctl e' = rde_ctl e /\ parent_ctl e' = parent_ctl e) /\
  (len (hdr m) < IMSG_HEADER_SIZE + sizeof_rde_peer_stats ->
   control_imsg_relay e m (Some p0) = None).
Proof.
  intros Hfind Ht. pose proof (connbypid_pid _ _ _ Hfind) as Hpid. split.
  - intros s Hlen Hd.
    eexists. eexists.
    split; [exact (relay_merge_result e m p0 c s Hfind Ht Hlen Hd)|].
    do 18 (split; [reflexivity|]).
    split; [|split; [|split; reflexivity]].
    + eexists. split.
      * unfold commit. cbn [ctl_conns set_conns].
        eapply connbypid_store; [exact Hfind | exact Hpid].
      * repeat split.
    + intros fd' Hne. unfold commit. cbn [ctl_conns set_conns].
      apply (connbyfd_store_pid_other _ _ c); auto.
  - intro Hlen. unfold control_imsg_relay, stats_of. cbv zeta.
    rewrite Hfind, Ht. cbn [is_show_neighbor].
    assert (Hgt : (len (hdr m) >? IMSG_HEADER_SIZE + sizeof_rde_peer_stats)
                  = false).
    { rewrite Z.gtb_ltb. apply Z.ltb_ge. lia. }
    apply Z.ltb_lt in Hlen. rewrite Hgt, Hlen. reflexivity.
Qed.

(** ** The terminate flag between request, reply and close *)

(** X19.  Once the end marker or a result has been relayed to a
    connection, closing that connection hands nothing to the RDE.  And
    right after a network or flowspec show request from a sender with a
    pid other than 0, closing the connection hands the RDE one
    IMSG_CTL_TERMINATE for that pid (every hand-over succeeding). *)
Theorem terminate_follows_request (key : ctl_conn -> bool) :
  (forall e m p c,
     control_connbypid (pid (hdr m)) (ctl_conns e) = Some c ->
     is_end_or_result (type (hdr m)) = true ->
     exists e1,
       control_imsg_relay e m p = Some (e1, p, 1) /\
       exists c1,
         control_connbypid (pid (hdr m)) (ctl_conns e1) = Some c1 /\
         rde_ctl (fst (control_close e1 key c1)) = rde_ctl e1) /\
  (forall st m,
     type (hdr m) = IMSG_CTL_SHOW_NETWORK \/
     type (hdr m) = IMSG_CTL_SHOW_FLOWSPEC ->
     pid (hdr m) <> 0 ->
     rde_fail (d_env st) = [] ->
     let st' := control_handle st m in
     rde_ctl (fst (control_close (d_env st') key (d_conn st'))) =
     rde_ctl (d_env st') ++
     [mk_ctl_msg IMSG_CTL_TERMINATE 0 (pid (hdr m)) PNone]).
Proof.
  split.
  - intros e m p c Hfind Hend.
    assert (Hns : is_show_neighbor (type (hdr m)) = false).
    { destruct (type (hdr m)); try discriminate Hend; reflexivity. }
    destruct (relay_forward_conn e m p c Hfind Hns)
      as (e1 & Hrel & _ & c' & Hconns & _ & _ & Hpid & _ & Hterm).
    pose proof (connbypid_pid _ _ _ Hfind) as Hcp.
    exists e1. split; [exact Hrel|]. exists c'. split.
    + rewrite Hconns. eapply connbypid_store; [exact Hfind | congruence].
    + destruct (control_close_effect e1 key c') as (_ & _ & _ & _ & Hq).
      rewrite Hq, Hterm, Hend, andb_false_r. cbn. apply app_nil_r.
  - intros st m Ht Hpid Htape st'. subst st'.
    assert (Hh : control_handle st m =
                 mk_dstate
                   (set_pid (set_terminate (d_conn st) true) (pid (hdr m)))
                   (d_peers st)
                   (fst (imsg_ctl_rde (d_env st) (type (hdr m)) 0
                           (pid (hdr m)) (data m)))).
    { unfold control_handle. cbv zeta.
      destruct Ht as [Ht | Ht]; rewrite Ht; reflexivity. }
    rewrite Hh. cbn [d_env d_conn].
    destruct (control_close_effect
                (fst (imsg_ctl_rde (d_env st) (type (hdr m)) 0 (pid (hdr m))
                        (data m))) key
                (set_pid (set_terminate (d_conn st) true) (pid (hdr m))))
      as (_ & _ & _ & _ & Hq).
    rewrite Hq. cbn [terminate ibuf_pid set_pid set_terminate andb].
    apply Z.eqb_neq in Hpid. rewrite Hpid. cbn [negb andb].
    unfold send_ok, imsg_ctl_rde. rewrite Htape. reflexivity.
Qed.

(** ** From request to reply *)

Lemma connbypid_store_fd (fd P : Z) (l : list ctl_conn) (c c1 : ctl_conn) :
  control_connbyfd fd l = Some c -> ibuf_pid c1 = P ->
  (forall c2, In c2 l -> ibuf_pid c2 = P -> ibuf_fd c2 = fd) ->
  control_connbypid P (conn_store (by_fd fd) c1 l) = Some c1.
Proof.
  intros Hfind Hp Hown.
  induction l as [|a rest IH]; simpl in *; [discriminate|].
  change (by_fd fd a) with (ibuf_fd a =? fd).
  destruct (ibuf_fd a =? fd) eqn:Ea; simpl.
  - rewrite Hp, Z.eqb_refl. reflexivity.
  - destruct (ibuf_pid a =? P) eqn:Eap.
    + apply Z.eqb_eq in Eap. apply Z.eqb_neq in Ea.
      exfalso. apply Ea. apply Hown; auto.
    + apply IH; [exact Hfind|]. intros c2 Hc2. apply Hown. right. exact Hc2.
Qed.

Lemma connbyfd_store_twice (fd P : Z) (l : list ctl_conn)
    (c c1 c1' : ctl_conn) :
  control_connbyfd fd l = Some c -> ibuf_pid c1 = P -> ibuf_fd c1' = fd ->
  (forall c2, In c2 l -> ibuf_pid c2 = P -> ibuf_fd c2 = fd) ->
  control_connbyfd fd (conn_store (by_pid P) c1' (conn_store (by_fd fd) c1 l))
  = Some c1'.
Proof.
  intros Hfind Hp Hfd' Hown.
  induction l as [|a rest IH]; simpl in *; [discriminate|].
  change (by_fd fd a) with (ibuf_fd a =? fd).
  destruct (ibuf_fd a =? fd) eqn:Ea; simpl.
  - change (by_pid P c1) with (ibuf_pid c1 =? P). rewrite Hp, Z.eqb_refl.
    simpl. rewrite Hfd', Z.eqb_refl. reflexivity.
  - change (by_pid P a) with (ibuf_pid a =? P).
    destruct (ibuf_pid a =? P) eqn:Eap.
    + apply Z.eqb_eq in Eap. apply Z.eqb_neq in Ea.
      exfalso. apply Ea. apply Hown; auto.
    + simpl. rewrite Ea. apply IH; [exact Hfind|].
      intros c2 Hc2. apply Hown. right. exact Hc2.
Qed.

Lemma stamps_pid_conn (st : dstate) (m : imsg) :
  stamps_pid (type (hdr m)) = true ->
  ibuf_pid (d_conn (control_handle st m)) = pid (hdr m) /\
  ibuf_w (d_conn (control_handle st m)) = ibuf_w (d_conn st).
Proof.
  unfold control_handle. cbv zeta.
  destruct (type (hdr m)); try discriminate; intros _; split; reflexivity.
Qed.

(** X20.  From request to reply.  An unrestricted connection sends one
    request of a pid-stamping type; the dispatcher reads it on POLLIN
    and forwards it.  If no other connection carries the sender's pid,
    a later reply of the backend for that pid (other than a neighbor-
    show reply) is relayed, and is found in the write queue of this
    very connection, right after what was queued before. *)
Theorem request_reply_round_trip (e : world) (pfd : pollfd)
    (peers : list peer) (io : io_script) (c : ctl_conn) (m reply : imsg) :
  control_connbyfd (pfd_fd pfd) (ctl_conns e) = Some c ->
  restricted c = false ->
  revents pfd = POLLIN ->
  read_closes io = false ->
  frames io = [m] ->
  frames_corrupt io = false ->
  stamps_pid (type (hdr m)) = true ->
  (forall c2, In c2 (ctl_conns e) -> ibuf_pid c2 = pid (hdr m) ->
              ibuf_fd c2 = pfd_fd pfd) ->
  pid (hdr reply) = pid (hdr m) ->
  is_show_neighbor (type (hdr reply)) = false ->
  let e1 := fst (fst (control_dispatch_msg e pfd peers io)) in
  snd (control_dispatch_msg e pfd peers io) = 0 /\
  exists e2,
    control_imsg_relay e1 reply None = Some (e2, None, 1) /\
    exists c2,
      control_connbyfd (pfd_fd pfd) (ctl_conns e2) = Some c2 /\
      ibuf_w c2 =
        ibuf_w c ++
        [mk_ctl_msg (type (hdr reply)) 0 (pid (hdr reply)) (data reply)].
Proof.
  intros Hfind Hunr Hrev Hread Hframes Hcorrupt Hstamp Hown Hpid Hns e1.
  pose proof (connbyfd_fd _ _ _ Hfind) as Hfd.
  set (st1 := control_handle (mk_dstate c peers e) m).
  assert (Hd : control_dispatch_msg e pfd peers io =
               (commit (d_env st1) (by_fd (pfd_fd pfd)) (d_conn st1),
                d_peers st1, 0)).
  { unfold control_dispatch_msg. rewrite Hfind. cbv zeta.
    assert (Hpo : (Z.land POLLIN POLLOUT =? 0) = true) by reflexivity.
    assert (Hpi : (Z.land POLLIN POLLIN =? 0) = false) by reflexivity.
    unfold dispatch_pollout. rewrite Hrev, Hpo, Hpi.
    unfold read_closes in Hread.
    destruct (imsg_read_nofd (recvs io)) as [n err]. rewrite Hread.
    rewrite Hframes, Hcorrupt. unfold dispatch_loop. cbn [fold_left].
    rewrite unrestricted_dispatch by exact Hunr. reflexivity. }
  destruct (stamps_pid_conn (mk_dstate c peers e) m Hstamp) as [Hp1 Hw1].
  destruct (control_handle_extends (mk_dstate c peers e) m)
    as ((Hfd1 & _) & (Hconns1 & _) & _).
  fold st1 in Hp1, Hw1, Hfd1, Hconns1. cbn [d_conn d_env] in Hw1, Hfd1, Hconns1.
  subst e1. rewrite Hd. cbn [fst snd]. split; [reflexivity|].
  assert (Hc1 : control_connbypid (pid (hdr reply))
                  (ctl_conns (commit (d_env st1) (by_fd (pfd_fd pfd))
                                (d_conn st1))) = Some (d_conn st1)).
  { unfold commit. cbn [ctl_conns set_conns]. rewrite Hconns1, Hpid.
    eapply connbypid_store_fd; [exact Hfind | exact Hp1 | exact Hown]. }
  destruct (relay_forward_conn _ reply None _ Hc1 Hns)
    as (e2 & Hrel & _ & c2 & Hconns2 & Hw2 & Hfd2 & _).
  exists e2. split; [exact Hrel|]. exists c2. split.
  - rewrite Hconns2. unfold commit. cbn [ctl_conns set_conns].
    rewrite Hconns1, Hpid.
    eapply connbyfd_store_twice; [exact Hfind | exact Hp1 | congruence
                                 | exact Hown].
  - rewrite Hw2, Hw1. reflexivity.
Qed.

End Handlers.

(** * The further properties on concrete inputs *)


Lemma control_fill_pfds_entries_witness :
  (length (ctl_conns world_two) <= length pfd_array)%nat /\
  snd (control_fill_pfds pfd_array 3 (ctl_conns world_two)) = 2 /\
  map revents (fst (control_fill_pfds pfd_array 3 (ctl_conns world_two))) =
    map revents pfd_array.
Proof.
  assert (Hlen : (length (ctl_conns world_two) <= length pfd_array)%nat).
  { simpl. lia. }
  split; [exact Hlen|].
  destruct (control_fill_pfds_entries pfd_array 3 (ctl_conns world_two) Hlen)
    as (Hn & _ & Hr & _).
  split; [exact Hn | exact Hr].
Defined.

Lemma imsg_read_nofd_retries_witness :
  imsg_read_nofd (repeat (RecvFailed EINTR) 3 ++ [Recv 64]) =
    imsg_read_nofd [Recv 64] /\
  snd (imsg_read_nofd [Recv 64]) <> Some EINTR.
Proof.
  exact (imsg_read_nofd_retries 3 [Recv 64]).
Defined.

Lemma descriptors_stay_distinct_witness :
  NoDup (map ibuf_fd (ctl_conns world_two)) /\
  NoDup
    (map ibuf_fd
       (ctl_conns
          (fst (fst (control_dispatch_msg (H := session_h) world_two
                       (pfd_readable 9) sample_peers io_eof))))).
Proof.
  assert (Hnd : NoDup (map ibuf_fd (ctl_conns world_two))).
  { simpl. repeat constructor; simpl; intuition discriminate. }
  split; [exact Hnd|].
  apply (proj1 (descriptors_stay_distinct (H := session_h) world_two Hnd)).
Defined.

Lemma dispatch_leaves_others_witness :
  7 <> pfd_fd (pfd_readable 9) /\
  control_connbyfd 7
    (ctl_conns
       (fst (fst (control_dispatch_msg (H := session_h) world_two
                    (pfd_readable 9) sample_peers io_eof)))) =
  control_connbyfd 7 (ctl_conns world_two).
Proof.
  assert (Hne : 7 <> pfd_fd (pfd_readable 9)) by discriminate.
  split; [exact Hne|].
  apply (dispatch_leaves_others (H := session_h) world_two (pfd_readable 9)
           sample_peers io_eof 7 Hne).
Defined.

Lemma dispatch_close_paths_witness :
  control_connbyfd (pfd_fd (pfd_readable 9)) (ctl_conns world_two) =
    Some conn_bulk /\
  NoDup (map ibuf_fd (ctl_conns world_two)) /\
  snd (control_dispatch_msg (H := session_h) world_two (pfd_readable 9)
         sample_peers io_eof) = 1 /\
  closed_fds
    (fst (fst (control_dispatch_msg (H := session_h) world_two
                 (pfd_readable 9) sample_peers io_eof))) = [9].
Proof.
  assert (Hnd : NoDup (map ibuf_fd (ctl_conns world_two))).
  { simpl. repeat constructor; simpl; intuition discriminate. }
  split; [reflexivity|]. split; [exact Hnd|].
  destruct (dispatch_close_paths (H := session_h) world_two (pfd_readable 9)
              sample_peers io_eof conn_bulk eq_refl Hnd) as (Hr & Hc & _).
  split; [exact Hr | exact Hc].
Defined.

Lemma accept_registers_witness :
  ~ In 11 (map ibuf_fd (ctl_conns world_two)) /\
  control_connbyfd 11
    (ctl_conns (fst (control_accept world_two true (Accepted 11) true 0 55))) =
  Some (mk_ctl_conn 11 55 [] true false false).
Proof.
  assert (Hfresh : ~ In 11 (map ibuf_fd (ctl_conns world_two))).
  { simpl. intuition discriminate. }
  split; [exact Hfresh|].
  apply (accept_registers world_two true 11 0 55 Hfresh).
Defined.

Lemma show_terse_output_witness :
  type (hdr (neighbor_msg IMSG_CTL_SHOW_TERSE select_all)) =
    IMSG_CTL_SHOW_TERSE /\
  ibuf_w
    (d_conn
       (control_dispatch_imsg (H := session_h) st_restricted
          (neighbor_msg IMSG_CTL_SHOW_TERSE select_all))) =
  [mk_ctl_msg IMSG_CTL_SHOW_NEIGHBOR 0 0 (PPeer peer_static);
   mk_ctl_msg IMSG_CTL_SHOW_NEIGHBOR 0 0 (PPeer peer_cloned_idle);
   mk_ctl_msg IMSG_CTL_SHOW_NEIGHBOR 0 0 (PPeer peer_cloned_up);
   mk_ctl_msg IMSG_CTL_END 0 0 PNone].
Proof.
  split; [reflexivity|].
  destruct (show_terse_output (H := session_h) st_restricted
              (neighbor_msg IMSG_CTL_SHOW_TERSE select_all) eq_refl)
    as (_ & Hw & _).
  exact Hw.
Defined.

Lemma show_neighbor_via_rde_witness :
  type (hdr (neighbor_msg IMSG_CTL_SHOW_NEIGHBOR select_all)) =
    IMSG_CTL_SHOW_NEIGHBOR /\
  wants_timers
    (show_selector (H := session_h)
       (neighbor_msg IMSG_CTL_SHOW_NEIGHBOR select_all)) = false /\
  rde_ctl
    (d_env
       (control_dispatch_imsg (H := session_h) st_sample
          (neighbor_msg IMSG_CTL_SHOW_NEIGHBOR select_all))) =
  [mk_ctl_msg IMSG_CTL_SHOW_NEIGHBOR 1 4242 PNone;
   mk_ctl_msg IMSG_CTL_SHOW_NEIGHBOR 2 4242 PNone;
   mk_ctl_msg IMSG_CTL_SHOW_NEIGHBOR 3 4242 PNone;
   mk_ctl_msg IMSG_CTL_END 0 4242 PNone].
Proof.
  split; [reflexivity|]. split; [reflexivity|].
  destruct (show_neighbor_via_rde (H := session_h) st_sample
              (neighbor_msg IMSG_CTL_SHOW_NEIGHBOR select_all)
              eq_refl eq_refl eq_refl eq_refl) as (_ & _ & _ & Hrde & _).
  exact Hrde.
Defined.

Lemma show_neighbor_timers_output_witness :
  wants_timers
    (show_selector (H := session_h)
       (neighbor_msg IMSG_CTL_SHOW_NEIGHBOR select_timers)) = true /\
  ibuf_w
    (d_conn
       (control_dispatch_imsg (H := session_h) st_sample
          (neighbor_msg IMSG_CTL_SHOW_NEIGHBOR select_timers))) =
  [mk_ctl_msg IMSG_CTL_SHOW_NEIGHBOR 0 0 (PPeer peer_static);
   mk_ctl_msg IMSG_CTL_SHOW_TIMER 0 0 (PTimer (mk_ctl_timer 1 20));
   mk_ctl_msg IMSG_CTL_END 0 0 PNone].
Proof.
  split; [reflexivity|].
  destruct (show_neighbor_timers_output (H := session_h) st_sample
              (neighbor_msg IMSG_CTL_SHOW_NEIGHBOR select_timers)
              eq_refl eq_refl eq_refl) as (_ & Hw & _).
  exact Hw.
Defined.

Lemma neighbor_command_peers_witness :
  neighbor_cmd_of
    (type (hdr (neighbor_msg IMSG_CTL_NEIGHBOR_UP select_timers))) =
    Some CMD_UP /\
  length
    (d_peers
       (control_handle (H := session_h) st_sample
          (neighbor_msg IMSG_CTL_NEIGHBOR_UP select_timers))) = 3%nat.
Proof.
  split; [reflexivity|].
  rewrite <- (Forall2_length
                (neighbor_command_peers (H := session_h) st_sample
                   (neighbor_msg IMSG_CTL_NEIGHBOR_UP select_timers) CMD_UP
                   eq_refl eq_refl)).
  reflexivity.
Defined.

Lemma wrong_length_dropped_witness :
  wrong_length (H := session_h) short_neighbor_cmd = true /\
  d_conn (control_handle (H := session_h) st_sample short_neighbor_cmd) =
    d_conn st_sample /\
  d_peers (control_handle (H := session_h) st_sample short_neighbor_cmd) =
    d_peers st_sample.
Proof.
  split; [reflexivity|].
  destruct (wrong_length_dropped (H := session_h) st_sample short_neighbor_cmd
              eq_refl) as (Hc & Hp & _).
  split; [exact Hc | exact Hp].
Defined.

Lemma pass_through_witness :
  (stamps_pid (type (hdr network_request)) ||
     rib_update (type (hdr network_request)) = true /\
   send_ok (d_env st_sample) = true /\
   ibuf_pid
     (d_conn (control_handle (H := session_h) st_sample network_request)) =
     777 /\
   terminate
     (d_conn (control_handle (H := session_h) st_sample network_request)) =
     true /\
   parent_ctl
     (d_env (control_handle (H := session_h) st_sample network_request)) =
     [] /\
   rde_ctl
     (d_env (control_handle (H := session_h) st_sample network_request)) =
     [mk_ctl_msg IMSG_CTL_SHOW_NETWORK 0 777 PNone]) /\
  (parent_ctl
     (d_env (control_handle (H := session_h) st_sample reload_request)) =
     [mk_ctl_msg IMSG_CTL_RELOAD 0 777 PNone] /\
   rde_ctl
     (d_env (control_handle (H := session_h) st_sample reload_request)) =
     []) /\
  (parent_ctl
     (d_env (control_handle (H := session_h) st_sample kroute_request)) =
     [mk_ctl_msg IMSG_CTL_KROUTE 5 777 (PRaw [2; 0; 0; 0])] /\
   rde_ctl
     (d_env (control_handle (H := session_h) st_sample kroute_request)) =
     []) /\
  (ibuf_pid
     (d_conn (control_handle (H := session_h) st_sample network_update)) =
     0 /\
   parent_ctl
     (d_env (control_handle (H := session_h) st_sample network_update)) =
     [] /\
   rde_ctl
     (d_env (control_handle (H := session_h) st_sample network_update)) =
     [mk_ctl_msg IMSG_NETWORK_ADD 0 0 (PRaw [10; 0; 0; 8])]).
Proof.
  split; [|split; [|split]].
  - split; [reflexivity|]. split; [reflexivity|].
    destruct (pass_through (H := session_h) st_sample network_request
                eq_refl eq_refl) as (_ & _ & Hpid & Hterm & Hpar & Hrde).
    split; [exact Hpid|]. split; [exact Hterm|].
    split; [exact Hpar | exact Hrde].
  - destruct (pass_through (H := session_h) st_sample reload_request
                eq_refl eq_refl) as (_ & _ & _ & _ & Hpar & Hrde).
    split; [exact Hpar | exact Hrde].
  - destruct (pass_through (H := session_h) st_sample kroute_request
                eq_refl eq_refl) as (_ & _ & _ & _ & Hpar & Hrde).
    split; [exact Hpar | exact Hrde].
  - destruct (pass_through (H := session_h) st_sample network_update
                eq_refl eq_refl) as (_ & _ & Hpid & _ & Hpar & Hrde).
    split; [exact Hpid|]. split; [exact Hpar | exact Hrde].
Defined.

Lemma restricted_is_readonly_witness :
  control_connbyfd (pfd_fd (pfd_readable 8))
    (ctl_conns (world_idle [conn_restricted])) = Some conn_restricted /\
  restricted conn_restricted = true /\
  snd (fst (control_dispatch_msg (H := session_h)
              (world_idle [conn_restricted]) (pfd_readable 8) sample_peers
              (io_frames
                 [neighbor_msg IMSG_CTL_NEIGHBOR_DOWN select_all;
                  neighbor_msg IMSG_CTL_SHOW_NEIGHBOR select_all]))) =
  sample_peers.
Proof.
  split; [reflexivity|]. split; [reflexivity|].
  apply (restricted_is_readonly (H := session_h)
           (world_idle [conn_restricted]) (pfd_readable 8) sample_peers
           (io_frames
              [neighbor_msg IMSG_CTL_NEIGHBOR_DOWN select_all;
               neighbor_msg IMSG_CTL_SHOW_NEIGHBOR select_all])
           conn_restricted eq_refl eq_refl).
Defined.

Lemma relay_forwards_witness :
  control_connbypid (pid (hdr end_reply)) (ctl_conns world_two) =
    Some conn_bulk /\
  is_show_neighbor (type (hdr end_reply)) = false /\
  exists e',
    control_imsg_relay (H := session_h) world_two end_reply None =
      Some (e', None, 1) /\
    exists c',
      control_connbypid (pid (hdr end_reply)) (ctl_conns e') = Some c' /\
      ibuf_w c' =
        ibuf_w conn_bulk ++ [mk_ctl_msg IMSG_CTL_END 0 4242 PNone] /\
      terminate c' = false.
Proof.
  split; [reflexivity|]. split; [reflexivity|].
  destruct (relay_forwards (H := session_h) world_two end_reply None conn_bulk
              eq_refl eq_refl)
    as (e' & Hrel & _ & (c' & Hc & Hw & _ & _ & Hterm) & _).
  exists e'. split; [exact Hrel|].
  exists c'. split; [exact Hc|]. split; [exact Hw | exact Hterm].
Defined.

Lemma relay_neighbor_merges_witness :
  control_connbypid (pid (hdr reply_neighbor)) (ctl_conns world_two) =
    Some conn_bulk /\
  len (hdr reply_neighbor) =
    IMSG_HEADER_SIZE (Headers := session_h) +
    sizeof_rde_peer_stats (Headers := session_h) /\
  len (hdr reply_neighbor_short) <
    IMSG_HEADER_SIZE (Headers := session_h) +
    sizeof_rde_peer_stats (Headers := session_h) /\
  (exists e' p1,
     control_imsg_relay (H := session_h) world_two reply_neighbor
       (Some peer_static) = Some (e', Some p1, 1) /\
     prefix_cnt (stats p1) = 10 /\ pending_withdraw (stats p1) = 1 /\
     conf p1 = conf peer_static /\
     exists c',
       control_connbypid 4242 (ctl_conns e') = Some c' /\
       ibuf_w c' =
         [mk_ctl_msg IMSG_CTL_SHOW_RIB 0 4242 (PRaw [1; 2; 3]);
          mk_ctl_msg IMSG_CTL_SHOW_NEIGHBOR 0 4242 (PPeer p1)]) /\
  control_imsg_relay (H := session_h) world_two reply_neighbor_short
    (Some peer_static) = None.
Proof.
  assert (Hshort : len (hdr reply_neighbor_short) <
                   IMSG_HEADER_SIZE (Headers := session_h) +
                   sizeof_rde_peer_stats (Headers := session_h)).
  { vm_compute. reflexivity. }
  split; [reflexivity|]. split; [reflexivity|]. split; [exact Hshort|].
  split.
  - destruct (proj1 (relay_neighbor_merges (H := session_h) world_two
                       reply_neighbor peer_static conn_bulk eq_refl eq_refl)
                sample_stats eq_refl eq_refl)
      as (e' & p1 & Hrel & Hcnt & _ & _ & _ & _ & _ & _ & _ & _ & Hpw & _ &
          Hconf & _ & _ & _ & _ & _ & _ & (c' & Hc' & Hw & _) & _).
    exists e', p1. split; [exact Hrel|]. split; [exact Hcnt|].
    split; [exact Hpw|]. split; [exact Hconf|].
    exists c'. split; [exact Hc' | exact Hw].
  - exact (proj2 (relay_neighbor_merges (H := session_h) world_two
                    reply_neighbor_short peer_static conn_bulk eq_refl
                    eq_refl) Hshort).
Defined.

Lemma terminate_follows_request_witness :
  control_connbypid (pid (hdr end_reply)) (ctl_conns world_two) =
    Some conn_bulk /\
  is_end_or_result (type (hdr end_reply)) = true /\
  exists e1,
    control_imsg_relay (H := session_h) world_two end_reply None =
      Some (e1, None, 1) /\
    exists c1,
      control_connbypid (pid (hdr end_reply)) (ctl_conns e1) = Some c1 /\
      rde_ctl (fst (control_close e1 (by_fd 9) c1)) = rde_ctl e1.
Proof.
  split; [reflexivity|]. split; [reflexivity|].
  apply (proj1 (terminate_follows_request (H := session_h) (by_fd 9))
           world_two end_reply None conn_bulk eq_refl eq_refl).
Defined.

Lemma request_reply_round_trip_witness :
  control_connbyfd (pfd_fd (pfd_readable 7)) (ctl_conns world_two) =
    Some conn_open /\
  (forall c2, In c2 (ctl_conns world_two) ->
              ibuf_pid c2 = pid (hdr rib_mem_request) ->
              ibuf_fd c2 = pfd_fd (pfd_readable 7)) /\
  exists e2,
    control_imsg_relay (H := session_h)
      (fst (fst (control_dispatch_msg (H := session_h) world_two
                   (pfd_readable 7) sample_peers
                   (io_frames [rib_mem_request]))))
      rib_mem_reply None = Some (e2, None, 1) /\
    exists c2,
      control_connbyfd (pfd_fd (pfd_readable 7)) (ctl_conns e2) = Some c2 /\
      ibuf_w c2 =
        ibuf_w conn_open ++
        [mk_ctl_msg IMSG_CTL_SHOW_RIB_MEM 0 777 (PRaw [1])].
Proof.
  assert (Hown : forall c2, In c2 (ctl_conns world_two) ->
                 ibuf_pid c2 = pid (hdr rib_mem_request) ->
                 ibuf_fd c2 = pfd_fd (pfd_readable 7)).
  { simpl. intros c2 [<- | [<- | []]] Hp; discriminate Hp. }
  split; [reflexivity|]. split; [exact Hown|].
  apply (request_reply_round_trip (H := session_h) world_two (pfd_readable 7)
           sample_peers (io_frames [rib_mem_request]) conn_open
           rib_mem_request rib_mem_reply
           eq_refl eq_refl eq_refl eq_refl eq_refl eq_refl eq_refl Hown
           eq_refl eq_refl).
Defined.
